(** * sql2graph: the DDL-to-schema extractor and the registry round trip

    A shallow embedding of [utils/ddl_to_schema.py], of the registry writer
    of [utils/build_registry.py] and of the registry reader of
    [utils/table_selector.py], with the properties of the specification
    stated and settled against it.

    Further sections embed the lookups and the tools of the reader, the
    enrichment of [utils/enrich_registry.py] and the text sanitizers of
    [utils/sanitize.py] and [utils/streamlit_enrich.py], with properties
    read off the code itself.

    Conventions of the embedding.
    - A Python [str] is a list of characters.  The character type is
      [ascii], read as the code points 0..255 (Latin-1); on that range
      [str.lower] keeps the length of a string, and the whitespace of
      [str.strip], [str.split] and of the regex class [\s] is one and the
      same predicate.  Texts with other characters are outside the
      embedding: [str.lower] turns U+0130 into two characters, and the
      positions found in a lower-cased text are then no longer those of the
      text itself.
    - Python code that may raise runs in the [outcome] monad: a subscript
      out of range raises [IndexError], a missing dictionary key raises
      [KeyError].  [while] loops take fuel, and running out of it is a third
      outcome of its own, never confused with a result.
    - A [dict] is an association list in insertion order; assigning to a key
      that is present overwrites the value in place.
    - [str.find] returns [None] where Python returns [-1]. *)

From Stdlib Require Import String Ascii Bool Arith PeanoNat ZArith Lia List.
From Stdlib Require Import Permutation Sorted.
Import ListNotations.

(** ** Python strings *)

Definition str := list ascii.

Definition lit (s : string) : str := list_ascii_of_string s.

Arguments lit : simpl never.

(** The double-quote character. *)
Definition dquote : ascii := Eval cbv in ascii_of_nat 34.

Definition str_eqb (a b : str) : bool :=
  if list_eq_dec ascii_dec a b then true else false.

Definition nonempty {A : Type} (l : list A) : bool :=
  match l with [] => false | _ :: _ => true end.

Definition code (c : ascii) : nat := nat_of_ascii c.

Definition in_range (lo hi : nat) (c : ascii) : bool :=
  (lo <=? code c) && (code c <=? hi).

(** [str.isspace] on one character: TAB..CR, FS..US, space, NEL, NBSP. *)
Definition py_isspace (c : ascii) : bool :=
  in_range 9 13 c || in_range 28 32 c || (code c =? 133) || (code c =? 160).

Definition is_upper (c : ascii) : bool :=
  in_range 65 90 c || (in_range 192 222 c && negb (code c =? 215)).

Definition lower_char (c : ascii) : ascii :=
  if is_upper c then ascii_of_nat (code c + 32) else c.

(** [s.lower()], character by character on the code points 0..255. *)
Definition py_lower (s : str) : str := map lower_char s.

Definition is_alpha_ascii (c : ascii) : bool :=
  in_range 65 90 c || in_range 97 122 c.

Definition is_digit (c : ascii) : bool := in_range 48 57 c.

(** The class [[A-Za-z0-9_]]. *)
Definition is_word_char (c : ascii) : bool :=
  is_alpha_ascii c || is_digit c || Ascii.eqb c "_".

(** [s.startswith(p)] *)
Fixpoint py_startswith (s p : str) : bool :=
  match p, s with
  | [], _ => true
  | _ :: _, [] => false
  | a :: p', b :: s' => Ascii.eqb a b && py_startswith s' p'
  end.

(** [s.endswith(p)] *)
Definition py_endswith (s p : str) : bool :=
  py_startswith (rev s) (rev p).

Fixpoint drop_while (f : ascii -> bool) (s : str) : str :=
  match s with
  | [] => []
  | c :: s' => if f c then drop_while f s' else s
  end.

Fixpoint take_while (f : ascii -> bool) (s : str) : str :=
  match s with
  | [] => []
  | c :: s' => if f c then c :: take_while f s' else []
  end.

Definition py_lstrip (s : str) : str := drop_while py_isspace s.
Definition py_rstrip (s : str) : str := rev (drop_while py_isspace (rev s)).

(** [s.strip()] *)
Definition py_strip (s : str) : str := py_rstrip (py_lstrip s).

Arguments py_strip : simpl never.

(** [c in s] for a one-character [c]. *)
Definition py_contains (c : ascii) (s : str) : bool := existsb (Ascii.eqb c) s.

(** [s.split(sep)] for a one-character separator: never the empty list. *)
Fixpoint py_split_on (sep : ascii) (s : str) : list str :=
  match s with
  | [] => [[]]
  | c :: s' =>
      if Ascii.eqb c sep then [] :: py_split_on sep s'
      else match py_split_on sep s' with
           | p :: ps => (c :: p) :: ps
           | [] => [[c]]
           end
  end.

(** [s.split()]: the maximal runs of non-whitespace, [cur] being the run
    under construction. *)
Fixpoint split_ws_from (cur : str) (s : str) : list str :=
  match s with
  | [] => if nonempty cur then [cur] else []
  | c :: s' =>
      if py_isspace c
      then (if nonempty cur then cur :: split_ws_from [] s' else split_ws_from [] s')
      else split_ws_from (cur ++ [c]) s'
  end.

Definition py_split (s : str) : list str := split_ws_from [] s.

(** [s[a:b]] for [0 <= a] and [0 <= b]. *)
Definition slice (s : str) (a b : nat) : str := firstn (b - a) (skipn a s).

(** [s[1:]], [s[:-1]] and [s[1:-1]]. *)
Definition slice_from1 (s : str) : str := tl s.
Definition slice_to_m1 (s : str) : str := removelast s.
Definition slice_1_m1 (s : str) : str := removelast (tl s).

Fixpoint find_in (sub s : str) (i : nat) : option nat :=
  if py_startswith s sub then Some i
  else match s with
       | [] => None
       | _ :: s' => find_in sub s' (S i)
       end.

(** [s.find(sub, start)]; [None] is Python's [-1]. *)
Definition py_find (s sub : str) (start : nat) : option nat :=
  if start <=? length s then find_in sub (skipn start s) start else None.

(** ** Outcomes of Python code *)

Inductive pyexn : Type :=
  IndexError | KeyError | TypeError | ValueError | OverflowError.

Inductive outcome (A : Type) : Type :=
| Ok (a : A)
| Raise (e : pyexn)
| OutOfFuel.

Arguments Ok {A} a.
Arguments Raise {A} e.
Arguments OutOfFuel {A}.

Definition bind {A B : Type} (c : outcome A) (k : A -> outcome B) : outcome B :=
  match c with
  | Ok a => k a
  | Raise e => Raise e
  | OutOfFuel => OutOfFuel
  end.

Notation "x <- c ;; k" := (bind c (fun x => k))
  (at level 61, c at next level, right associativity).

(** [l[i]] for [0 <= i]. *)
Definition py_getitem {A : Type} (l : list A) (i : nat) : outcome A :=
  match nth_error l i with
  | Some a => Ok a
  | None => Raise IndexError
  end.

(** [l[-1]] *)
Definition py_getitem_last {A : Type} (l : list A) : outcome A :=
  match l with
  | [] => Raise IndexError
  | a :: l' => Ok (last l' a)
  end.

(** ** Dictionaries *)

Definition dict (V : Type) := list (str * V).

Fixpoint dict_get {V : Type} (d : dict V) (k : str) : option V :=
  match d with
  | [] => None
  | (k', v) :: d' => if str_eqb k' k then Some v else dict_get d' k
  end.

(** [d[k]] *)
Definition dict_getitem {V : Type} (d : dict V) (k : str) : outcome V :=
  match dict_get d k with
  | Some v => Ok v
  | None => Raise KeyError
  end.

(** [d[k] = v] *)
Fixpoint dict_setitem {V : Type} (d : dict V) (k : str) (v : V) : dict V :=
  match d with
  | [] => [(k, v)]
  | (k', v') :: d' =>
      if str_eqb k' k then (k', v) :: d' else (k', v') :: dict_setitem d' k v
  end.

Definition dict_keys {V : Type} (d : dict V) : list str := map fst d.

(** ** Identifier normalizer: [strip_brackets_and_quotes] *)

Definition strip_brackets_and_quotes (name : str) : outcome str :=
  if negb (nonempty name) then Ok []
  else
    let s := py_strip name in
    s <- (if py_contains "." s
          then (p <- py_getitem_last (py_split_on "." s) ;; Ok (py_strip p))
          else Ok s) ;;
    let s :=
      if py_startswith s (lit "[") && py_endswith s (lit "]")
      then slice_1_m1 s
      else
        let s := if py_startswith s (lit "[") then slice_from1 s else s in
        if py_endswith s (lit "]") then slice_to_m1 s else s in
    let s :=
      if (py_startswith s [dquote] && py_endswith s [dquote])
         || (py_startswith s (lit "'") && py_endswith s (lit "'"))
      then slice_1_m1 s
      else
        let s := if py_startswith s [dquote] || py_startswith s (lit "'")
                 then slice_from1 s else s in
        if py_endswith s [dquote] || py_endswith s (lit "'")
        then slice_to_m1 s else s in
    Ok (py_strip s).

(** ** The regular expressions of the extractor

    Each pattern is embedded as the matcher it denotes.  In all three the
    classes that follow one another are disjoint (whitespace, then a name
    class or a literal), so a greedy repetition never has to give characters
    back: where the longest run does not lead to a match, no shorter one
    does, and the matcher takes the longest run. *)

(** A lower-case ASCII literal matched under [re.I]: the rest of [s] after
    the literal. *)
Fixpoint match_lit_ci (p s : str) : option str :=
  match p, s with
  | [], _ => Some s
  | _ :: _, [] => None
  | a :: p', b :: s' =>
      if Ascii.eqb a (lower_char b) then match_lit_ci p' s' else None
  end.

(** The class of the table group: [A-Za-z0-9_], dot, both brackets and the
    double quote. *)
Definition is_table_char (c : ascii) : bool :=
  is_word_char c || Ascii.eqb c "." || Ascii.eqb c "[" || Ascii.eqb c "]"
  || Ascii.eqb c dquote.

(** [create\s+table\s+(<table class>+)\s*$] anchored at the start of [s]:
    group 1. *)
Definition re_table_at (s : str) : option str :=
  match match_lit_ci (lit "create") s with
  | None => None
  | Some r1 =>
      if negb (nonempty (take_while py_isspace r1)) then None
      else
        match match_lit_ci (lit "table") (drop_while py_isspace r1) with
        | None => None
        | Some r2 =>
            if negb (nonempty (take_while py_isspace r2)) then None
            else
              let r3 := drop_while py_isspace r2 in
              let g := take_while is_table_char r3 in
              if negb (nonempty g) then None
              else if nonempty (drop_while py_isspace (drop_while is_table_char r3))
                   then None
                   else Some g
        end
  end.

(** [re.search] of that pattern with [flags=re.I]: the leftmost start. *)
Fixpoint re_table_search (s : str) : option str :=
  match re_table_at s with
  | Some g => Some g
  | None =>
      match s with
      | [] => None
      | _ :: s' => re_table_search s'
      end
  end.

(** One keyword, and two keywords separated by [\s+], at the start of [s]. *)
Definition starts_ci (p s : str) : bool :=
  match match_lit_ci p s with Some _ => true | None => false end.

Definition starts_ci2 (p q s : str) : bool :=
  match match_lit_ci p s with
  | Some r => nonempty (take_while py_isspace r)
              && starts_ci q (drop_while py_isspace r)
  | None => false
  end.

(** [re.match] of
    [^(constraint|primary\s+key|unique|foreign\s+key|check|index|alter|constraint)]
    with [flags=re.I]. *)
Definition re_table_constraint (s : str) : bool :=
  starts_ci (lit "constraint") s
  || starts_ci2 (lit "primary") (lit "key") s
  || starts_ci (lit "unique") s
  || starts_ci2 (lit "foreign") (lit "key") s
  || starts_ci (lit "check") s
  || starts_ci (lit "index") s
  || starts_ci (lit "alter") s
  || starts_ci (lit "constraint") s.

(** After an opening delimiter: one or more characters other than [close],
    then [close]; the group. *)
Definition re_delimited (close : ascii) (r : str) : option str :=
  let other := fun c => negb (Ascii.eqb c close) in
  if nonempty (take_while other r) && py_startswith (drop_while other r) [close]
  then Some (take_while other r) else None.

Definition re_opened (open close : ascii) (r : str) : option str :=
  match r with
  | c :: r' => if Ascii.eqb c open then re_delimited close r' else None
  | [] => None
  end.

(** [re.match] of the column-name pattern, and the name
    [m.group('b') or m.group('q') or m.group('bt') or m.group('id')]: every
    group that took part in the match is non-empty. *)
Definition re_column_name (s : str) : option str :=
  let r := drop_while py_isspace s in
  match re_opened "[" "]" r with
  | Some b => Some b
  | None =>
      match re_opened dquote dquote r with
      | Some q => Some q
      | None =>
          match re_opened "`" "`" r with
          | Some bt => Some bt
          | None =>
              if nonempty (take_while is_word_char r)
              then Some (take_while is_word_char r) else None
          end
      end
  end.

(** ** DDL block scanner: [find_create_table_blocks] *)

(** The inner [while i < L] loop: [Some end_pos] on [break], [None] when the
    text ends first. *)
Fixpoint scan_close (fuel : nat) (sql_text : str) (L i : nat) (depth : Z)
  : outcome (option nat) :=
  match fuel with
  | 0 => OutOfFuel
  | S fuel' =>
      if i <? L then
        ch <- py_getitem sql_text i ;;
        if Ascii.eqb ch "(" then scan_close fuel' sql_text L (S i) (depth + 1)%Z
        else if Ascii.eqb ch ")" then
          let depth := (depth - 1)%Z in
          if (depth =? 0)%Z then Ok (Some i)
          else scan_close fuel' sql_text L (S i) depth
        else scan_close fuel' sql_text L (S i) depth
      else Ok None
  end.

Definition sentinel : str := lit "unknown_table".

(** The raw table identifier of an occurrence, from
    [pre = sql_text[pos:open_paren_pos]]. *)
Definition raw_table_of (pre : str) : outcome str :=
  match re_table_search pre with
  | None =>
      token <- (if nonempty (py_split (py_strip pre))
                then (t <- py_getitem_last (py_split (py_strip pre)) ;; Ok (Some t))
                else Ok None) ;;
      Ok (match token with
          | Some t => if nonempty t then t else sentinel
          | None => sentinel
          end)
  | Some g => Ok g
  end.

Definition mk_block (raw_table cols_block : str) : dict str :=
  [(lit "table_raw", raw_table); (lit "cols_block", cols_block)].

Definition keyword : str := lit "create table".

(** The outer [while True] loop. *)
Fixpoint blocks_loop (fuel : nat) (sql_text lower : str) (idx : nat)
  (blocks : list (dict str)) : outcome (list (dict str)) :=
  match fuel with
  | 0 => OutOfFuel
  | S fuel' =>
      match py_find lower keyword idx with
      | None => Ok blocks
      | Some pos =>
          match py_find sql_text (lit "(") pos with
          | None => blocks_loop fuel' sql_text lower (pos + 12) blocks
          | Some open_paren_pos =>
              let pre := slice sql_text pos open_paren_pos in
              raw_table <- raw_table_of pre ;;
              let L := length sql_text in
              end_pos <- scan_close (S L) sql_text L open_paren_pos 0%Z ;;
              match end_pos with
              | None => blocks_loop fuel' sql_text lower (pos + 12) blocks
              | Some end_pos =>
                  let cols_block := slice sql_text (open_paren_pos + 1) end_pos in
                  blocks_loop fuel' sql_text lower (end_pos + 1)
                    (blocks ++ [mk_block raw_table cols_block])
              end
          end
      end
  end.

Definition find_create_table_blocks (sql_text : str) : outcome (list (dict str)) :=
  blocks_loop (S (length sql_text)) sql_text (py_lower sql_text) 0 [].

(** ** Top-level splitter: [split_top_level_commas] *)

Record split_state : Type := mk_split_state {
  parts : list str;
  cur : str;
  depth : Z;
  in_sq : bool;
  in_dq : bool;
  in_br : bool
}.

Definition split_init : split_state := mk_split_state [] [] 0%Z false false false.

(** The body of the loop for the character [ch]. *)
Definition split_step (st : split_state) (ch : ascii) : split_state :=
  let (parts, cur, depth, in_sq, in_dq, in_br) := st in
  if Ascii.eqb ch "'" && negb in_dq && negb in_br then
    mk_split_state parts (cur ++ [ch]) depth (negb in_sq) in_dq in_br
  else if Ascii.eqb ch dquote && negb in_sq && negb in_br then
    mk_split_state parts (cur ++ [ch]) depth in_sq (negb in_dq) in_br
  else if Ascii.eqb ch "[" && negb in_sq && negb in_dq then
    mk_split_state parts (cur ++ [ch]) depth in_sq in_dq true
  else if Ascii.eqb ch "]" && in_br then
    mk_split_state parts (cur ++ [ch]) depth in_sq in_dq false
  else if in_sq || in_dq || in_br then
    mk_split_state parts (cur ++ [ch]) depth in_sq in_dq in_br
  else if Ascii.eqb ch "(" then
    mk_split_state parts (cur ++ [ch]) (depth + 1)%Z in_sq in_dq in_br
  else if Ascii.eqb ch ")" then
    mk_split_state parts (cur ++ [ch])
      (if (depth >? 0)%Z then (depth - 1)%Z else depth) in_sq in_dq in_br
  else if Ascii.eqb ch "," && (depth =? 0)%Z then
    let part := py_strip cur in
    mk_split_state (if nonempty part then parts ++ [part] else parts) []
      depth in_sq in_dq in_br
  else
    mk_split_state parts (cur ++ [ch]) depth in_sq in_dq in_br.

(** The [while i < len(s)] loop. *)
Fixpoint split_loop (fuel : nat) (s : str) (i : nat) (st : split_state)
  : outcome split_state :=
  match fuel with
  | 0 => OutOfFuel
  | S fuel' =>
      if i <? length s then
        ch <- py_getitem s i ;;
        split_loop fuel' s (S i) (split_step st ch)
      else Ok st
  end.

Definition split_top_level_commas (s : str) : outcome (list str) :=
  st <- split_loop (S (length s)) s 0 split_init ;;
  let last := py_strip (cur st) in
  Ok (if nonempty last then parts st ++ [last] else parts st).

(** ** Column definition parser: [parse_column_name_from_def] *)

Definition parse_column_name_from_def (col_def : str) : outcome str :=
  let s := py_strip col_def in
  if re_table_constraint s then Ok []
  else
    let s := if py_endswith s (lit ",") then py_strip (slice_to_m1 s) else s in
    match re_column_name s with
    | None =>
        let toks := py_split s in
        if nonempty toks
        then (t <- py_getitem toks 0 ;; strip_brackets_and_quotes t)
        else Ok []
    | Some name => strip_brackets_and_quotes name
    end.

(** ** Schema extractor: [ddl_to_schema] *)

(** [x in l] *)
Definition py_in (x : str) (l : list str) : bool := existsb (str_eqb x) l.

(** The [for p in parts] loop. *)
Fixpoint collect_columns (ps : list str) (cols : list str) : outcome (list str) :=
  match ps with
  | [] => Ok cols
  | p :: ps' =>
      colname <- parse_column_name_from_def p ;;
      collect_columns ps'
        (if nonempty colname
         then (if negb (py_in colname cols) then cols ++ [colname] else cols)
         else cols)
  end.

(** The body of the [for blk in blocks] loop. *)
Definition process_block (tables : dict (list str)) (blk : dict str)
  : outcome (dict (list str)) :=
  raw_table <- dict_getitem blk (lit "table_raw") ;;
  table <- strip_brackets_and_quotes raw_table ;;
  cols_block <- dict_getitem blk (lit "cols_block") ;;
  parts <- split_top_level_commas cols_block ;;
  cols <- collect_columns parts [] ;;
  Ok (if nonempty cols then dict_setitem tables table cols else tables).

Fixpoint for_blocks (blocks : list (dict str)) (tables : dict (list str))
  : outcome (dict (list str)) :=
  match blocks with
  | [] => Ok tables
  | blk :: blocks' =>
      tables' <- process_block tables blk ;;
      for_blocks blocks' tables'
  end.

Definition ddl_to_schema (sql_text : str) : outcome (dict (list str)) :=
  blocks <- find_create_table_blocks sql_text ;;
  for_blocks blocks [].

(** ** Registry builder and reader

    [build_registry] of [utils/build_registry.py] and
    [TableRegistry._load_registry] of [utils/table_selector.py].  The file
    [registry.ndjson] is its text; the SQLite store is its two tables, rows
    in insertion order. *)

(** The JSON values the registry documents are made of. *)
#[warnings="-register-all"]
Inductive json : Type :=
| JStr (s : str)
| JList (l : list json)
| JObj (fields : list (str * json)).

Record registry_db : Type := mk_db {
  alias_index : list (str * str);
  column_index : list (str * str * str)
}.

(** [re.sub(r'[^0-9a-z]', '_', s.lower())] *)
Definition normalize (s : str) : str :=
  map (fun c => if in_range 48 57 c || in_range 97 122 c then c else "_"%char)
      (py_lower s).

(** [sub in s] *)
Definition py_substr (sub s : str) : bool :=
  match py_find s sub 0 with Some _ => true | None => false end.

(** The sort key of [pick_top_columns]: a tuple of four booleans. *)
Definition priority (c : str) : list bool :=
  [ py_endswith c (lit "_id") || py_endswith c (lit "id");
    py_substr (lit "date") c;
    py_substr (lit "name") c;
    py_substr (lit "status") c ].

(** Tuple order, [False < True], first difference decides. *)
Fixpoint key_lt (a b : list bool) : bool :=
  match a, b with
  | x :: a', y :: b' =>
      if Bool.eqb x y then key_lt a' b' else negb x && y
  | [], _ :: _ => true
  | _, [] => false
  end.

(** [sorted(l, key=key, reverse=True)]: descending and stable, so an element
    goes in front of the later ones whose key is not greater. *)
Fixpoint insert_desc (key : str -> list bool) (x : str) (l : list str) : list str :=
  match l with
  | [] => [x]
  | y :: l' =>
      if key_lt (key x) (key y) then y :: insert_desc key x l'
      else x :: y :: l'
  end.

Definition py_sorted_desc (key : str -> list bool) (l : list str) : list str :=
  fold_right (insert_desc key) [] l.

Definition pick_top_columns (cols : list str) (n : nat) : list str :=
  let cols_sorted := py_sorted_desc priority cols in
  firstn n cols_sorted.

(** [sep.join(l)] *)
Fixpoint py_join (sep : str) (l : list str) : str :=
  match l with
  | [] => []
  | [a] => a
  | a :: l' => a ++ sep ++ py_join sep l'
  end.

(** [re.split(r'[_\s]+', s)]: the pieces between the maximal runs of
    separators, the empty ones at both ends included; [in_run] says that the
    previous character was a separator. *)
Fixpoint re_split_runs (sep : ascii -> bool) (in_run : bool) (cur : str)
  (s : str) : list str :=
  match s with
  | [] => [cur]
  | c :: s' =>
      if sep c
      then (if in_run then re_split_runs sep true [] s'
            else cur :: re_split_runs sep true [] s')
      else re_split_runs sep false (cur ++ [c]) s'
  end.

Definition re_split_tokens (s : str) : list str :=
  re_split_runs (fun c => Ascii.eqb c "_" || py_isspace c) false [] s.

(** Text-mode reading with universal newlines: CR LF and a lone CR become
    LF. *)
Fixpoint universal_newlines (s : str) : str :=
  match s with
  | [] => []
  | c :: s' =>
      if Ascii.eqb c "013"
      then "010"%char
           :: universal_newlines
                (match s' with
                 | d :: s'' => if Ascii.eqb d "010" then s'' else s'
                 | [] => s'
                 end)
      else c :: universal_newlines s'
  end.

Definition LF : ascii := "010"%char.

(** [for line in f]: the lines of a text, each with its line feed; [cur] is
    the line under construction. *)
Fixpoint file_lines_from (cur : str) (s : str) : list str :=
  match s with
  | [] => if nonempty cur then [cur] else []
  | c :: s' =>
      if Ascii.eqb c LF then (cur ++ [c]) :: file_lines_from [] s'
      else file_lines_from (cur ++ [c]) s'
  end.

Definition file_lines (content : str) : list str :=
  file_lines_from [] (universal_newlines content).

(** [doc[k]] on a decoded JSON value. *)
Definition json_getitem (doc : json) (k : str) : outcome json :=
  match doc with
  | JObj fields => dict_getitem fields k
  | _ => Raise TypeError
  end.

Section Registry.

(** The library functions the two modules call:
    [hashlib.sha1(b).hexdigest()], the iteration order of a [set] built
    from the given elements (unspecified by the language),
    [json.dumps(doc, ensure_ascii=False)] and [json.loads(line)]. *)
Variable sha1_hexdigest : str -> str.
Variable set_iter : list str -> list str.
Variable json_dumps : json -> str.
Variable json_loads : str -> outcome json.

Definition signature (table : str) (cols : list str) : str :=
  let base := table ++ lit "|" ++ py_join (lit ",") cols in
  firstn 8 (sha1_hexdigest base).

Definition insert_alias (db : registry_db) (token table : str) : registry_db :=
  mk_db (alias_index db ++ [(token, table)]) (column_index db).

Definition insert_column (db : registry_db) (token table column : str)
  : registry_db :=
  mk_db (alias_index db) (column_index db ++ [(token, table, column)]).

(** The aliases of a table, in the order the set yields them. *)
Definition table_aliases (table : str) : list str :=
  set_iter (normalize table :: map normalize (py_split_on "_" table)).

Definition registry_doc (table : str) (top aliases : list str) : json :=
  JObj [ (lit "table", JStr table);
         (lit "sig", JStr (lit "tbl:" ++ table ++ lit "|h:" ++ signature table top));
         (lit "top_columns", JList (map JStr top));
         (lit "aliases", JList (map JStr aliases));
         (lit "sample_queries", JList []);
         (lit "neighbors", JList []);
         (lit "sensitivity", JStr (lit "low")) ].

(** The body of [for table, cols in schema_dict.items()], on the text
    written so far and the store. *)
Definition registry_step (st : str * registry_db) (item : str * list str)
  : str * registry_db :=
  let '(f, db) := st in
  let '(table, cols) := item in
  let top := pick_top_columns cols 4 in
  let aliases := table_aliases table in
  let doc := registry_doc table top aliases in
  let f := f ++ json_dumps doc ++ [LF] in
  let db := fold_left (fun db a => insert_alias db a table) aliases db in
  let db :=
    fold_left
      (fun db c =>
         fold_left (fun db t => insert_column db t table c)
                   (set_iter (re_split_tokens (normalize c))) db)
      cols db in
  (f, db).

(** [build_registry]: the text of [out_file], opened for writing, and the
    store after the run. *)
Definition build_registry (schema_dict : dict (list str)) (db : registry_db)
  : str * registry_db :=
  fold_left registry_step schema_dict ([], db).

(** The [for line in f] loop of [_load_registry]. *)
Fixpoint load_lines (lines : list str) (tables : dict json)
  : outcome (dict json) :=
  match lines with
  | [] => Ok tables
  | line :: rest =>
      doc <- json_loads line ;;
      key <- json_getitem doc (lit "table") ;;
      match key with
      | JStr k => load_lines rest (dict_setitem tables k doc)
      | _ => Raise TypeError
      end
  end.

Definition _load_registry (content : str) : outcome (dict json) :=
  load_lines (file_lines content) [].

(** The document written for one item of the schema, and the line it
    becomes. *)
Definition item_doc (item : str * list str) : json :=
  registry_doc (fst item) (pick_top_columns (snd item) 4)
    (table_aliases (fst item)).

Definition item_line (item : str * list str) : str :=
  json_dumps (item_doc item) ++ [LF].

(** What the round trip needs of the JSON library on a document: the line
    written for it holds no line break of its own and decodes to it. *)
Definition codec_round_trips (doc : json) : Prop :=
  json_loads (json_dumps doc ++ [LF]) = Ok doc
  /\ forallb (fun c => negb (Ascii.eqb c LF || Ascii.eqb c "013"))
       (json_dumps doc) = true.

End Registry.

(** A writer and a reader of JSON text, in the format of [json.dumps] with
    its default separators and [ensure_ascii=False]: enough of the library
    to run the round trip on concrete schemas. *)
Module JsonText.

Definition hex_digit (n : nat) : ascii :=
  if n <? 10 then ascii_of_nat (48 + n) else ascii_of_nat (87 + n).

Definition escape_char (c : ascii) : str :=
  if Ascii.eqb c dquote then ["\"%char; dquote]
  else if Ascii.eqb c "\" then lit "\\"
  else if Ascii.eqb c "010" then lit "\n"
  else if Ascii.eqb c "013" then lit "\r"
  else if Ascii.eqb c "009" then lit "\t"
  else if Ascii.eqb c "008" then lit "\b"
  else if Ascii.eqb c "012" then lit "\f"
  else if code c <? 32
       then lit "\u00" ++ [hex_digit (code c / 16); hex_digit (code c mod 16)]
       else [c].

Definition dump_string (s : str) : str :=
  [dquote] ++ flat_map escape_char s ++ [dquote].

Fixpoint dumps (v : json) : str :=
  match v with
  | JStr s => dump_string s
  | JList l => lit "[" ++ py_join (lit ", ") (map dumps l) ++ lit "]"
  | JObj fields =>
      lit "{"
      ++ py_join (lit ", ")
           (map (fun kv => dump_string (fst kv) ++ lit ": " ++ dumps (snd kv))
                fields)
      ++ lit "}"
  end.

Definition hex_value (c : ascii) : option nat :=
  if in_range 48 57 c then Some (code c - 48)
  else if in_range 97 102 c then Some (code c - 87)
  else if in_range 65 70 c then Some (code c - 55)
  else None.

(** The text of a string after its opening quote: the string and what
    follows the closing quote. *)
Fixpoint load_string (s : str) (acc : str) : option (str * str) :=
  match s with
  | [] => None
  | c :: s' =>
      if Ascii.eqb c dquote then Some (acc, s')
      else if Ascii.eqb c "\" then
        match s' with
        | e :: s'' =>
            if Ascii.eqb e "u" then
              match s'' with
              | h1 :: h2 :: h3 :: h4 :: s3 =>
                  match hex_value h1, hex_value h2, hex_value h3, hex_value h4 with
                  | Some 0, Some 0, Some a, Some b =>
                      load_string s3 (acc ++ [ascii_of_nat (16 * a + b)])
                  | _, _, _, _ => None
                  end
              | _ => None
              end
            else if Ascii.eqb e "n" then load_string s'' (acc ++ ["010"%char])
            else if Ascii.eqb e "r" then load_string s'' (acc ++ ["013"%char])
            else if Ascii.eqb e "t" then load_string s'' (acc ++ ["009"%char])
            else if Ascii.eqb e "b" then load_string s'' (acc ++ ["008"%char])
            else if Ascii.eqb e "f" then load_string s'' (acc ++ ["012"%char])
            else if Ascii.eqb e dquote || Ascii.eqb e "\" || Ascii.eqb e "/"
                 then load_string s'' (acc ++ [e])
                 else None
        | [] => None
        end
      else if code c <? 32 then None
      else load_string s' (acc ++ [c])
  end.

Definition json_space (c : ascii) : bool :=
  Ascii.eqb c " " || Ascii.eqb c "009" || Ascii.eqb c "010" || Ascii.eqb c "013".

(** A value, the elements of an array after its bracket and the members of
    an object after its brace; [first] says that no element was read yet.
    A key that comes again overwrites the value read for it before. *)
Fixpoint load_value (fuel : nat) (s : str) : option (json * str) :=
  match fuel with
  | 0 => None
  | S fuel' =>
      match drop_while json_space s with
      | c :: r =>
          if Ascii.eqb c dquote then
            match load_string r [] with
            | Some (x, r') => Some (JStr x, r')
            | None => None
            end
          else if Ascii.eqb c "[" then
            match load_elements fuel' true r [] with
            | Some (l, r') => Some (JList l, r')
            | None => None
            end
          else if Ascii.eqb c "{" then
            match load_members fuel' true r [] with
            | Some (m, r') => Some (JObj m, r')
            | None => None
            end
          else None
      | [] => None
      end
  end
with load_elements (fuel : nat) (first : bool) (s : str) (acc : list json)
  : option (list json * str) :=
  match fuel with
  | 0 => None
  | S fuel' =>
      match drop_while json_space s with
      | c :: r =>
          if Ascii.eqb c "]" then Some (acc, r)
          else
            match (if first then Some (c :: r)
                   else if Ascii.eqb c "," then Some r else None) with
            | Some r1 =>
                match load_value fuel' r1 with
                | Some (v, r2) => load_elements fuel' false r2 (acc ++ [v])
                | None => None
                end
            | None => None
            end
      | [] => None
      end
  end
with load_members (fuel : nat) (first : bool) (s : str)
  (acc : list (str * json)) : option (list (str * json) * str) :=
  match fuel with
  | 0 => None
  | S fuel' =>
      match drop_while json_space s with
      | c :: r =>
          if Ascii.eqb c "}" then Some (acc, r)
          else
            match (if first then Some (c :: r)
                   else if Ascii.eqb c "," then Some r else None) with
            | Some r1 =>
                match drop_while json_space r1 with
                | q :: r2 =>
                    if Ascii.eqb q dquote then
                      match load_string r2 [] with
                      | Some (k, r3) =>
                          match drop_while json_space r3 with
                          | colon :: r4 =>
                              if Ascii.eqb colon ":" then
                                match load_value fuel' r4 with
                                | Some (v, r5) =>
                                    load_members fuel' false r5 (dict_setitem acc k v)
                                | None => None
                                end
                              else None
                          | [] => None
                          end
                      | None => None
                      end
                    else None
                | [] => None
                end
            | None => None
            end
      | [] => None
      end
  end.

(** [json.loads]: one value and nothing but whitespace after it. *)
Definition loads (s : str) : outcome json :=
  match load_value (S (length s)) s with
  | Some (v, r) => if nonempty (drop_while json_space r) then Raise ValueError
                   else Ok v
  | None => Raise ValueError
  end.

End JsonText.

(** ** Specification-level views of the loops

    The index loops of the source, read as recursions over the text that is
    still to be visited. *)

(** [scan_close] over the suffix that starts at index [i]. *)
Fixpoint scan_close_list (s : str) (i : nat) (depth : Z) : option nat :=
  match s with
  | [] => None
  | ch :: s' =>
      if Ascii.eqb ch "(" then scan_close_list s' (S i) (depth + 1)%Z
      else if Ascii.eqb ch ")" then
        if (depth - 1 =? 0)%Z then Some i
        else scan_close_list s' (S i) (depth - 1)%Z
      else scan_close_list s' (S i) depth
  end.

(** What [split_top_level_commas] returns from the final loop state. *)
Definition split_finish (st : split_state) : list str :=
  if nonempty (py_strip (cur st)) then parts st ++ [py_strip (cur st)]
  else parts st.

(** The value of an outcome, [d] when there is none. *)
Definition value_or {A : Type} (d : A) (c : outcome A) : A :=
  match c with Ok a => a | _ => d end.

(** What one visit of the outer loop of [find_create_table_blocks] does
    with the occurrence it finds from [idx] on. *)
Inductive visit : Type :=
| Finished
| Skipped (next : nat)
| Emitted (blk : dict str) (next : nat).

Definition visit_at (sql_text : str) (idx : nat) : visit :=
  match py_find (py_lower sql_text) keyword idx with
  | None => Finished
  | Some pos =>
      match py_find sql_text (lit "(") pos with
      | None => Skipped (pos + 12)
      | Some open_paren_pos =>
          match scan_close_list (skipn open_paren_pos sql_text) open_paren_pos 0%Z with
          | None => Skipped (pos + 12)
          | Some end_pos =>
              Emitted
                (mk_block
                   (value_or [] (raw_table_of (slice sql_text pos open_paren_pos)))
                   (slice sql_text (open_paren_pos + 1) end_pos))
                (end_pos + 1)
          end
      end
  end.

(** The blocks emitted from [idx] on, by iterating [visit_at]. *)
Fixpoint blocks_from (fuel : nat) (sql_text : str) (idx : nat) : list (dict str) :=
  match fuel with
  | 0 => []
  | S fuel' =>
      match visit_at sql_text idx with
      | Finished => []
      | Skipped next => blocks_from fuel' sql_text next
      | Emitted blk next => blk :: blocks_from fuel' sql_text next
      end
  end.

(** The table name and the column list the extractor derives from a
    block, and the assignment it makes for it. *)
Definition block_table (blk : dict str) : str :=
  value_or []
    (raw_table <- dict_getitem blk (lit "table_raw") ;;
     strip_brackets_and_quotes raw_table).

Definition block_columns (blk : dict str) : list str :=
  value_or []
    (cols_block <- dict_getitem blk (lit "cols_block") ;;
     parts <- split_top_level_commas cols_block ;;
     collect_columns parts []).

Definition store_block (tables : dict (list str)) (blk : dict str)
  : dict (list str) :=
  if nonempty (block_columns blk)
  then dict_setitem tables (block_table blk) (block_columns blk)
  else tables.

(** The blocks of the whole text. *)
Definition blocks_of (sql_text : str) : list (dict str) :=
  blocks_from (S (length sql_text)) sql_text 0.

Definition is_block (blk : dict str) : Prop :=
  exists raw_table cols_block, blk = mk_block raw_table cols_block.

(** An occurrence of the keyword at [pos] that the scanner skips: no
    opening parenthesis from [pos] on, or one whose scan reaches the end of
    the text before the depth is back at zero. *)
Definition ill_formed (sql_text : str) (pos : nat) : Prop :=
  py_find sql_text (lit "(") pos = None
  \/ exists open_paren_pos,
       py_find sql_text (lit "(") pos = Some open_paren_pos
       /\ scan_close (S (length sql_text)) sql_text (length sql_text)
            open_paren_pos 0%Z = Ok None.

Definition shift_visit (d : nat) (v : visit) : visit :=
  match v with
  | Finished => Finished
  | Skipped next => Skipped (d + next)
  | Emitted blk next => Emitted blk (d + next)
  end.

(** The value the blocks [bs], taken in order, leave under the key [k]
    when [init] was there before: the columns of the last block that names
    [k] and has columns. *)
Definition last_write (k : str) (bs : list (dict str)) (init : option (list str))
  : option (list str) :=
  fold_left
    (fun acc blk =>
       if nonempty (block_columns blk) && str_eqb (block_table blk) k
       then Some (block_columns blk) else acc)
    bs init.

(** A segment that the column parser takes for a table-level constraint. *)
Definition constraint_segment (p : str) : Prop :=
  re_table_constraint (py_strip p) = true.

(** The reading of last-write-wins without a proviso: whenever a block is
    the last one of its table name in the text, the mapping holds that
    block's column list under the name. *)
Definition last_occurrence_wins (sql_text : str) : Prop :=
  forall tables bs1 blk bs2,
    ddl_to_schema sql_text = Ok tables ->
    find_create_table_blocks sql_text = Ok (bs1 ++ blk :: bs2) ->
    (forall blk', In blk' bs2 -> block_table blk' <> block_table blk) ->
    dict_get tables (block_table blk) = Some (block_columns blk).

(** A block all of whose segments are table-level constraints. *)
Definition constraint_only (blk : dict str) : Prop :=
  exists segs,
    (cols_block <- dict_getitem blk (lit "cols_block") ;;
     split_top_level_commas cols_block) = Ok segs
    /\ Forall constraint_segment segs.

(** What a character adds to the nesting depth, and the balance of a
    text: opening minus closing parentheses, every character counted
    whatever quotes surround it. *)
Definition paren_value (c : ascii) : Z :=
  if Ascii.eqb c "(" then 1%Z else if Ascii.eqb c ")" then (-1)%Z else 0%Z.


(** Erasing the quotes of a text. *)
Definition unquote_char (c : ascii) : ascii :=
  if Ascii.eqb c "'" || Ascii.eqb c dquote then " "%char else c.


(** The state [st] after more literal content [w]. *)
Definition with_content (st : split_state) (w : str) : split_state :=
  mk_split_state (parts st) (cur st ++ w) (depth st)
    (in_sq st) (in_dq st) (in_br st).

(** Characters without structural effect inside parentheses: no quote, no
    bracket, no parenthesis.  The comma is one of them. *)
Definition plain_char (c : ascii) : bool :=
  negb (Ascii.eqb c "'" || Ascii.eqb c dquote || Ascii.eqb c "["
        || Ascii.eqb c "]" || Ascii.eqb c "(" || Ascii.eqb c ")").

(** A word: a non-empty run of characters of [[A-Za-z0-9_]]. *)
Definition is_word (w : str) : bool := nonempty w && forallb is_word_char w.

(** Characters the normalizer removes at the front and at the back of a
    name. *)
Definition strippable_front (c : ascii) : bool :=
  py_isspace c || Ascii.eqb c "[" || Ascii.eqb c dquote || Ascii.eqb c "'".

Definition strippable_back (c : ascii) : bool :=
  py_isspace c || Ascii.eqb c "]" || Ascii.eqb c dquote || Ascii.eqb c "'".

(** A bare name: no dot, nothing to strip at either end. *)
Definition is_bare (s : str) : bool :=
  negb (py_contains "." s)
  && match s with [] => true | a :: _ => negb (strippable_front a) end
  && match rev s with [] => true | b :: _ => negb (strippable_back b) end.

(** Idempotence of the normalizer on all of its outputs. *)
Definition normalizer_idempotent : Prop :=
  forall name r,
    strip_brackets_and_quotes name = Ok r -> strip_brackets_and_quotes r = Ok r.

(** The text after a table-constraint keyword at the start of [s], the
    alternatives in the order of the pattern. *)
Definition match_lit_ci2 (p q s : str) : option str :=
  match match_lit_ci p s with
  | Some r => if nonempty (take_while py_isspace r)
              then match_lit_ci q (drop_while py_isspace r) else None
  | None => None
  end.

Definition first_some {A : Type} (a b : option A) : option A :=
  match a with Some _ => a | None => b end.

Definition after_keyword (s : str) : option str :=
  first_some (match_lit_ci (lit "constraint") s)
  (first_some (match_lit_ci2 (lit "primary") (lit "key") s)
  (first_some (match_lit_ci (lit "unique") s)
  (first_some (match_lit_ci2 (lit "foreign") (lit "key") s)
  (first_some (match_lit_ci (lit "check") s)
  (first_some (match_lit_ci (lit "index") s)
              (match_lit_ci (lit "alter") s)))))).

(** The leading token of [s] is one of the keywords: a keyword stands at
    the start and no word character follows it. *)
Definition leading_keyword (s : str) : bool :=
  match after_keyword s with
  | Some [] => true
  | Some (c :: _) => negb (is_word_char c)
  | None => false
  end.





(** Stand-ins for the concrete runs of the round trip: a digest function
    (the round trip does not read the digest) and one iteration order of a
    set. *)
Definition constant_digest (_ : str) : str :=
  lit "da39a3ee5e6b4b0d3255bfef95601890afd80709".

Definition set_elements (l : list str) : list str :=
  nodup (list_eq_dec ascii_dec) l.

Definition sample_schema : dict (list str) :=
  [ (lit "pol_policies",
     [lit "pol_name"; lit "pol_policyid"; lit "start_date"; lit "x";
      lit "status"; lit "cust_id"]);
    (lit "Claims", [dquote :: lit "amount"; lit "claim id"]) ].

(** The statements of the shape [CREATE TABLE t (c1 TYPE, c2 TYPE, ...)]:
    a column is a name and a type, both words. *)
Definition column_def (col : str * str) : str :=
  fst col ++ lit " " ++ snd col.

Definition simple_statement (table : str) (cols : list (str * str)) : str :=
  lit "CREATE TABLE " ++ table ++ lit " ("
  ++ py_join (lit ", ") (map column_def cols) ++ lit ")".

(** A column the defect of the constraint pattern does not touch. *)
Definition simple_column (col : str * str) : Prop :=
  is_word (fst col) = true /\ is_word (snd col) = true
  /\ re_table_constraint (column_def col) = false.

(** A list without the later occurrences of its elements. *)
Fixpoint first_occurrences (l : list str) : list str :=
  match l with
  | [] => []
  | x :: l' => x :: filter (fun y => negb (str_eqb x y)) (first_occurrences l')
  end.

(** The characters of the body of a simple statement. *)
Definition body_char (c : ascii) : bool :=
  is_word_char c || Ascii.eqb c " " || Ascii.eqb c ",".

(** The [for p in parts] loop on names already extracted: a name goes to
    the end of [seen] unless it is there. *)
Definition add_new (seen : list str) (x : str) : list str :=
  if negb (py_in x seen) then seen ++ [x] else seen.

(** Case analysis on the 256 characters. *)
Ltac ascii_cases c :=
  let b0 := fresh in let b1 := fresh in let b2 := fresh in let b3 := fresh in
  let b4 := fresh in let b5 := fresh in let b6 := fresh in let b7 := fresh in
  destruct c as [b0 b1 b2 b3 b4 b5 b6 b7];
  destruct b0, b1, b2, b3, b4, b5, b6, b7.

(** ** Views of the registry builder *)

(** The class [[0-9a-z]] and the class [[0-9a-z_]] of the characters that
    [normalize] leaves in place. *)
Definition is_lower_alnum (c : ascii) : bool :=
  in_range 48 57 c || in_range 97 122 c.

Definition is_alias_char (c : ascii) : bool :=
  is_lower_alnum c || Ascii.eqb c "_".

(** Equality of two sort keys. *)
Definition key_eqb (a b : list bool) : bool :=
  if list_eq_dec bool_dec a b then true else false.

(** [a] does not sort after [b] under the key of [pick_top_columns] with
    [reverse=True]: the key of [a] is not the smaller one. *)
Definition ranks_before (a b : str) : Prop :=
  key_lt (priority a) (priority b) = false.

(** The separators of [re.split(r'[_\s]+', s)]. *)
Definition is_token_sep (c : ascii) : bool :=
  Ascii.eqb c "_" || py_isspace c.

(** The rows one item of the schema adds to the two indexes. *)
Definition alias_rows (set_iter : list str -> list str) (item : str * list str)
  : list (str * str) :=
  map (fun a => (a, fst item)) (table_aliases set_iter (fst item)).

Definition column_rows (set_iter : list str -> list str) (item : str * list str)
  : list (str * str * str) :=
  flat_map
    (fun c => map (fun t => (t, fst item, c))
                  (set_iter (re_split_tokens (normalize c))))
    (snd item).

(** The store with both indexes empty, as created by a first run. *)
Definition empty_db : registry_db := mk_db [] [].

(** ** Views of the extractor's results *)

(** [p] is a contiguous piece of [s]. *)
Definition piece_of (p s : str) : Prop := exists a b, s = a ++ p ++ b.

(** A text without whitespace at either end. *)
Definition trimmed (p : str) : Prop := py_strip p = p.

(** A name as the extractor stores it: non-empty and trimmed. *)
Definition stored_name (p : str) : Prop := p <> [] /\ trimmed p.

(** The segments collected so far are stored names and pieces of the text
    read so far, of which the segment under construction is the end. *)
Definition split_invariant (read : str) (st : split_state) : Prop :=
  Forall (fun p => stored_name p /\ piece_of p read) (parts st)
  /\ exists pre, read = pre ++ cur st.

(** ** Registry reader: the lookups and the tools of [utils/table_selector.py]

    The store is read as it was written, both tables present.  A query
    without [ORDER BY] leaves the order of its rows to the engine: the
    distinct values of the matching rows come in an order of the engine's
    choice, and [LIMIT] keeps the first of them.  The limit is a Python
    [int] bound to a parameter of the statement, which must fit the signed
    64-bit integers of the engine. *)

(** [s.replace(a, b)] for one-character [a] and [b]. *)
Definition py_replace_char (a b : ascii) (s : str) : str :=
  map (fun c => if Ascii.eqb c a then b else c) s.

(** The integers of SQLite: signed, 64 bits. *)
Definition int64_min : Z := (-9223372036854775808)%Z.
Definition int64_max : Z := 9223372036854775807%Z.

(** Binding a Python [int] to a parameter of a statement: [sqlite3] raises
    [OverflowError] for an [int] that is no SQLite integer. *)
Definition sqlite_int (n : Z) : outcome Z :=
  if ((int64_min <=? n) && (n <=? int64_max))%Z then Ok n
  else Raise OverflowError.

(** [LIMIT ?] with an integer of the engine: a negative limit is no
    limit. *)
Definition sql_limit {A : Type} (limit : Z) (rows : list A) : list A :=
  if (limit <? 0)%Z then rows else firstn (Z.to_nat limit) rows.

(** [if v:] on a decoded JSON value. *)
Definition json_truthy (v : json) : bool :=
  match v with
  | JStr s => nonempty s
  | JList l => nonempty l
  | JObj fields => nonempty fields
  end.

(** [doc.get(k, default)] on a JSON object. *)
Definition json_get (doc : json) (k : str) (default : json) : json :=
  match doc with
  | JObj fields =>
      match dict_get fields k with Some v => v | None => default end
  | _ => default
  end.

(** The rows of [alias_index] and of [column_index] with the given token,
    reduced to the selected columns. *)
Definition alias_matches (db : registry_db) (normalized : str) : list str :=
  map snd (filter (fun row => str_eqb (fst row) normalized) (alias_index db)).

Definition column_matches (db : registry_db) (normalized : str)
  : list (str * str) :=
  map (fun row => (snd (fst row), snd row))
      (filter (fun row => str_eqb (fst (fst row)) normalized) (column_index db)).

(** [for x in l: body], the body threading the list under construction. *)
Fixpoint py_for {A B : Type} (body : A -> B -> outcome B) (l : list A) (acc : B)
  : outcome B :=
  match l with
  | [] => Ok acc
  | x :: l' => acc' <- body x acc ;; py_for body l' acc'
  end.

(** The deduplication loop of both tools: [seen] is the set of the table
    names met, a table name that is not a string cannot enter it. *)
Definition dedup_step (r : json) (st : list str * list json)
  : outcome (list str * list json) :=
  let '(seen, unique_results) := st in
  name <- json_getitem r (lit "table") ;;
  match name with
  | JStr k =>
      Ok (if negb (py_in k seen) then (seen ++ [k], unique_results ++ [r])
          else (seen, unique_results))
  | _ => Raise TypeError
  end.

Section Selector.

(** The order in which the engine returns the distinct values of the
    matching rows, and [json.dumps(v, indent=2)]. *)
Variable distinct_tables : list str -> list str.
Variable distinct_columns : list (str * str) -> list (str * str).
Variable json_dumps_indent : json -> str.

Definition find_tables_by_token (db : registry_db) (tables : dict json)
  (token : str) (limit : Z) : outcome (list json) :=
  let normalized := py_replace_char " " "_" (py_lower token) in
  limit <- sqlite_int limit ;;
  let results := sql_limit limit (distinct_tables (alias_matches db normalized)) in
  let table_names := results in
  Ok (flat_map
        (fun t => match dict_get tables t with Some doc => [doc] | None => [] end)
        table_names).

Definition find_columns_by_token (db : registry_db) (token : str) (limit : Z)
  : outcome (list (str * str)) :=
  let normalized := py_replace_char " " "_" (py_lower token) in
  limit <- sqlite_int limit ;;
  Ok (sql_limit limit (distinct_columns (column_matches db normalized))).

(** [TableSelectorTool._run]: the entry appended for a document. *)
Definition selector_entry (table : json) (results : list json)
  : outcome (list json) :=
  if json_truthy table then
    name <- json_getitem table (lit "table") ;;
    Ok (results
        ++ [JObj [ (lit "table", name);
                   (lit "top_columns", json_get table (lit "top_columns") (JList []));
                   (lit "aliases", json_get table (lit "aliases") (JList [])) ]])
  else Ok results.

Definition selector_body (db : registry_db) (tables : dict json) (token : str)
  (results : list json) : outcome (list json) :=
  found <- find_tables_by_token db tables token 3 ;;
  columns <- find_columns_by_token db token 5 ;;
  py_for selector_entry found results.

Definition TableSelectorTool_run (db : registry_db) (tables : dict json)
  (query : str) : outcome str :=
  let tokens := py_split (py_lower query) in
  results <- py_for (selector_body db tables) tokens [] ;;
  st <- py_for dedup_step results ([], []) ;;
  Ok (json_dumps_indent (JList (firstn 5 (snd st)))).

(** [SchemaAwareTool._run]; [schema] is the object read from [schema.json],
    empty when no path was given. *)
Definition schema_entry (schema : dict json) (table_doc : json)
  (results : list json) : outcome (list json) :=
  if json_truthy table_doc then
    table_name <- json_getitem table_doc (lit "table") ;;
    match table_name with
    | JStr k =>
        let all_columns :=
          match dict_get schema k with Some v => v | None => JList [] end in
        Ok (results
            ++ [JObj [ (lit "table", table_name);
                       (lit "top_columns",
                        json_get table_doc (lit "top_columns") (JList []));
                       (lit "all_columns", all_columns);
                       (lit "sample_queries",
                        json_get table_doc (lit "sample_queries") (JList [])) ]])
    | _ => Raise TypeError
    end
  else Ok results.

Definition schema_body (db : registry_db) (tables schema : dict json)
  (token : str) (results : list json) : outcome (list json) :=
  found <- find_tables_by_token db tables token 3 ;;
  py_for (schema_entry schema) found results.

Definition SchemaAwareTool_run (db : registry_db) (tables schema : dict json)
  (query : str) : outcome str :=
  let tokens := py_split (py_lower query) in
  results <- py_for (schema_body db tables schema) tokens [] ;;
  st <- py_for dedup_step results ([], []) ;;
  Ok (json_dumps_indent (JList (firstn 3 (snd st)))).

End Selector.

(** A document stored under its own table name. *)
Definition keyed_by_table (kv : str * json) : Prop :=
  json_getitem (snd kv) (lit "table") = Ok (JStr (fst kv)).

(** The table name of an entry of a tool's answer. *)
Definition entry_table (e : json) : json := json_get e (lit "table") (JList []).

(** What the engine's order of distinct values has to satisfy: no value
    twice, and the values of the rows, all of them. *)
Definition distinct_order {A : Type} (f : list A -> list A) : Prop :=
  forall l, NoDup (f l) /\ forall x, In x (f l) <-> In x l.

(** The key under which a token is looked up. *)
Definition token_key (token : str) : str :=
  py_replace_char " " "_" (py_lower token).

(** A limit that can be bound to the statement. *)
Definition sqlite_range (n : Z) : Prop :=
  (int64_min <= n)%Z /\ (n <= int64_max)%Z.

(** The documents a lookup by token returns for such a limit: those the
    registry holds for the tables the query yields. *)
Definition tables_found (distinct_tables : list str -> list str)
  (db : registry_db) (tables : dict json) (token : str) (limit : Z) : list json :=
  flat_map (fun t => match dict_get tables t with Some doc => [doc] | None => [] end)
    (sql_limit limit (distinct_tables (alias_matches db (token_key token)))).

(** The entries the two tools make of a document. *)
Definition selector_view (doc : json) : json :=
  JObj [ (lit "table", json_get doc (lit "table") (JList []));
         (lit "top_columns", json_get doc (lit "top_columns") (JList []));
         (lit "aliases", json_get doc (lit "aliases") (JList [])) ].

Definition schema_view (schema : dict json) (t : str) (doc : json) : json :=
  JObj [ (lit "table", JStr t);
         (lit "top_columns", json_get doc (lit "top_columns") (JList []));
         (lit "all_columns",
          match dict_get schema t with Some v => v | None => JList [] end);
         (lit "sample_queries", json_get doc (lit "sample_queries") (JList [])) ].

(** One order of distinct values: the first occurrences, in the order of
    the rows. *)
Definition distinct_pairs (l : list (str * str)) : list (str * str) :=
  nodup (fun a b : str * str =>
           match list_eq_dec ascii_dec (fst a) (fst b),
                 list_eq_dec ascii_dec (snd a) (snd b) with
           | left e1, left e2 =>
               left (eq_trans (surjective_pairing a)
                       (eq_trans (f_equal2 pair e1 e2)
                                 (eq_sym (surjective_pairing b))))
           | right n, _ => right (fun e => n (f_equal fst e))
           | _, right n => right (fun e => n (f_equal snd e))
           end) l.

(** The table name of a document, when it is a string. *)
Definition table_of (doc : json) : str :=
  match json_get doc (lit "table") (JList []) with
  | JStr k => k
  | _ => []
  end.

(** The characters of a table name that a lookup by the name itself
    handles like [normalize] does: word characters and the space. *)
Definition is_name_char (c : ascii) : bool :=
  is_word_char c || Ascii.eqb c " ".

(** ** Registry enrichment: the tokens of [utils/enrich_registry.py] *)

(** [s.strip(ch)] for a one-character [ch]. *)
Definition py_strip_char (ch : ascii) (s : str) : str :=
  rev (drop_while (Ascii.eqb ch) (rev (drop_while (Ascii.eqb ch) s))).

(** [re.sub(r'[^0-9a-z]', '_', s.lower()).strip('_')] *)
Definition normalize_token (s : str) : str := py_strip_char "_" (normalize s).

(** A lower-case ASCII literal at the end of [s], under [re.I]. *)
Definition ends_ci (p s : str) : bool := starts_ci (rev p) (rev s).

(** [re.sub(r'(_id|_no|id|no)$', '', col, flags=re.I)]: the pattern ends
    where the text ends, or before a line feed that ends the text; the
    leftmost match wins, so a suffix with its underscore goes first. *)
Definition drop_id_suffix (s : str) : str :=
  if ends_ci (lit "_id") s || ends_ci (lit "_no") s
  then firstn (length s - 3) s
  else if ends_ci (lit "id") s || ends_ci (lit "no") s
       then firstn (length s - 2) s
       else s.

Definition re_sub_id_suffix (col : str) : str :=
  if py_endswith col [LF] then drop_id_suffix (removelast col) ++ [LF]
  else drop_id_suffix col.

Definition split_col_tokens (col : str) : list str :=
  let s := re_sub_id_suffix col in
  let parts := re_split_tokens s in
  map normalize_token (filter (fun p => nonempty p) parts).

(** A text that neither begins nor ends with an underscore. *)
Definition no_edge_underscore (s : str) : Prop :=
  match s with [] => True | a :: _ => a <> "_"%char end
  /\ match rev s with [] => True | b :: _ => b <> "_"%char end.

(** The name without a final [id] or [no], in any case of the letters. *)
Definition without_id (s : str) : str :=
  if ends_ci (lit "id") s || ends_ci (lit "no") s
  then firstn (length s - 2) s else s.

(** ** Text sanitizers: [utils/sanitize.py] and [sanitize_text] of
    [utils/streamlit_enrich.py]

    Both take [None] or a string.  In their patterns a class [[^>]] is
    followed by [>], so its greedy repetition takes the whole run of other
    characters and never gives one back; [re.sub] replaces the leftmost
    matches from left to right and does not read a replacement again. *)

Definition not_gt (c : ascii) : bool := negb (Ascii.eqb c ">").

(** [[^>]+>] at the start of [s]: the length of the match. *)
Definition tag_rest (s : str) : option nat :=
  let run := take_while not_gt s in
  if nonempty run && py_startswith (drop_while not_gt s) (lit ">")
  then Some (length run + 1) else None.

(** [re.sub(r'<[^>]+>', '', s)]; [skip] characters of a match are still to
    be dropped. *)
Fixpoint re_sub_tags (skip : nat) (s : str) : str :=
  match s with
  | [] => []
  | c :: s' =>
      match skip with
      | S k => re_sub_tags k s'
      | 0 =>
          if Ascii.eqb c "<" then
            match tag_rest s' with
            | Some n => re_sub_tags n s'
            | None => c :: re_sub_tags 0 s'
            end
          else c :: re_sub_tags 0 s'
      end
  end.

(** [re.sub(r'\s+', ' ', s)]; [in_run] says that the previous character was
    whitespace. *)
Fixpoint collapse_ws (in_run : bool) (s : str) : str :=
  match s with
  | [] => []
  | c :: s' =>
      if py_isspace c
      then (if in_run then collapse_ws true s' else " "%char :: collapse_ws true s')
      else c :: collapse_ws false s'
  end.

(** [s[:m]] *)
Definition py_slice_to (s : str) (m : Z) : str :=
  if (m <? 0)%Z then firstn (length s - Z.to_nat (- m)) s
  else firstn (Z.to_nat m) s.

Definition sanitize_text (s : option str) (maxlen : Z) : str :=
  match s with
  | None => []
  | Some s =>
      let s := re_sub_tags 0 s in
      let s := py_strip (collapse_ws false s) in
      py_slice_to s maxlen
  end.

(** [<WebsiteContent_[^>]*>] and [</WebsiteContent_[^>]*>] at the start of
    [s], under [re.IGNORECASE]: the length of the match. *)
Definition tag_named (name s : str) : option nat :=
  match match_lit_ci name s with
  | Some r =>
      if py_startswith (drop_while not_gt r) (lit ">")
      then Some (length name + length (take_while not_gt r) + 1)
      else None
  | None => None
  end.

Definition open_tag (s : str) : option nat :=
  tag_named (lit "<websitecontent_") s.

Definition close_tag (s : str) : option nat :=
  tag_named (lit "</websitecontent_") s.

(** The lazy group [(.*?)] under [re.DOTALL]: the first place from which
    the closing tag matches, and the length of that tag. *)
Fixpoint find_close (s : str) (j : nat) : option (nat * nat) :=
  match close_tag s with
  | Some n => Some (j, n)
  | None =>
      match s with
      | [] => None
      | _ :: s' => find_close s' (S j)
      end
  end.

(** The wrapper pattern at the start of [s]: the lengths of the opening
    tag, of the group and of the closing tag. *)
Definition wrapper_at (s : str) : option (nat * nat * nat) :=
  match open_tag s with
  | Some a =>
      match find_close (skipn a s) 0 with
      | Some (b, c) => Some (a, b, c)
      | None => None
      end
  | None => None
  end.

(** The substitution of the wrappers by their groups: [skip1] characters of
    an opening tag to drop, then [keep] characters of the group to keep,
    then [skip2] characters of the closing tag to drop. *)
Fixpoint re_sub_wrappers (skip1 keep skip2 : nat) (s : str) : str :=
  match s with
  | [] => []
  | ch :: s' =>
      match skip1, keep, skip2 with
      | S k, _, _ => re_sub_wrappers k keep skip2 s'
      | 0, S k, _ => ch :: re_sub_wrappers 0 k skip2 s'
      | 0, 0, S k => re_sub_wrappers 0 0 k s'
      | 0, 0, 0 =>
          match wrapper_at s with
          | Some (a, b, c) => re_sub_wrappers (a - 1) b c s'
          | None => ch :: re_sub_wrappers 0 0 0 s'
          end
      end
  end.

(** [re.sub(r'</?WebsiteContent_[^>]*>', '', s, flags=re.IGNORECASE)] *)
Fixpoint re_sub_single_tags (skip : nat) (s : str) : str :=
  match s with
  | [] => []
  | c :: s' =>
      match skip with
      | S k => re_sub_single_tags k s'
      | 0 =>
          match first_some (close_tag s) (open_tag s) with
          | Some n => re_sub_single_tags (n - 1) s'
          | None => c :: re_sub_single_tags 0 s'
          end
      end
  end.

Definition sanitize_page_field (s : option str) (maxlen : Z) : str :=
  match s with
  | None => []
  | Some s =>
      let s := re_sub_wrappers 0 0 0 s in
      let s := re_sub_single_tags 0 s in
      let s := re_sub_tags 0 s in
      let s := py_strip (collapse_ws false s) in
      let low := py_lower s in
      if negb (nonempty s) || py_startswith low (lit "http://")
         || py_startswith low (lit "https://")
      then []
      else py_slice_to s maxlen
  end.

(** At no place of [s] does [<[^>]+>] match. *)
Fixpoint tag_free (s : str) : bool :=
  match s with
  | [] => true
  | c :: s' =>
      negb (Ascii.eqb c "<"
            && match tag_rest s' with Some _ => true | None => false end)
      && tag_free s'
  end.

(** The only whitespace of [s] is the space, never two in a row; after
    [prev_space] none at the start either. *)
Fixpoint single_spaced (prev_space : bool) (s : str) : bool :=
  match s with
  | [] => true
  | c :: s' =>
      if py_isspace c
      then Ascii.eqb c " " && negb prev_space && single_spaced true s'
      else single_spaced false s'
  end.

(** ** Registry enrichment: [make_templates] and [enrich_registry]

    A run that raises is [None]: a line that is no JSON object, a document
    without a string under [table], an item of [top_columns], of [aliases]
    or of the schema's column list that is no string, [top_columns] a
    non-empty object when the sample queries have to be made (its key [0]
    is asked for), a schema that is no object. *)

(** [a < b] on strings: by code points, a proper prefix first. *)
Fixpoint str_ltb (a b : str) : bool :=
  match a, b with
  | _, [] => false
  | [], _ :: _ => true
  | x :: a', y :: b' =>
      if code x <? code y then true
      else if code y <? code x then false
      else str_ltb a' b'
  end.

(** [sorted(l)] on strings: ascending and stable. *)
Fixpoint insert_asc (x : str) (l : list str) : list str :=
  match l with
  | [] => [x]
  | y :: l' => if str_ltb y x then y :: insert_asc x l' else x :: l
  end.

Definition py_sorted (l : list str) : list str := fold_right insert_asc [] l.

(** [for x in v] where every item has to be a string: the characters of a
    string, the items of a list, the keys of an object. *)
Fixpoint strs_of (l : list json) : option (list str) :=
  match l with
  | [] => Some []
  | JStr s :: l' =>
      match strs_of l' with Some r => Some (s :: r) | None => None end
  | _ :: _ => None
  end.

Definition iter_strs (v : json) : option (list str) :=
  match v with
  | JStr s => Some (map (fun c => [c]) s)
  | JList l => strs_of l
  | JObj fields => Some (dict_keys fields)
  end.

Definition make_templates (table : str) (top_cols : list str) : list str :=
  let pk := match top_cols with c :: _ => c | [] => lit "id" end in
  let date := find (fun c => py_substr (lit "date") (py_lower c)) top_cols in
  let insurer_col :=
    find (fun c => py_substr (lit "insur") (py_lower c)
                   || py_substr (lit "company") (py_lower c)) top_cols in
  [ lit "Get " ++ table ++ lit " by " ++ pk;
    match date with
    | Some d =>
        if nonempty d
        then lit "List " ++ table ++ lit " where " ++ d
             ++ lit " between {start_date} and {end_date}"
        else lit "List " ++ table ++ lit " for insurer {insurer_name}"
    | None => lit "List " ++ table ++ lit " for insurer {insurer_name}"
    end;
    lit "Show details for " ++ table ++ lit " for Hindustan Petroleum" ].

(** The names added to the aliases of a document, in the order of the
    calls of [aliases.add]. *)
Definition alias_additions (table : str) (top_cols : list str) : list str :=
  [normalize_token table]
  ++ map normalize_token (py_split_on "_" table)
  ++ flat_map split_col_tokens top_cols
  ++ (if existsb (fun c => py_substr (lit "insur") (py_lower c)) top_cols
      then [lit "insurer"; lit "insurance"] else []).

Section Enrich.

Variable set_iter : list str -> list str.
Variable json_dumps : json -> str.
Variable json_loads : str -> outcome json.

(** The document after the loop body, with its table, its aliases and its
    top columns as read. *)
Definition enrich_doc (doc : json) : option (json * str * list str * json) :=
  match doc with
  | JObj fields =>
      match dict_get fields (lit "table") with
      | Some (JStr table) =>
          let top :=
            match dict_get fields (lit "top_columns") with
            | Some v => v
            | None => JList []
            end in
          let no_samples :=
            negb (match dict_get fields (lit "sample_queries") with
                  | Some v => json_truthy v
                  | None => false
                  end) in
          if no_samples && match top with JObj (_ :: _) => true | _ => false end
          then None
          else
            match iter_strs top with
            | None => None
            | Some top_cols =>
                let fields :=
                  if no_samples
                  then dict_setitem fields (lit "sample_queries")
                         (JList (map JStr (make_templates table top_cols)))
                  else fields in
                match iter_strs (match dict_get fields (lit "aliases") with
                                 | Some v => v
                                 | None => JList []
                                 end) with
                | None => None
                | Some old =>
                    let aliases :=
                      py_sorted (set_iter (old ++ alias_additions table top_cols)) in
                    let fields :=
                      dict_setitem fields (lit "aliases") (JList (map JStr aliases)) in
                    Some (JObj fields, table, aliases, top)
                end
            end
      | _ => None
      end
  | _ => None
  end.

(** The body of [for line in fin], on the text written so far and the
    store. *)
Definition enrich_line (schema : json) (st : str * registry_db) (line : str)
  : option (str * registry_db) :=
  let '(fout, db) := st in
  match json_loads line with
  | Ok doc =>
      match enrich_doc doc with
      | Some (doc, table, aliases, top) =>
          let fout := fout ++ json_dumps doc ++ [LF] in
          let db := fold_left (fun db a => insert_alias db a table) aliases db in
          match schema with
          | JObj sfields =>
              match iter_strs (match dict_get sfields table with
                               | Some v => v
                               | None => top
                               end) with
              | Some cols =>
                  Some (fout,
                        fold_left
                          (fun db c =>
                             fold_left (fun db tok => insert_column db tok table c)
                                       (split_col_tokens c) db)
                          cols db)
              | None => None
              end
          | _ => None
          end
      | None => None
      end
  | _ => None
  end.

Fixpoint enrich_lines (schema : json) (lines : list str) (st : str * registry_db)
  : option (str * registry_db) :=
  match lines with
  | [] => Some st
  | line :: rest =>
      match enrich_line schema st line with
      | Some st' => enrich_lines schema rest st'
      | None => None
      end
  end.

(** [enrich_registry]: the new text of [registry.ndjson], the text of the
    backup and the store after the run; [schema] is the value read from
    [schema.json], the empty object when the file does not exist. *)
Definition enrich_registry (ndjson : str) (db : registry_db) (schema : json)
  : option (str * str * registry_db) :=
  match enrich_lines schema (file_lines ndjson) ([], db) with
  | Some (fout, db') => Some (fout, ndjson, db')
  | None => None
  end.

End Enrich.

(** [a < b] as a proposition. *)
Definition str_lt (a b : str) : Prop := str_ltb a b = true.

(** What one line of the registry adds: the line written and the rows of
    the two indexes. *)
Definition line_effect (set_iter : list str -> list str)
  (json_dumps : json -> str) (json_loads : str -> outcome json)
  (schema : json) (line : str)
  : option (str * list (str * str) * list (str * str * str)) :=
  match json_loads line with
  | Ok doc =>
      match enrich_doc set_iter doc with
      | Some (doc', table, aliases, top) =>
          match schema with
          | JObj sfields =>
              match iter_strs (match dict_get sfields table with
                               | Some v => v
                               | None => top
                               end) with
              | Some cols =>
                  Some (json_dumps doc' ++ [LF],
                        map (fun a => (a, table)) aliases,
                        flat_map (fun c => map (fun tok => (tok, table, c))
                                               (split_col_tokens c)) cols)
              | None => None
              end
          | _ => None
          end
      | None => None
      end
  | _ => None
  end.

(** The effects of the lines of a text, in order; [None] when one of them
    raises. *)
Fixpoint lines_effect (set_iter : list str -> list str)
  (json_dumps : json -> str) (json_loads : str -> outcome json)
  (schema : json) (lines : list str)
  : option (str * list (str * str) * list (str * str * str)) :=
  match lines with
  | [] => Some ([], [], [])
  | line :: rest =>
      match line_effect set_iter json_dumps json_loads schema line,
            lines_effect set_iter json_dumps json_loads schema rest with
      | Some (t, ra, rc), Some (t', ra', rc') =>
          Some (t ++ t', ra ++ ra', rc ++ rc')
      | _, _ => None
      end
  end.

(** The schema as [schema.json] holds it: an object of lists of strings. *)
Definition schema_json (schema : dict (list str)) : json :=
  JObj (map (fun kv => (fst kv, JList (map JStr (snd kv)))) schema).

(** The document of a table after enrichment of the document
    [build_registry] wrote for it, and its aliases. *)
Definition enriched_aliases (set_iter : list str -> list str)
  (item : str * list str) : list str :=
  py_sorted
    (set_iter (table_aliases set_iter (fst item)
               ++ alias_additions (fst item) (pick_top_columns (snd item) 4))).

Definition enriched_doc (sha1_hexdigest : str -> str)
  (set_iter : list str -> list str) (item : str * list str) : json :=
  let table := fst item in
  let top := pick_top_columns (snd item) 4 in
  JObj [ (lit "table", JStr table);
         (lit "sig",
          JStr (lit "tbl:" ++ table ++ lit "|h:"
                ++ signature sha1_hexdigest table top));
         (lit "top_columns", JList (map JStr top));
         (lit "aliases", JList (map JStr (enriched_aliases set_iter item)));
         (lit "sample_queries", JList (map JStr (make_templates table top)));
         (lit "neighbors", JList []);
         (lit "sensitivity", JStr (lit "low")) ].

(** What a second run needs of the JSON library: the line written for the
    enriched document of a line holds no line break and decodes to the
    document. *)
Definition enriched_line_round_trips (set_iter : list str -> list str)
  (json_dumps : json -> str) (json_loads : str -> outcome json) (line : str)
  : Prop :=
  match json_loads line with
  | Ok doc =>
      match enrich_doc set_iter doc with
      | Some (doc', _, _, _) => codec_round_trips json_dumps json_loads doc'
      | None => True
      end
  | _ => True
  end.

(** ** The tokens of a sample query: [tokenize_text] of
    [utils/streamlit_enrich.py] *)

(** [list({t for t in re.sub(r'[^0-9a-z]', ' ', s.lower()).split() if t})],
    in the order in which the set yields its elements. *)
Definition tokenize_text (set_iter : list str -> list str) (s : str) : list str :=
  set_iter
    (filter (fun t => nonempty t)
       (py_split
          (map (fun c => if in_range 48 57 c || in_range 97 122 c
                         then c else " "%char)
               (py_lower s)))).

(** * Properties *)

(** ** Lists and strings *)

Lemma nth_error_skipn {A : Type} (l : list A) (i : nat) (a : A) :
  nth_error l i = Some a -> skipn i l = a :: skipn (S i) l.
Proof.
  revert i; induction l as [|x l IH]; intros [|i] H; simpl in *; try discriminate.
  - now inversion H.
  - now apply IH.
Qed.

Lemma py_getitem_lt {A : Type} (l : list A) (i : nat) :
  i < length l -> exists a, py_getitem l i = Ok a /\ skipn i l = a :: skipn (S i) l.
Proof.
  intros H. unfold py_getitem.
  destruct (nth_error l i) as [a|] eqn:E.
  - exists a; split; [reflexivity | now apply nth_error_skipn].
  - apply nth_error_None in E. lia.
Qed.

Lemma str_eqb_eq (a b : str) : str_eqb a b = true <-> a = b.
Proof.
  unfold str_eqb. destruct (list_eq_dec ascii_dec a b); split; congruence.
Qed.

Lemma str_eqb_refl (a : str) : str_eqb a a = true.
Proof. now apply str_eqb_eq. Qed.

Lemma str_eqb_neq (a b : str) : str_eqb a b = false <-> a <> b.
Proof.
  unfold str_eqb. destruct (list_eq_dec ascii_dec a b); split; congruence.
Qed.

Lemma nonempty_true {A : Type} (l : list A) : nonempty l = true <-> l <> [].
Proof. destruct l; simpl; split; congruence. Qed.

Lemma py_split_on_nonempty (sep : ascii) (s : str) : py_split_on sep s <> [].
Proof.
  induction s as [|c s IH]; simpl; [discriminate|].
  destruct (Ascii.eqb c sep); [discriminate|].
  destruct (py_split_on sep s); discriminate.
Qed.

(** ** The loops never leave their text *)

Lemma scan_close_spec (sql_text : str) (fuel i : nat) (depth : Z) :
  length sql_text - i < fuel ->
  scan_close fuel sql_text (length sql_text) i depth
  = Ok (scan_close_list (skipn i sql_text) i depth).
Proof.
  revert i depth; induction fuel as [|fuel IH]; intros i depth Hf; [lia|].
  simpl. destruct (Nat.ltb_spec i (length sql_text)) as [Hi|Hi].
  - destruct (py_getitem_lt sql_text i Hi) as (ch & -> & ->). simpl.
    destruct (Ascii.eqb ch "("); [apply IH; lia|].
    destruct (Ascii.eqb ch ")"); [|apply IH; lia].
    destruct (depth - 1 =? 0)%Z; [reflexivity | apply IH; lia].
  - now rewrite skipn_all2 by lia.
Qed.

Lemma split_loop_spec (s : str) (fuel i : nat) (st : split_state) :
  length s - i < fuel ->
  split_loop fuel s i st = Ok (fold_left split_step (skipn i s) st).
Proof.
  revert i st; induction fuel as [|fuel IH]; intros i st Hf; [lia|].
  simpl. destruct (Nat.ltb_spec i (length s)) as [Hi|Hi].
  - destruct (py_getitem_lt s i Hi) as (ch & -> & ->). simpl. apply IH; lia.
  - now rewrite skipn_all2 by lia.
Qed.

Lemma split_top_level_commas_spec (s : str) :
  split_top_level_commas s = Ok (split_finish (fold_left split_step s split_init)).
Proof.
  unfold split_top_level_commas.
  rewrite split_loop_spec by lia. reflexivity.
Qed.

(** ** The helpers always return *)

Lemma strip_brackets_and_quotes_total (name : str) :
  exists r, strip_brackets_and_quotes name = Ok r.
Proof.
  unfold strip_brackets_and_quotes.
  destruct (negb (nonempty name)); [eauto|].
  destruct (py_contains "." (py_strip name)); simpl; [|eauto].
  unfold py_getitem_last.
  destruct (py_split_on "." (py_strip name)) eqn:E; simpl; [|eauto].
  now apply py_split_on_nonempty in E.
Qed.

Lemma parse_column_name_from_def_total (col_def : str) :
  exists r, parse_column_name_from_def col_def = Ok r.
Proof.
  unfold parse_column_name_from_def.
  destruct (re_table_constraint (py_strip col_def)); [eauto|].
  destruct (re_column_name _); [apply strip_brackets_and_quotes_total|].
  destruct (py_split _) as [|tok toks]; simpl; [eauto|].
  apply strip_brackets_and_quotes_total.
Qed.

Lemma collect_columns_total (ps cols : list str) :
  exists r, collect_columns ps cols = Ok r.
Proof.
  revert cols; induction ps as [|p ps IH]; intros cols; simpl; [eauto|].
  destruct (parse_column_name_from_def_total p) as [c ->]. simpl. apply IH.
Qed.

Lemma raw_table_of_total (pre : str) :
  raw_table_of pre = Ok (value_or [] (raw_table_of pre)).
Proof.
  unfold raw_table_of.
  destruct (re_table_search pre); [reflexivity|].
  destruct (py_split (py_strip pre)); reflexivity.
Qed.

(** ** [str.find] and the parenthesis scan stay inside the text *)

Lemma py_startswith_length (s p : str) :
  py_startswith s p = true -> length p <= length s.
Proof.
  revert s; induction p as [|a p IH]; intros [|b s] H; simpl in *;
    try lia; try discriminate.
  apply andb_true_iff in H as [_ H]. apply IH in H. lia.
Qed.

Lemma find_in_eq (sub s : str) (i : nat) :
  find_in sub s i
  = if py_startswith s sub then Some i
    else match s with [] => None | _ :: s' => find_in sub s' (S i) end.
Proof. destruct s; reflexivity. Qed.

Lemma find_in_spec (sub s : str) (i pos : nat) :
  find_in sub s i = Some pos ->
  i <= pos /\ pos - i + length sub <= length s
  /\ py_startswith (skipn (pos - i) s) sub = true.
Proof.
  revert i; induction s as [|c s IH]; intros i; rewrite find_in_eq.
  - destruct (py_startswith [] sub) eqn:E; [|discriminate].
    intros [= <-]. rewrite Nat.sub_diag. simpl skipn.
    apply py_startswith_length in E as E'. simpl in E'. repeat split; auto; lia.
  - destruct (py_startswith (c :: s) sub) eqn:E.
    + intros [= <-]. rewrite Nat.sub_diag. simpl skipn.
      apply py_startswith_length in E as E'. simpl in E'. repeat split; auto; lia.
    + intros H. apply IH in H as (H1 & H2 & H3).
      replace (pos - i) with (S (pos - S i)) by lia. simpl.
      repeat split; auto; lia.
Qed.

Lemma py_find_spec (s sub : str) (start pos : nat) :
  py_find s sub start = Some pos ->
  start <= pos /\ pos + length sub <= length s
  /\ py_startswith (skipn pos s) sub = true.
Proof.
  unfold py_find. destruct (Nat.leb_spec start (length s)) as [Hs|Hs]; [|discriminate].
  intros H. apply find_in_spec in H as (H1 & H2 & H3).
  rewrite length_skipn in H2. rewrite skipn_skipn in H3.
  replace (pos - start + start) with pos in H3 by lia.
  repeat split; auto; lia.
Qed.

Lemma scan_close_list_bounds (s : str) (i : nat) (depth : Z) (e : nat) :
  scan_close_list s i depth = Some e -> i <= e < i + length s.
Proof.
  revert i depth; induction s as [|ch s IH]; intros i depth; simpl; [discriminate|].
  destruct (Ascii.eqb ch "(").
  { intros H; apply IH in H; lia. }
  destruct (Ascii.eqb ch ")").
  - destruct (depth - 1 =? 0)%Z.
    + intros [= <-]; lia.
    + intros H; apply IH in H; lia.
  - intros H; apply IH in H; lia.
Qed.

Lemma length_py_lower (s : str) : length (py_lower s) = length s.
Proof. apply length_map. Qed.

Lemma keyword_length : length keyword = 12.
Proof. reflexivity. Qed.

(** Every visit that does not finish the scan moves the index forward and
    keeps it inside the text. *)
Lemma visit_at_progress (sql_text : str) (idx : nat) :
  match visit_at sql_text idx with
  | Finished => True
  | Skipped next | Emitted _ next => idx < next <= length sql_text
  end.
Proof.
  unfold visit_at.
  destruct (py_find (py_lower sql_text) keyword idx) as [pos|] eqn:Ek; [|exact I].
  apply py_find_spec in Ek as (Hk1 & Hk2 & _).
  rewrite length_py_lower, keyword_length in Hk2.
  destruct (py_find sql_text (lit "(") pos) as [o|] eqn:Eo; [|lia].
  apply py_find_spec in Eo as (Ho1 & Ho2 & _).
  destruct (scan_close_list (skipn o sql_text) o 0) as [e|] eqn:Ee; [|lia].
  apply scan_close_list_bounds in Ee. rewrite length_skipn in Ee. lia.
Qed.

(** The outer loop of the source, with enough fuel, appends exactly the
    blocks of the specification-level view. *)
Lemma blocks_loop_spec (sql_text : str) (fuel idx : nat) (acc : list (dict str)) :
  length sql_text - idx < fuel ->
  blocks_loop fuel sql_text (py_lower sql_text) idx acc
  = Ok (acc ++ blocks_from fuel sql_text idx).
Proof.
  revert idx acc; induction fuel as [|fuel IH]; intros idx acc Hf; [lia|].
  pose proof (visit_at_progress sql_text idx) as Hp.
  cbn [blocks_loop blocks_from]. unfold visit_at in *.
  destruct (py_find (py_lower sql_text) keyword idx) as [pos|];
    [|now rewrite app_nil_r].
  destruct (py_find sql_text (lit "(") pos) as [o|]; [|apply IH; lia].
  pose proof (raw_table_of_total (slice sql_text pos o)) as Hr.
  destruct (raw_table_of (slice sql_text pos o)) as [rt| |]; try discriminate.
  cbn [bind value_or]. rewrite scan_close_spec by lia. cbn [bind].
  destruct (scan_close_list (skipn o sql_text) o 0) as [e|];
    cbn iota beta in Hp; [|apply IH; lia].
  rewrite IH by lia. now rewrite <- app_assoc.
Qed.

Lemma blocks_from_fuel (sql_text : str) (f1 f2 idx : nat) :
  length sql_text - idx < f1 -> length sql_text - idx < f2 ->
  blocks_from f1 sql_text idx = blocks_from f2 sql_text idx.
Proof.
  revert f2 idx; induction f1 as [|f1 IH]; intros [|f2] idx H1 H2; try lia.
  pose proof (visit_at_progress sql_text idx) as Hp. simpl.
  destruct (visit_at sql_text idx); auto; [|f_equal]; apply IH; lia.
Qed.

(** The blocks of a text, scanned from [idx] on. *)
Lemma find_create_table_blocks_spec (sql_text : str) :
  find_create_table_blocks sql_text
  = Ok (blocks_from (S (length sql_text)) sql_text 0).
Proof.
  unfold find_create_table_blocks. now rewrite blocks_loop_spec by lia.
Qed.

(** ** The extractor as a fold over the blocks *)

Lemma blocks_from_is_block (sql_text : str) (fuel idx : nat) :
  Forall is_block (blocks_from fuel sql_text idx).
Proof.
  revert idx; induction fuel as [|fuel IH]; intros idx; simpl; [constructor|].
  unfold visit_at.
  destruct (py_find (py_lower sql_text) keyword idx) as [pos|]; [|constructor].
  destruct (py_find sql_text (lit "(") pos) as [o|]; [|apply IH].
  destruct (scan_close_list (skipn o sql_text) o 0) as [e|]; [|apply IH].
  constructor; [|apply IH]. red; eauto.
Qed.

Lemma process_block_spec (tables : dict (list str)) (blk : dict str) :
  is_block blk ->
  process_block tables blk = Ok (store_block tables blk).
Proof.
  intros (raw & body & ->).
  unfold process_block, store_block, block_table, block_columns.
  change (dict_getitem (mk_block raw body) (lit "table_raw")) with (Ok raw).
  change (dict_getitem (mk_block raw body) (lit "cols_block")) with (Ok body).
  cbn [bind].
  destruct (strip_brackets_and_quotes_total raw) as [table ->].
  rewrite split_top_level_commas_spec. cbn [bind value_or].
  destruct (collect_columns_total
              (split_finish (fold_left split_step body split_init)) [])
    as [cols ->].
  reflexivity.
Qed.

Lemma for_blocks_spec (blocks : list (dict str)) (tables : dict (list str)) :
  Forall is_block blocks ->
  for_blocks blocks tables = Ok (fold_left store_block blocks tables).
Proof.
  intros H; revert tables; induction H as [|blk blocks Hb _ IH]; intros tables;
    simpl; [reflexivity|].
  rewrite process_block_spec by assumption. apply IH.
Qed.

Lemma ddl_to_schema_spec (sql_text : str) :
  ddl_to_schema sql_text = Ok (fold_left store_block (blocks_of sql_text) []).
Proof.
  unfold ddl_to_schema. rewrite find_create_table_blocks_spec. cbn [bind].
  apply for_blocks_spec, blocks_from_is_block.
Qed.

(** ** The scan from an index on only reads the text from that index on *)

Lemma find_in_shift (sub s : str) (d k : nat) :
  find_in sub s (d + k) = option_map (Nat.add d) (find_in sub s k).
Proof.
  revert k; induction s as [|c s IH]; intros k.
  - rewrite (find_in_eq sub [] (d + k)), (find_in_eq sub [] k).
    destruct (py_startswith [] sub); reflexivity.
  - rewrite (find_in_eq sub (c :: s) (d + k)), (find_in_eq sub (c :: s) k).
    destruct (py_startswith (c :: s) sub); [reflexivity|].
    rewrite <- IH. f_equal. lia.
Qed.

Lemma py_find_shift (s sub : str) (d k : nat) :
  d <= length s ->
  py_find s sub (d + k) = option_map (Nat.add d) (py_find (skipn d s) sub k).
Proof.
  intros Hd. unfold py_find. rewrite length_skipn, skipn_skipn.
  destruct (Nat.leb_spec (d + k) (length s)), (Nat.leb_spec k (length s - d));
    try lia; [|reflexivity].
  rewrite find_in_shift. now rewrite (Nat.add_comm k d).
Qed.

Lemma scan_close_list_shift (s : str) (d k : nat) (depth : Z) :
  scan_close_list s (d + k) depth
  = option_map (Nat.add d) (scan_close_list s k depth).
Proof.
  revert k depth; induction s as [|ch s IH]; intros k depth; simpl; [reflexivity|].
  replace (S (d + k)) with (d + S k) by lia.
  destruct (Ascii.eqb ch "("); [apply IH|].
  destruct (Ascii.eqb ch ")"); [|apply IH].
  destruct (depth - 1 =? 0)%Z; [reflexivity | apply IH].
Qed.

Lemma slice_shift (s : str) (d a b : nat) :
  slice s (d + a) (d + b) = slice (skipn d s) a b.
Proof.
  unfold slice. rewrite skipn_skipn. f_equal; [lia | f_equal; lia].
Qed.

Lemma py_lower_skipn (s : str) (d : nat) :
  py_lower (skipn d s) = skipn d (py_lower s).
Proof. unfold py_lower. now rewrite skipn_map. Qed.

Lemma visit_at_shift (sql_text : str) (d k : nat) :
  d <= length sql_text ->
  visit_at sql_text (d + k) = shift_visit d (visit_at (skipn d sql_text) k).
Proof.
  intros Hd. unfold visit_at.
  rewrite py_lower_skipn, (py_find_shift _ _ d k) by now rewrite length_py_lower.
  destruct (py_find (skipn d (py_lower sql_text)) keyword k) as [pos|];
    [|reflexivity].
  cbn [option_map]. rewrite (py_find_shift _ _ d pos) by assumption.
  destruct (py_find (skipn d sql_text) (lit "(") pos) as [o|]; cbn [option_map].
  2:{ cbn [shift_visit]. f_equal; lia. }
  rewrite skipn_skipn, (Nat.add_comm o d), scan_close_list_shift.
  destruct (scan_close_list (skipn (d + o) sql_text) o 0) as [e|];
    cbn [option_map shift_visit].
  - rewrite slice_shift. replace (d + o + 1) with (d + (o + 1)) by lia.
    rewrite slice_shift. f_equal. lia.
  - f_equal; lia.
Qed.

Lemma blocks_from_shift (sql_text : str) (fuel d k : nat) :
  d <= length sql_text ->
  blocks_from fuel sql_text (d + k) = blocks_from fuel (skipn d sql_text) k.
Proof.
  intros Hd. revert k; induction fuel as [|fuel IH]; intros k; simpl;
    [reflexivity|].
  rewrite visit_at_shift by assumption.
  destruct (visit_at (skipn d sql_text) k); cbn [shift_visit]; auto.
  f_equal; apply IH.
Qed.

(** The blocks found from [idx] on are the blocks of the text that starts
    at [idx], scanned on its own. *)
Lemma blocks_from_suffix (sql_text : str) (fuel idx : nat) :
  idx <= length sql_text -> length sql_text - idx < fuel ->
  blocks_from fuel sql_text idx = blocks_of (skipn idx sql_text).
Proof.
  intros Hi Hf. unfold blocks_of.
  rewrite <- (Nat.add_0_r idx) at 1. rewrite blocks_from_shift by assumption.
  apply blocks_from_fuel; rewrite length_skipn; lia.
Qed.

Lemma scan_close_none (sql_text : str) (o : nat) :
  scan_close (S (length sql_text)) sql_text (length sql_text) o 0%Z = Ok None ->
  scan_close_list (skipn o sql_text) o 0%Z = None.
Proof. rewrite scan_close_spec by lia. congruence. Qed.

Lemma visit_at_ill_formed (sql_text : str) (idx pos : nat) :
  py_find (py_lower sql_text) keyword idx = Some pos ->
  ill_formed sql_text pos ->
  visit_at sql_text idx = Skipped (pos + 12).
Proof.
  intros Hk Hill. unfold visit_at. rewrite Hk.
  destruct Hill as [-> | (o & -> & Hs)]; [reflexivity|].
  now rewrite (scan_close_none _ _ Hs).
Qed.

Lemma blocks_loop_skip (sql_text : str) (fuel idx pos : nat)
  (acc : list (dict str)) :
  py_find (py_lower sql_text) keyword idx = Some pos ->
  ill_formed sql_text pos ->
  length sql_text - idx < fuel ->
  blocks_loop fuel sql_text (py_lower sql_text) idx acc
  = (rest <- find_create_table_blocks (skipn (pos + 12) sql_text) ;;
     Ok (acc ++ rest)).
Proof.
  intros Hk Hill Hf.
  rewrite blocks_loop_spec, find_create_table_blocks_spec by assumption.
  cbn [bind]. do 2 f_equal.
  pose proof (visit_at_progress sql_text idx) as Hp.
  destruct fuel as [|fuel]; [lia|]. cbn [blocks_from].
  rewrite (visit_at_ill_formed _ _ _ Hk Hill) in *.
  apply blocks_from_suffix; lia.
Qed.

(** ** Totality and the skip rules *)

(** C2: the schema extractor returns a mapping on every text: no subscript
    or key is ever out of range and no loop outlives its fuel.  When the
    scan meets an ill-formed occurrence of the keyword (no opening
    parenthesis after it, or the text ends before the depth is back at
    zero), it emits no block for it: the blocks collected so far are kept,
    and what follows is exactly the scan of the text after the keyword, taken
    on its own.  In particular a text whose first occurrence is ill-formed
    is extracted like the text after that keyword. *)
Theorem extractor_total_and_skips_ill_formed :
  (forall sql_text, exists tables, ddl_to_schema sql_text = Ok tables)
  /\ (forall sql_text fuel idx pos acc,
         py_find (py_lower sql_text) keyword idx = Some pos ->
         ill_formed sql_text pos ->
         length sql_text - idx < fuel ->
         blocks_loop fuel sql_text (py_lower sql_text) idx acc
         = (rest <- find_create_table_blocks (skipn (pos + 12) sql_text) ;;
            Ok (acc ++ rest)))
  /\ (forall sql_text pos,
         py_find (py_lower sql_text) keyword 0 = Some pos ->
         ill_formed sql_text pos ->
         ddl_to_schema sql_text = ddl_to_schema (skipn (pos + 12) sql_text)).
Proof.
  split; [|split].
  - intros sql_text. rewrite ddl_to_schema_spec. eauto.
  - intros sql_text fuel idx pos acc Hk Hill Hf. now apply blocks_loop_skip.
  - intros sql_text pos Hk Hill. unfold ddl_to_schema.
    replace (find_create_table_blocks sql_text)
      with (find_create_table_blocks (skipn (pos + 12) sql_text)); [reflexivity|].
    unfold find_create_table_blocks at 2.
    rewrite (blocks_loop_skip sql_text _ 0 pos [] Hk Hill) by lia.
    now destruct (find_create_table_blocks (skipn (pos + 12) sql_text)).
Qed.

(** A truncated statement in front of a complete one: the first occurrence
    is skipped and the second is extracted as if it stood alone. *)
Lemma extractor_skips_truncated_statement :
  let sql_text := lit "CREATE TABLE a (x INT CREATE TABLE b (y INT)" in
  py_find (py_lower sql_text) keyword 0 = Some 0
  /\ ill_formed sql_text 0
  /\ ddl_to_schema sql_text = ddl_to_schema (skipn 12 sql_text)
  /\ ddl_to_schema sql_text = Ok [(lit "b", [lit "y"])].
Proof.
  intros sql_text.
  assert (Hk : py_find (py_lower sql_text) keyword 0 = Some 0) by reflexivity.
  assert (Hill : ill_formed sql_text 0).
  { right. exists 15. split; vm_compute; reflexivity. }
  refine (conj Hk (conj Hill (conj _ _))).
  - exact (proj2 (proj2 extractor_total_and_skips_ill_formed) sql_text 0 Hk Hill).
  - vm_compute. reflexivity.
Defined.

(** ** Dictionaries *)

Lemma dict_get_setitem_same {V : Type} (d : dict V) (k : str) (v : V) :
  dict_get (dict_setitem d k v) k = Some v.
Proof.
  induction d as [|[k' v'] d IH]; simpl.
  - now rewrite str_eqb_refl.
  - destruct (str_eqb k' k) eqn:E; simpl; rewrite E; auto.
Qed.

Lemma dict_get_setitem_other {V : Type} (d : dict V) (k k' : str) (v : V) :
  k <> k' -> dict_get (dict_setitem d k v) k' = dict_get d k'.
Proof.
  intros Hk. induction d as [|[k0 v0] d IH]; simpl.
  - apply str_eqb_neq in Hk. now rewrite Hk.
  - destruct (str_eqb k0 k) eqn:E; simpl.
    + apply str_eqb_eq in E as ->. apply str_eqb_neq in Hk. now rewrite Hk.
    + destruct (str_eqb k0 k'); auto.
Qed.

Lemma dict_setitem_values {V : Type} (P : V -> Prop) (d : dict V) (k : str) (v : V) :
  Forall (fun kv => P (snd kv)) d -> P v ->
  Forall (fun kv => P (snd kv)) (dict_setitem d k v).
Proof.
  intros Hd Hv. induction Hd as [|[k' v'] d H Hd IH]; simpl.
  - now repeat constructor.
  - destruct (str_eqb k' k); constructor; auto.
Qed.

(** ** The mapping after the [for] loop over the blocks *)

Lemma store_block_values (tables : dict (list str)) (blk : dict str) :
  Forall (fun kv => snd kv <> []) tables ->
  Forall (fun kv => snd kv <> []) (store_block tables blk).
Proof.
  intros H. unfold store_block.
  destruct (nonempty (block_columns blk)) eqn:E; [|assumption].
  apply (dict_setitem_values (fun v => v <> [])); [assumption|].
  now apply nonempty_true.
Qed.

Lemma fold_store_block_values (bs : list (dict str)) (tables : dict (list str)) :
  Forall (fun kv => snd kv <> []) tables ->
  Forall (fun kv => snd kv <> []) (fold_left store_block bs tables).
Proof.
  revert tables; induction bs as [|b bs IH]; intros tables H; simpl; [assumption|].
  apply IH, store_block_values, H.
Qed.

Lemma dict_get_store_block (tables : dict (list str)) (blk : dict str) (k : str) :
  dict_get (store_block tables blk) k
  = if nonempty (block_columns blk) && str_eqb (block_table blk) k
    then Some (block_columns blk) else dict_get tables k.
Proof.
  unfold store_block. destruct (nonempty (block_columns blk)); [|reflexivity].
  simpl. destruct (str_eqb (block_table blk) k) eqn:E.
  - apply str_eqb_eq in E as <-. apply dict_get_setitem_same.
  - apply dict_get_setitem_other. now apply str_eqb_neq.
Qed.

Lemma dict_get_fold_store_block (bs : list (dict str)) (tables : dict (list str))
  (k : str) :
  dict_get (fold_left store_block bs tables) k
  = last_write k bs (dict_get tables k).
Proof.
  unfold last_write.
  revert tables; induction bs as [|b bs IH]; intros tables; simpl; [reflexivity|].
  now rewrite IH, dict_get_store_block.
Qed.

Lemma last_write_silent (k : str) (bs : list (dict str)) (init : option (list str)) :
  (forall blk, In blk bs -> block_table blk = k -> block_columns blk = []) ->
  last_write k bs init = init.
Proof.
  unfold last_write.
  revert init; induction bs as [|b bs IH]; intros init H; simpl; [reflexivity|].
  rewrite IH by (intros; apply H; simpl; auto).
  destruct (nonempty (block_columns b)) eqn:En; [|reflexivity].
  destruct (str_eqb (block_table b) k) eqn:Ek; [|reflexivity].
  apply str_eqb_eq in Ek. rewrite (H b) in En by (simpl; auto). discriminate.
Qed.

Lemma last_write_app (k : str) (bs1 bs2 : list (dict str))
  (init : option (list str)) :
  last_write k (bs1 ++ bs2) init = last_write k bs2 (last_write k bs1 init).
Proof. unfold last_write. apply fold_left_app. Qed.

Lemma ddl_to_schema_blocks (sql_text : str) (tables : dict (list str))
  (bs : list (dict str)) :
  ddl_to_schema sql_text = Ok tables ->
  find_create_table_blocks sql_text = Ok bs ->
  tables = fold_left store_block bs [].
Proof.
  rewrite ddl_to_schema_spec, find_create_table_blocks_spec.
  unfold blocks_of. congruence.
Qed.

(** ** No table without columns *)

Lemma parse_constraint_segment (p : str) :
  constraint_segment p -> parse_column_name_from_def p = Ok [].
Proof. unfold constraint_segment, parse_column_name_from_def. now intros ->. Qed.

Lemma collect_constraint_segments (segs cols : list str) :
  Forall constraint_segment segs -> collect_columns segs cols = Ok cols.
Proof.
  intros H; induction H as [|p segs Hp _ IH]; simpl; [reflexivity|].
  now rewrite (parse_constraint_segment p Hp).
Qed.

Lemma constraint_only_columns (blk : dict str) :
  constraint_only blk -> block_columns blk = [].
Proof.
  intros (segs & Hs & Hc). unfold block_columns.
  destruct (dict_getitem blk (lit "cols_block")) as [body| |]; try discriminate.
  cbn [bind] in *. rewrite Hs. cbn [bind].
  now rewrite collect_constraint_segments.
Qed.

(** C6: the mapping the extractor returns never holds a table with an empty
    column list.  A block all of whose segments are table-level constraints
    leaves the mapping as it was, so a table name that only such blocks
    declare is no key of the result; [CREATE TABLE t (PRIMARY KEY (a))]
    yields the empty mapping. *)
Theorem no_table_with_empty_column_list :
  (forall sql_text tables t cols,
      ddl_to_schema sql_text = Ok tables -> In (t, cols) tables -> cols <> [])
  /\ (forall tables blk,
         is_block blk -> constraint_only blk ->
         process_block tables blk = Ok tables)
  /\ (forall sql_text tables blocks k,
         ddl_to_schema sql_text = Ok tables ->
         find_create_table_blocks sql_text = Ok blocks ->
         (forall blk, In blk blocks -> block_table blk = k -> constraint_only blk) ->
         dict_get tables k = None)
  /\ ddl_to_schema (lit "CREATE TABLE t (PRIMARY KEY (a))") = Ok [].
Proof.
  repeat apply conj.
  - intros sql_text tables t cols Hs Hin.
    rewrite ddl_to_schema_spec in Hs. injection Hs as <-.
    pose proof (fold_store_block_values (blocks_of sql_text) [] (Forall_nil _)) as H.
    rewrite Forall_forall in H. exact (H _ Hin).
  - intros tables blk Hb Hc. rewrite process_block_spec by assumption.
    unfold store_block. now rewrite (constraint_only_columns blk Hc).
  - intros sql_text tables blocks k Hs Hb Hc.
    rewrite (ddl_to_schema_blocks sql_text tables blocks Hs Hb).
    rewrite dict_get_fold_store_block. apply last_write_silent.
    intros blk Hin Hk. apply constraint_only_columns. now apply Hc.
  - vm_compute. reflexivity.
Qed.

(** A constraint-only statement for [t] next to a statement for [u]: [t] is
    no key of the mapping. *)
Lemma constraint_only_table_is_absent :
  let sql_text := lit "CREATE TABLE t (PRIMARY KEY (a)); CREATE TABLE u (b INT)" in
  exists tables,
    ddl_to_schema sql_text = Ok tables
    /\ dict_get tables (lit "u") = Some [lit "b"]
    /\ dict_get tables (lit "t") = None.
Proof.
  intros sql_text.
  exists [(lit "u", [lit "b"])].
  assert (Hs : ddl_to_schema sql_text = Ok [(lit "u", [lit "b"])])
    by (vm_compute; reflexivity).
  refine (conj Hs (conj eq_refl _)).
  refine (proj1 (proj2 (proj2 no_table_with_empty_column_list))
            sql_text _
            [mk_block (lit "t") (lit "PRIMARY KEY (a)");
             mk_block (lit "u") (lit "b INT")]
            (lit "t") Hs _ _).
  - vm_compute. reflexivity.
  - intros blk [<-|[<-|[]]] Hk.
    + exists [lit "PRIMARY KEY (a)"]. split; [vm_compute; reflexivity|].
      repeat constructor.
    + vm_compute in Hk. discriminate.
Defined.

(** ** Last write wins *)

(** C7, as amended: when several statements name the same normalized table,
    the mapping holds the column list of the last one of them that yields at
    least one column. *)
Theorem last_write_wins :
  forall sql_text tables bs1 blk bs2,
    ddl_to_schema sql_text = Ok tables ->
    find_create_table_blocks sql_text = Ok (bs1 ++ blk :: bs2) ->
    block_columns blk <> [] ->
    (forall blk', In blk' bs2 -> block_table blk' = block_table blk ->
                  block_columns blk' = []) ->
    dict_get tables (block_table blk) = Some (block_columns blk).
Proof.
  intros sql_text tables bs1 blk bs2 Hs Hb Hcols Hlast.
  rewrite (ddl_to_schema_blocks sql_text tables _ Hs Hb).
  rewrite dict_get_fold_store_block.
  replace (bs1 ++ blk :: bs2) with ((bs1 ++ [blk]) ++ bs2)
    by now rewrite <- app_assoc.
  rewrite last_write_app, last_write_silent by assumption.
  rewrite last_write_app. unfold last_write at 1. simpl.
  apply nonempty_true in Hcols. now rewrite Hcols, str_eqb_refl.
Qed.

Lemma last_write_wins_two_statements :
  let sql_text := lit "CREATE TABLE t (a INT); CREATE TABLE [t] (b INT, c INT)" in
  exists tables,
    ddl_to_schema sql_text = Ok tables
    /\ dict_get tables (lit "t") = Some [lit "b"; lit "c"].
Proof.
  intros sql_text.
  exists [(lit "t", [lit "b"; lit "c"])].
  assert (Hs : ddl_to_schema sql_text = Ok [(lit "t", [lit "b"; lit "c"])])
    by (vm_compute; reflexivity).
  refine (conj Hs _).
  refine (last_write_wins sql_text _
            [mk_block (lit "t") (lit "a INT")]
            (mk_block (lit "[t]") (lit "b INT, c INT")) [] Hs _ _ _).
  - vm_compute. reflexivity.
  - vm_compute. discriminate.
  - intros blk' [].
Defined.

(** The unamended reading fails: the second statement for [t] is the last
    one of that name and yields no column, and the mapping still holds the
    columns of the first. *)
Lemma last_occurrence_without_columns_does_not_win :
  ~ last_occurrence_wins
      (lit "CREATE TABLE t (a INT); CREATE TABLE t (PRIMARY KEY (a))").
Proof.
  intros H.
  specialize (H [(lit "t", [lit "a"])]
                [mk_block (lit "t") (lit "a INT")]
                (mk_block (lit "t") (lit "PRIMARY KEY (a)")) []).
  assert (E : dict_get [(lit "t", [lit "a"])]
                (block_table (mk_block (lit "t") (lit "PRIMARY KEY (a)")))
              = Some (block_columns (mk_block (lit "t") (lit "PRIMARY KEY (a)")))).
  { apply H; [vm_compute; reflexivity | vm_compute; reflexivity | intros blk' []]. }
  vm_compute in E. discriminate.
Qed.

(** ** The parenthesis scan *)




Lemma scan_close_list_map (f : ascii -> ascii) (s : str) (i : nat) (d : Z) :
  (forall c, paren_value (f c) = paren_value c) ->
  scan_close_list (map f s) i d = scan_close_list s i d.
Proof.
  intros Hf. revert i d; induction s as [|ch s IH]; intros i d; [reflexivity|].
  cbn [map scan_close_list]. specialize (Hf ch). unfold paren_value in Hf.
  destruct (Ascii.eqb (f ch) "("), (Ascii.eqb ch "("); try discriminate; auto;
    destruct (Ascii.eqb (f ch) ")"), (Ascii.eqb ch ")"); try discriminate; auto.
  now rewrite IH.
Qed.

Lemma unquote_char_paren (c : ascii) : paren_value (unquote_char c) = paren_value c.
Proof.
  unfold unquote_char.
  destruct (Ascii.eqb c "'") eqn:E1; [apply Ascii.eqb_eq in E1 as ->; reflexivity|].
  destruct (Ascii.eqb c dquote) eqn:E2; [apply Ascii.eqb_eq in E2 as ->|];
    reflexivity.
Qed.

(** ** Stripping *)

Lemma drop_while_snoc (p : ascii -> bool) (s : str) (b : ascii) :
  p b = false -> drop_while p (s ++ [b]) = drop_while p s ++ [b].
Proof.
  intros Hb. induction s as [|c s IH]; simpl; [now rewrite Hb|].
  now destruct (p c).
Qed.

Lemma py_rstrip_snoc (s : str) (b : ascii) :
  py_isspace b = false -> py_rstrip (s ++ [b]) = s ++ [b].
Proof.
  intros Hb. unfold py_rstrip. rewrite rev_app_distr. simpl.
  rewrite Hb. simpl. now rewrite rev_involutive.
Qed.

Lemma py_rstrip_cons (a : ascii) (s : str) :
  py_isspace a = false -> py_rstrip (a :: s) = a :: py_rstrip s.
Proof.
  intros Ha. unfold py_rstrip. simpl.
  rewrite drop_while_snoc by assumption. rewrite rev_app_distr. reflexivity.
Qed.

Lemma py_strip_cons (a : ascii) (s : str) :
  py_isspace a = false -> py_strip (a :: s) = a :: py_rstrip s.
Proof.
  intros Ha. unfold py_strip, py_lstrip. simpl. rewrite Ha.
  now apply py_rstrip_cons.
Qed.

Lemma py_strip_between (a b : ascii) (m : str) :
  py_isspace a = false -> py_isspace b = false ->
  py_strip (a :: m ++ [b]) = a :: m ++ [b].
Proof.
  intros Ha Hb. rewrite py_strip_cons by assumption.
  now rewrite py_rstrip_snoc.
Qed.

(** ** The splitter inside quotes and parentheses *)







(** ** Nesting and quoting *)



(** C10: the parenthesis scan of the block scanner does not know about
    quotes: it returns the same end on a text and on the text with every
    quote character blanked out.  So a quoted closing parenthesis ends the
    block: for [CREATE TABLE t (a VARCHAR(5) DEFAULT ')', b INT)] the body
    stops in front of the quoted parenthesis and the mapping is [{t: [a]}],
    without the column [b]. *)
Theorem paren_scan_counts_quoted_parentheses :
  (forall sql_text o,
      scan_close (S (length sql_text)) (map unquote_char sql_text)
        (length sql_text) o 0%Z
      = scan_close (S (length sql_text)) sql_text (length sql_text) o 0%Z)
  /\ find_create_table_blocks
       (lit "CREATE TABLE t (a VARCHAR(5) DEFAULT ')', b INT)")
     = Ok [mk_block (lit "t") (lit "a VARCHAR(5) DEFAULT '")]
  /\ ddl_to_schema (lit "CREATE TABLE t (a VARCHAR(5) DEFAULT ')', b INT)")
     = Ok [(lit "t", [lit "a"])].
Proof.
  repeat apply conj.
  - intros sql_text o.
    rewrite <- (length_map unquote_char sql_text) at 1 2.
    rewrite !scan_close_spec by (rewrite ?length_map; lia).
    rewrite skipn_map. f_equal. apply scan_close_list_map, unquote_char_paren.
  - vm_compute. reflexivity.
  - vm_compute. reflexivity.
Qed.


(** ** Characters *)

Lemma word_char_not_special (c : ascii) :
  is_word_char c = true ->
  py_isspace c = false
  /\ Ascii.eqb c "." = false /\ Ascii.eqb c "[" = false
  /\ Ascii.eqb c "]" = false /\ Ascii.eqb c dquote = false
  /\ Ascii.eqb c "'" = false /\ Ascii.eqb c "," = false
  /\ Ascii.eqb c "(" = false /\ Ascii.eqb c ")" = false
  /\ Ascii.eqb c "`" = false.
Proof.
  ascii_cases c; intros H; try discriminate H; vm_compute; repeat split.
Qed.

Lemma forallb_rev {A : Type} (f : A -> bool) (l : list A) :
  forallb f (rev l) = forallb f l.
Proof.
  induction l as [|a l IH]; simpl; [reflexivity|].
  rewrite forallb_app, IH. simpl. rewrite andb_true_r. apply andb_comm.
Qed.

(** ** The normalizer on bare names *)

Lemma py_strip_bare (s : str) :
  match s with [] => True | a :: _ => py_isspace a = false end ->
  match rev s with [] => True | b :: _ => py_isspace b = false end ->
  py_strip s = s.
Proof.
  intros Hf Hb. unfold py_strip, py_lstrip, py_rstrip.
  assert (E : drop_while py_isspace s = s).
  { destruct s as [|a m]; [reflexivity|]. simpl. now rewrite Hf. }
  rewrite E.
  destruct (rev s) as [|b r] eqn:Er.
  - simpl. apply (f_equal (@rev ascii)) in Er. rewrite rev_involutive in Er.
    now subst.
  - simpl. rewrite Hb. rewrite <- Er. apply rev_involutive.
Qed.

Lemma strip_brackets_and_quotes_bare (s : str) :
  is_bare s = true -> strip_brackets_and_quotes s = Ok s.
Proof.
  unfold is_bare. intros H.
  apply andb_true_iff in H as [H Hb]. apply andb_true_iff in H as [Hd Hf].
  apply negb_true_iff in Hd.
  destruct s as [|a m]; [reflexivity|].
  apply negb_true_iff in Hf. unfold strippable_front in Hf.
  apply orb_false_iff in Hf as [Hf Haq]. apply orb_false_iff in Hf as [Hf Had].
  apply orb_false_iff in Hf as [Hf Hab].
  destruct (rev (a :: m)) as [|b r] eqn:Er.
  { apply (f_equal (@length ascii)) in Er. rewrite length_rev in Er. discriminate. }
  apply negb_true_iff in Hb. unfold strippable_back in Hb.
  apply orb_false_iff in Hb as [Hb Hbq]. apply orb_false_iff in Hb as [Hb Hbd].
  apply orb_false_iff in Hb as [Hb Hbb].
  assert (Es : py_strip (a :: m) = a :: m).
  { apply py_strip_bare; [assumption | now rewrite Er]. }
  assert (S1 : forall c, py_startswith (a :: m) [c] = Ascii.eqb c a).
  { intros c. simpl. destruct m; apply andb_true_r. }
  assert (S2 : forall c, py_endswith (a :: m) [c] = Ascii.eqb c b).
  { intros c. unfold py_endswith. rewrite Er. simpl. destruct r; apply andb_true_r. }
  unfold strip_brackets_and_quotes. cbn [nonempty negb].
  rewrite Es, Hd. cbn [bind].
  change (lit "[") with ["["%char]. change (lit "]") with ["]"%char].
  change (lit "'") with ["'"%char].
  rewrite !S1. rewrite (Ascii.eqb_sym "[" a), Hab. cbn [andb].
  rewrite !S2. rewrite (Ascii.eqb_sym "]" b), Hbb.
  rewrite !S1.
  rewrite (Ascii.eqb_sym dquote a), (Ascii.eqb_sym "'" a), Had, Haq.
  cbn [andb orb]. rewrite !S2.
  rewrite (Ascii.eqb_sym dquote b), (Ascii.eqb_sym "'" b), Hbd, Hbq.
  cbn [orb]. now rewrite Es.
Qed.

Lemma py_startswith_nil (s : str) : py_startswith s [] = true.
Proof. now destruct s. Qed.

Lemma word_no_char (c0 : ascii) (w : str) :
  is_word_char c0 = false -> forallb is_word_char w = true ->
  existsb (Ascii.eqb c0) w = false.
Proof.
  intros H0 Hw. induction w as [|c w IH]; simpl in *; [reflexivity|].
  apply andb_true_iff in Hw as [Hc Hw]. rewrite (IH Hw), orb_false_r.
  destruct (Ascii.eqb c0 c) eqn:E; [|reflexivity].
  apply Ascii.eqb_eq in E as ->. congruence.
Qed.

Lemma word_is_bare (w : str) : is_word w = true -> is_bare w = true.
Proof.
  unfold is_word, is_bare. intros H. apply andb_true_iff in H as [Hn Hw].
  unfold py_contains. rewrite (word_no_char "." w eq_refl Hw). cbn [negb andb].
  apply andb_true_iff; split.
  - destruct w as [|a m]; [reflexivity|]. simpl in Hw.
    apply andb_true_iff in Hw as [Ha _].
    destruct (word_char_not_special a Ha) as (E1 & _ & E2 & _ & E3 & E4 & _).
    unfold strippable_front. now rewrite E1, E2, E3, E4.
  - rewrite <- forallb_rev in Hw. destruct (rev w) as [|b r]; [reflexivity|].
    simpl in Hw. apply andb_true_iff in Hw as [Hb _].
    destruct (word_char_not_special b Hb) as (E1 & _ & _ & E2 & E3 & E4 & _).
    unfold strippable_back. now rewrite E1, E2, E3, E4.
Qed.

Lemma is_bare_ends (s : str) :
  is_bare s = true ->
  py_contains "." s = false
  /\ match s with [] => True | a :: _ => strippable_front a = false end
  /\ match rev s with [] => True | b :: _ => strippable_back b = false end.
Proof.
  unfold is_bare. intros H.
  apply andb_true_iff in H as [H Hb]. apply andb_true_iff in H as [Hd Hf].
  apply negb_true_iff in Hd. repeat split; [assumption | |].
  - destruct s; [exact I | now apply negb_true_iff].
  - destruct (rev s); [exact I | now apply negb_true_iff].
Qed.

Lemma strippable_front_space (c : ascii) :
  strippable_front c = false -> py_isspace c = false.
Proof.
  unfold strippable_front. intros H.
  now do 3 (apply orb_false_iff in H as [H _]).
Qed.

Lemma strippable_back_space (c : ascii) :
  strippable_back c = false -> py_isspace c = false.
Proof.
  unfold strippable_back. intros H.
  now do 3 (apply orb_false_iff in H as [H _]).
Qed.

Lemma py_strip_is_bare (s : str) : is_bare s = true -> py_strip s = s.
Proof.
  intros H. destruct (is_bare_ends s H) as (_ & Hf & Hb).
  apply py_strip_bare.
  - destruct s; [exact I | now apply strippable_front_space].
  - destruct (rev s); [exact I | now apply strippable_back_space].
Qed.

(** A bare name in brackets loses the brackets. *)
Lemma strip_brackets_and_quotes_bracketed (w : str) :
  is_bare w = true ->
  strip_brackets_and_quotes (lit "[" ++ w ++ lit "]") = Ok w.
Proof.
  intros Hw. change (lit "[" ++ w ++ lit "]") with ("["%char :: w ++ ["]"%char]).
  destruct (is_bare_ends w Hw) as (Hd & Hf & Hb).
  unfold strip_brackets_and_quotes. cbn [nonempty negb].
  rewrite py_strip_between by reflexivity.
  assert (Ed : py_contains "." ("["%char :: w ++ ["]"%char]) = false).
  { unfold py_contains in *. cbn [existsb]. rewrite existsb_app, Hd. reflexivity. }
  rewrite Ed. cbn [bind].
  assert (E1 : py_startswith ("["%char :: w ++ ["]"%char]) (lit "[") = true).
  { cbn. apply py_startswith_nil. }
  assert (E2 : py_endswith ("["%char :: w ++ ["]"%char]) (lit "]") = true).
  { unfold py_endswith. change ("["%char :: w ++ ["]"%char])
      with (["["%char] ++ w ++ ["]"%char]).
    rewrite !rev_app_distr. cbn. apply py_startswith_nil. }
  rewrite E1, E2. cbn [andb].
  assert (E3 : slice_1_m1 ("["%char :: w ++ ["]"%char]) = w).
  { unfold slice_1_m1. cbn [tl]. apply removelast_last. }
  rewrite E3.
  assert (Q1 : forall c, strippable_front c = true ->
                         py_startswith w [c] = false).
  { intros c Hc. destruct w as [|a m]; [reflexivity|]. cbn.
    destruct (Ascii.eqb c a) eqn:E; [|reflexivity].
    apply Ascii.eqb_eq in E as ->. congruence. }
  assert (Q2 : forall c, strippable_back c = true -> py_endswith w [c] = false).
  { intros c Hc. unfold py_endswith. destruct (rev w) as [|b r]; [reflexivity|]. cbn.
    destruct (Ascii.eqb c b) eqn:E; [|reflexivity].
    apply Ascii.eqb_eq in E as ->. congruence. }
  change (lit "'") with ["'"%char].
  rewrite (Q1 dquote), (Q1 "'"%char) by reflexivity. cbn [andb orb].
  rewrite (Q2 dquote), (Q2 "'"%char) by reflexivity. cbn [orb].
  now rewrite py_strip_is_bare.
Qed.

Lemma drop_while_app_stop (p : ascii -> bool) (q : str) (c : ascii) (r : str) :
  p c = false -> drop_while p (q ++ c :: r) = drop_while p q ++ c :: r.
Proof.
  intros Hc. induction q as [|a q IH]; simpl; [now rewrite Hc|].
  now destruct (p a).
Qed.

Lemma last_cons_default {A : Type} (l : list A) (a d1 d2 : A) :
  last (a :: l) d1 = last (a :: l) d2.
Proof.
  revert a; induction l as [|b l IH]; intros a; [reflexivity|].
  change (last (b :: l) d1 = last (b :: l) d2). apply IH.
Qed.

Lemma py_split_on_single (sep : ascii) (z p : str) :
  py_split_on sep z = [p] -> z = p /\ existsb (Ascii.eqb sep) z = false.
Proof.
  revert p; induction z as [|d z IH]; intros p H; simpl in H.
  - injection H as <-. auto.
  - destruct (Ascii.eqb d sep) eqn:E.
    + injection H as _ H. now apply py_split_on_nonempty in H.
    + destruct (py_split_on sep z) as [|p' ps'] eqn:Ez;
        [now apply py_split_on_nonempty in Ez|].
      injection H as <- ->. destruct (IH p' eq_refl) as [-> He].
      split; [reflexivity|]. simpl. now rewrite He, Ascii.eqb_sym, E.
Qed.

Lemma py_split_on_no_sep (sep : ascii) (y : str) :
  existsb (Ascii.eqb sep) y = false -> py_split_on sep y = [y].
Proof.
  induction y as [|c y IH]; intros Hy; [reflexivity|]. simpl in *.
  apply orb_false_iff in Hy as [Hc Hy]. rewrite Ascii.eqb_sym, Hc.
  now rewrite (IH Hy).
Qed.

Lemma py_split_on_last (sep : ascii) (x y : str) :
  existsb (Ascii.eqb sep) y = false ->
  exists p ps, py_split_on sep (x ++ sep :: y) = p :: ps /\ last ps p = y.
Proof.
  intros Hy. induction x as [|c x IH]; simpl.
  - rewrite Ascii.eqb_refl, (py_split_on_no_sep sep y Hy). now exists [], [y].
  - destruct IH as (p & ps & E & El). rewrite E.
    destruct (Ascii.eqb c sep).
    + exists [], (p :: ps). split; [reflexivity|].
      destruct ps as [|p' ps']; [exact El|].
      change (last (p' :: ps') [] = y). rewrite <- El. apply last_cons_default.
    + exists (c :: p), ps. split; [reflexivity|].
      destruct ps as [|p' ps']; [|rewrite <- El; apply last_cons_default].
      apply py_split_on_single in E as [_ E].
      rewrite existsb_app in E. simpl in E.
      rewrite Ascii.eqb_refl, orb_true_r in E. discriminate.
Qed.

Lemma py_getitem_last_split_on (sep : ascii) (q y : str) :
  existsb (Ascii.eqb sep) y = false ->
  py_getitem_last (py_split_on sep (q ++ sep :: y)) = Ok y.
Proof.
  intros Hy. destruct (py_split_on_last sep q y Hy) as (p & ps & -> & El).
  simpl. now rewrite El.
Qed.

Lemma py_rstrip_end (s : str) :
  match rev s with [] => True | b :: _ => py_isspace b = false end ->
  py_rstrip s = s.
Proof.
  intros H. unfold py_rstrip. destruct (rev s) as [|b r] eqn:Er.
  - simpl. apply (f_equal (@rev ascii)) in Er. now rewrite rev_involutive in Er.
  - simpl. rewrite H, <- Er. apply rev_involutive.
Qed.

(** A schema prefix is dropped: the normalizer only reads what follows the
    last dot. *)
Lemma strip_brackets_and_quotes_qualified (q y : str) :
  y <> [] ->
  match y with [] => True | a :: _ => py_isspace a = false end ->
  match rev y with [] => True | b :: _ => py_isspace b = false end ->
  py_contains "." y = false ->
  strip_brackets_and_quotes (q ++ "."%char :: y) = strip_brackets_and_quotes y.
Proof.
  intros Hne Hf Hb Hd.
  assert (Ey : py_strip y = y) by now apply py_strip_bare.
  assert (Es : py_strip (q ++ "."%char :: y)
               = drop_while py_isspace q ++ "."%char :: y).
  { unfold py_strip, py_lstrip. rewrite drop_while_app_stop by reflexivity.
    apply py_rstrip_end. rewrite rev_app_distr. cbn [rev]. rewrite <- app_assoc.
    destruct (rev y) as [|b r] eqn:Er; [|exact Hb].
    apply (f_equal (@rev ascii)) in Er. rewrite rev_involutive in Er. contradiction. }
  unfold strip_brackets_and_quotes.
  replace (nonempty (q ++ "."%char :: y)) with true by now destruct q.
  replace (nonempty y) with true by now destruct y.
  cbn [negb]. rewrite Es, Ey, Hd.
  replace (py_contains "." (drop_while py_isspace q ++ "."%char :: y)) with true.
  2:{ unfold py_contains. rewrite existsb_app. simpl. now rewrite orb_true_r. }
  rewrite py_getitem_last_split_on by exact Hd.
  cbn [bind]. now rewrite Ey.
Qed.

(** The normalizer on the forms a table identifier takes. *)
Lemma strip_brackets_and_quotes_forms (q w : str) :
  is_word w = true ->
  strip_brackets_and_quotes w = Ok w
  /\ strip_brackets_and_quotes (lit "[" ++ w ++ lit "]") = Ok w
  /\ strip_brackets_and_quotes (q ++ lit "." ++ w) = Ok w
  /\ strip_brackets_and_quotes (q ++ lit "." ++ lit "[" ++ w ++ lit "]") = Ok w.
Proof.
  intros Hw. pose proof (word_is_bare w Hw) as Hbare.
  destruct (is_bare_ends w Hbare) as (Hd & Hf & Hb).
  assert (Hne : w <> []).
  { unfold is_word in Hw. destruct w; [discriminate | congruence]. }
  repeat split.
  - now apply strip_brackets_and_quotes_bare.
  - now apply strip_brackets_and_quotes_bracketed.
  - change (q ++ lit "." ++ w) with (q ++ "."%char :: w).
    rewrite strip_brackets_and_quotes_qualified; auto.
    + now apply strip_brackets_and_quotes_bare.
    + destruct w; [exact I | now apply strippable_front_space].
    + destruct (rev w); [exact I | now apply strippable_back_space].
  - change (q ++ lit "." ++ lit "[" ++ w ++ lit "]")
      with (q ++ "."%char :: (lit "[" ++ w ++ lit "]")).
    rewrite strip_brackets_and_quotes_qualified.
    + now apply strip_brackets_and_quotes_bracketed.
    + discriminate.
    + reflexivity.
    + change (lit "[" ++ w ++ lit "]") with (["["%char] ++ w ++ ["]"%char]).
      rewrite !rev_app_distr. reflexivity.
    + unfold py_contains in *. change (lit "[" ++ w ++ lit "]")
        with ("["%char :: w ++ ["]"%char]).
      cbn [existsb]. rewrite existsb_app, Hd. reflexivity.
Qed.

(** ** Normalization of identifiers *)

(** C4, as amended: the schema-qualified, bracketed and plain forms of a
    table identifier normalize to the same bare name (both statements of the
    specification yield the table key [Orders]), and the normalizer returns
    every bare name unchanged: a name without a dot whose first and last
    characters are neither whitespace nor a bracket or quote the normalizer
    strips; every word of letters, digits and underscores is such a name. *)
Theorem normalizer_forms_and_bare_names :
  (forall q w, is_word w = true ->
      strip_brackets_and_quotes w = Ok w
      /\ strip_brackets_and_quotes (lit "[" ++ w ++ lit "]") = Ok w
      /\ strip_brackets_and_quotes (q ++ lit "." ++ w) = Ok w
      /\ strip_brackets_and_quotes (q ++ lit "." ++ lit "[" ++ w ++ lit "]") = Ok w)
  /\ (forall s, is_bare s = true -> strip_brackets_and_quotes s = Ok s)
  /\ (forall w, is_word w = true -> is_bare w = true)
  /\ ddl_to_schema (lit "CREATE TABLE [dbo].[Orders] ([OrderId] INT)")
     = Ok [(lit "Orders", [lit "OrderId"])]
  /\ ddl_to_schema (lit "CREATE TABLE Orders (OrderId INT)")
     = Ok [(lit "Orders", [lit "OrderId"])].
Proof.
  repeat apply conj.
  - exact strip_brackets_and_quotes_forms.
  - exact strip_brackets_and_quotes_bare.
  - exact word_is_bare.
  - vm_compute. reflexivity.
  - vm_compute. reflexivity.
Qed.

Lemma normalizer_on_orders :
  strip_brackets_and_quotes (lit "Orders") = Ok (lit "Orders")
  /\ strip_brackets_and_quotes (lit "[" ++ lit "Orders" ++ lit "]")
     = Ok (lit "Orders")
  /\ strip_brackets_and_quotes (lit "[dbo]" ++ lit "." ++ lit "Orders")
     = Ok (lit "Orders")
  /\ strip_brackets_and_quotes
       (lit "[dbo]" ++ lit "." ++ lit "[" ++ lit "Orders" ++ lit "]")
     = Ok (lit "Orders").
Proof.
  exact (proj1 normalizer_forms_and_bare_names (lit "[dbo]") (lit "Orders") eq_refl).
Defined.

(** The normalizer is not idempotent on all of its outputs: it strips one
    layer of brackets at a time. *)
Lemma normalizer_strips_one_layer :
  ~ normalizer_idempotent.
Proof.
  intros H. specialize (H (lit "[[a]]") (lit "[a]") eq_refl). discriminate H.
Qed.

(** ** The column definition parser *)




Lemma take_while_app_stop (p : ascii -> bool) (y ws : str) :
  forallb (fun c => negb (p c)) ws = true ->
  take_while p (y ++ ws) = take_while p y.
Proof.
  intros Hws. induction y as [|c y IH]; simpl.
  - destruct ws as [|d ws]; [reflexivity|]. simpl in *.
    apply andb_true_iff in Hws as [Hd _]. apply negb_true_iff in Hd.
    now rewrite Hd.
  - destruct (p c); [now rewrite IH | reflexivity].
Qed.

Lemma take_drop_while (p : ascii -> bool) (s : str) :
  take_while p s ++ drop_while p s = s.
Proof.
  induction s as [|c s IH]; simpl; [reflexivity|].
  destruct (p c); simpl; [now rewrite IH | reflexivity].
Qed.

Lemma take_while_all (p : ascii -> bool) (s : str) :
  forallb p (take_while p s) = true.
Proof.
  induction s as [|c s IH]; simpl; [reflexivity|].
  destruct (p c) eqn:E; simpl; [now rewrite E | reflexivity].
Qed.

Lemma py_rstrip_decompose (x : str) :
  exists ws, x = py_rstrip x ++ ws /\ forallb py_isspace ws = true.
Proof.
  exists (rev (take_while py_isspace (rev x))). split.
  - unfold py_rstrip. rewrite <- rev_app_distr, take_drop_while.
    now rewrite rev_involutive.
  - rewrite forallb_rev. apply take_while_all.
Qed.

Lemma spaces_are_no_word_chars (ws : str) :
  forallb py_isspace ws = true ->
  forallb (fun c => negb (is_word_char c)) ws = true.
Proof.
  induction ws as [|c ws IH]; simpl; [reflexivity|].
  intros H. apply andb_true_iff in H as [Hc Hws]. rewrite (IH Hws), andb_true_r.
  destruct (is_word_char c) eqn:E; [|reflexivity].
  destruct (word_char_not_special c E) as (E1 & _). congruence.
Qed.

Lemma take_while_word_rstrip (x : str) :
  take_while is_word_char (py_rstrip x) = take_while is_word_char x.
Proof.
  destruct (py_rstrip_decompose x) as (ws & E & Hws).
  rewrite E at 2. symmetry. now apply take_while_app_stop, spaces_are_no_word_chars.
Qed.

Lemma py_endswith_char (s : str) (c : ascii) :
  py_endswith s [c] = true -> exists x, s = x ++ [c].
Proof.
  unfold py_endswith. destruct (rev s) as [|b r] eqn:Er; simpl; [discriminate|].
  intros H. apply andb_true_iff in H as [H _]. apply Ascii.eqb_eq in H as <-.
  exists (rev r). apply (f_equal (@rev ascii)) in Er.
  now rewrite rev_involutive in Er.
Qed.

(** The text the name pattern is matched against: the stripped segment
    without a trailing comma. *)
Lemma parse_without_trailing_comma (c : ascii) (r : str) :
  is_word_char c = true ->
  exists r',
    (if py_endswith (c :: r) (lit ",")
     then py_strip (slice_to_m1 (c :: r)) else c :: r) = c :: r'
    /\ take_while is_word_char r' = take_while is_word_char r.
Proof.
  intros Hc. destruct (word_char_not_special c Hc) as (Hsp & _ & _ & _ & _ & _ & Hcomma & _).
  destruct (py_endswith (c :: r) (lit ",")) eqn:E; [|now exists r].
  apply py_endswith_char in E as (x & E).
  destruct x as [|c' x'].
  { simpl in E. injection E as -> _. discriminate Hcomma. }
  simpl in E. injection E as <- ->.
  unfold slice_to_m1. change (c :: x' ++ [","%char]) with ((c :: x') ++ [","%char]).
  rewrite removelast_last, py_strip_cons by assumption.
  exists (py_rstrip x'). split; [reflexivity|].
  rewrite take_while_word_rstrip. symmetry. now apply take_while_app_stop.
Qed.

(** A segment that starts with a bare identifier and with no constraint
    keyword declares that identifier. *)
Lemma parse_bare_identifier (seg : str) (c : ascii) (r : str) :
  py_strip seg = c :: r ->
  is_word_char c = true ->
  re_table_constraint (c :: r) = false ->
  parse_column_name_from_def seg = Ok (take_while is_word_char (c :: r)).
Proof.
  intros Es Hc Hk. unfold parse_column_name_from_def. rewrite Es, Hk.
  destruct (parse_without_trailing_comma c r Hc) as (r' & -> & Er).
  destruct (word_char_not_special c Hc)
    as (Hsp & _ & Hbr & _ & Hdq & _ & _ & _ & _ & Hbt).
  unfold re_column_name. cbn [drop_while]. rewrite Hsp.
  unfold re_opened. rewrite Hbr, Hdq, Hbt.
  cbn [take_while]. rewrite Hc. cbn [nonempty]. rewrite Er.
  apply strip_brackets_and_quotes_bare, word_is_bare.
  unfold is_word. simpl. now rewrite Hc, take_while_all.
Qed.

Lemma take_while_app_exact (p : ascii -> bool) (w : str) (c : ascii) (r : str) :
  forallb p w = true -> p c = false ->
  take_while p (w ++ c :: r) = w /\ drop_while p (w ++ c :: r) = c :: r.
Proof.
  intros Hw Hc. induction w as [|a w IH]; simpl in *; [now rewrite Hc|].
  apply andb_true_iff in Hw as [Ha Hw]. rewrite Ha.
  destruct (IH Hw) as [-> ->]. auto.
Qed.

Lemma py_rstrip_app_stop (a : str) (c : ascii) (b : str) :
  py_isspace c = false -> py_rstrip (a ++ c :: b) = a ++ c :: py_rstrip b.
Proof.
  intros Hc. unfold py_rstrip. rewrite rev_app_distr. cbn [rev].
  rewrite <- app_assoc. cbn [app].
  rewrite drop_while_app_stop by assumption.
  rewrite rev_app_distr. cbn [rev]. rewrite rev_involutive.
  now rewrite <- app_assoc.
Qed.









(** ** Well-formed statements *)

(** C1, at the inputs that show the defect: a column whose name merely
    begins with the letters of a constraint keyword is taken for a
    table-level constraint and dropped; when it is the only column the table
    itself is missing from the mapping. *)
Theorem keyword_prefixed_column_is_dropped :
  ddl_to_schema (lit "CREATE TABLE t (id INT, index_no INT, checksum INT, a INT)")
  = Ok [(lit "t", [lit "id"; lit "a"])]
  /\ ddl_to_schema (lit "CREATE TABLE t (checksum INT)") = Ok []
  /\ parse_column_name_from_def (lit "checksum INT") = Ok []
  /\ leading_keyword (lit "checksum INT") = false.
Proof. repeat split; vm_compute; reflexivity. Qed.

(** ** The registry round trip *)

Lemma dict_setitem_fresh {V : Type} (d : dict V) (k : str) (v : V) :
  ~ In k (dict_keys d) -> dict_setitem d k v = d ++ [(k, v)].
Proof.
  induction d as [|[k' v'] d IH]; simpl; intros H; [reflexivity|].
  destruct (str_eqb k' k) eqn:E.
  - apply str_eqb_eq in E. tauto.
  - rewrite IH by tauto. reflexivity.
Qed.

Lemma universal_newlines_id (s : str) :
  forallb (fun c => negb (Ascii.eqb c "013")) s = true ->
  universal_newlines s = s.
Proof.
  induction s as [|c s IH]; simpl; [reflexivity|].
  intros H. apply andb_true_iff in H as [Hc Hs]. apply negb_true_iff in Hc.
  rewrite Hc. now rewrite IH.
Qed.

Lemma file_lines_from_line (cur l rest : str) :
  forallb (fun c => negb (Ascii.eqb c LF)) l = true ->
  file_lines_from cur (l ++ LF :: rest)
  = (cur ++ l ++ [LF]) :: file_lines_from [] rest.
Proof.
  revert cur; induction l as [|c l IH]; intros cur H; simpl.
  - reflexivity.
  - simpl in H. apply andb_true_iff in H as [Hc Hl]. apply negb_true_iff in Hc.
    rewrite Hc, IH by assumption. now rewrite <- app_assoc.
Qed.

Section RoundTrip.

Variable sha1_hexdigest : str -> str.
Variable set_iter : list str -> list str.
Variable json_dumps : json -> str.
Variable json_loads : str -> outcome json.

Local Abbreviation doc_of := (item_doc sha1_hexdigest set_iter).
Local Abbreviation line_of := (item_line sha1_hexdigest set_iter json_dumps).
Local Abbreviation round_trips := (codec_round_trips json_dumps json_loads).

Lemma registry_step_file (st : str * registry_db) (item : str * list str) :
  fst (registry_step sha1_hexdigest set_iter json_dumps st item)
  = fst st ++ line_of item.
Proof. destruct st as [f db], item as [table cols]. reflexivity. Qed.

Lemma build_registry_file_from (schema : dict (list str)) (st : str * registry_db) :
  fst (fold_left (registry_step sha1_hexdigest set_iter json_dumps) schema st)
  = fst st ++ concat (map line_of schema).
Proof.
  revert st; induction schema as [|item schema IH]; intros st; simpl.
  - now rewrite app_nil_r.
  - rewrite IH, registry_step_file. now rewrite <- app_assoc.
Qed.

(** The text of the registry file: one line per item of the schema, whatever
    the store held before. *)
Lemma build_registry_file (schema : dict (list str)) (db : registry_db) :
  fst (build_registry sha1_hexdigest set_iter json_dumps schema db)
  = concat (map line_of schema).
Proof. unfold build_registry. now rewrite build_registry_file_from. Qed.

Lemma round_trips_no_break (doc : json) :
  round_trips doc ->
  forallb (fun c => negb (Ascii.eqb c LF)) (json_dumps doc) = true
  /\ forallb (fun c => negb (Ascii.eqb c "013")) (json_dumps doc) = true.
Proof.
  intros [_ H]. rewrite forallb_forall in H.
  split; apply forallb_forall; intros c Hc; specialize (H c Hc);
    apply negb_true_iff in H; apply orb_false_iff in H as [H1 H2];
    now apply negb_true_iff.
Qed.

Lemma registry_text_no_cr (schema : dict (list str)) :
  Forall (fun item => round_trips (doc_of item)) schema ->
  forallb (fun c => negb (Ascii.eqb c "013")) (concat (map line_of schema)) = true.
Proof.
  intros H; induction H as [|item schema Hi _ IH]; simpl; [reflexivity|].
  unfold item_line at 1. rewrite !forallb_app, IH.
  destruct (round_trips_no_break _ Hi) as [_ Hcr].
  now rewrite Hcr.
Qed.

Lemma registry_text_lines (schema : dict (list str)) :
  Forall (fun item => round_trips (doc_of item)) schema ->
  file_lines_from [] (concat (map line_of schema)) = map line_of schema.
Proof.
  intros H; induction H as [|item schema Hi _ IH]; simpl; [reflexivity|].
  unfold item_line at 1. rewrite <- app_assoc. cbn [app].
  destruct (round_trips_no_break _ Hi) as [Hlf _].
  rewrite file_lines_from_line by assumption. now rewrite IH.
Qed.

Lemma load_lines_registry (schema : dict (list str)) (tables : dict json) :
  Forall (fun item => round_trips (doc_of item)) schema ->
  load_lines json_loads (map line_of schema) tables
  = Ok (fold_left (fun tb item => dict_setitem tb (fst item) (doc_of item))
                  schema tables).
Proof.
  intros H; revert tables; induction H as [|item schema Hi _ IH]; intros tables;
    simpl; [reflexivity|].
  destruct Hi as [Hl _]. unfold item_line at 1.
  rewrite Hl. cbn [bind].
  change (json_getitem (doc_of item) (lit "table")) with (Ok (JStr (fst item))).
  cbn [bind]. apply IH.
Qed.

Lemma fold_setitem_fresh (schema : dict (list str)) (tables : dict json) :
  NoDup (dict_keys tables ++ dict_keys schema) ->
  fold_left (fun tb item => dict_setitem tb (fst item) (doc_of item)) schema tables
  = tables ++ map (fun item => (fst item, doc_of item)) schema.
Proof.
  revert tables; induction schema as [|item schema IH]; intros tables H; simpl.
  - now rewrite app_nil_r.
  - assert (Hf : ~ In (fst item) (dict_keys tables)).
    { simpl in H. apply NoDup_remove_2 in H. intros Hin. apply H.
      apply in_or_app. now left. }
    rewrite dict_setitem_fresh by assumption.
    rewrite IH.
    + now rewrite <- app_assoc.
    + unfold dict_keys in *. rewrite map_app. simpl. rewrite <- app_assoc. exact H.
Qed.

Lemma dict_get_docs (schema : dict (list str)) (t : str) (cols : list str) :
  dict_get schema t = Some cols ->
  dict_get (map (fun item => (fst item, doc_of item)) schema) t
  = Some (doc_of (t, cols)).
Proof.
  induction schema as [|[k v] schema IH]; simpl; [discriminate|].
  destruct (str_eqb k t) eqn:E; [|exact IH].
  apply str_eqb_eq in E as ->. now intros [= ->].
Qed.

(** C9: writing a schema mapping to the registry file and reading the file
    back gives a mapping with the same tables in the same order; the
    document read back for a table holds the table name, the top columns
    [pick_top_columns cols 4] and the aliases derived from the name, so both
    are functions of the mapping alone; the aliases are, as a set, the
    normalized table name and its normalized underscore-separated parts; and
    the text written does not depend on what the store held before.  The
    libraries enter by their contracts: a set yields exactly its elements,
    and the JSON line of each document written holds no line break and
    decodes to the document. *)
Theorem registry_round_trip (schema : dict (list str)) (db : registry_db) :
  NoDup (dict_keys schema) ->
  (forall l a, In a (set_iter l) <-> In a l) ->
  Forall (fun item => round_trips (doc_of item)) schema ->
  exists tables,
    _load_registry json_loads
      (fst (build_registry sha1_hexdigest set_iter json_dumps schema db))
    = Ok tables
    /\ dict_keys tables = dict_keys schema
    /\ (forall t cols,
           dict_get schema t = Some cols ->
           dict_get tables t
           = Some (registry_doc sha1_hexdigest t (pick_top_columns cols 4)
                     (table_aliases set_iter t)))
    /\ (forall t a,
           In a (table_aliases set_iter t)
           <-> a = normalize t
               \/ exists part, In part (py_split_on "_" t) /\ a = normalize part)
    /\ (forall db',
           fst (build_registry sha1_hexdigest set_iter json_dumps schema db')
           = fst (build_registry sha1_hexdigest set_iter json_dumps schema db)).
Proof.
  intros Hnd Hset Hrt.
  exists (map (fun item => (fst item, doc_of item)) schema).
  repeat apply conj.
  - unfold _load_registry, file_lines. rewrite build_registry_file.
    rewrite universal_newlines_id by now apply registry_text_no_cr.
    rewrite registry_text_lines, load_lines_registry by assumption.
    now rewrite fold_setitem_fresh.
  - unfold dict_keys. rewrite map_map. reflexivity.
  - intros t cols Hg. now rewrite (dict_get_docs schema t cols Hg).
  - intros t a. unfold table_aliases. rewrite Hset. simpl. rewrite in_map_iff.
    split.
    + intros [<- | (part & <- & Hp)]; [now left | right; eauto].
    + intros [-> | (part & Hp & ->)]; [now left | right; eauto].
  - intros db'. now rewrite !build_registry_file.
Qed.

End RoundTrip.

(** The round trip on a schema of two tables, through the JSON text
    itself. *)
Lemma registry_round_trip_sample :
  exists tables,
    _load_registry JsonText.loads
      (fst (build_registry constant_digest set_elements JsonText.dumps
              sample_schema (mk_db [] [])))
    = Ok tables
    /\ dict_keys tables = [lit "pol_policies"; lit "Claims"]
    /\ dict_get tables (lit "pol_policies")
       = Some (registry_doc constant_digest (lit "pol_policies")
                 [lit "pol_policyid"; lit "cust_id"; lit "start_date";
                  lit "pol_name"]
                 [lit "pol_policies"; lit "pol"; lit "policies"]).
Proof.
  destruct (registry_round_trip constant_digest set_elements
              JsonText.dumps JsonText.loads sample_schema (mk_db [] []))
    as (tables & Hload & Hkeys & Hdocs & _).
  - repeat constructor; simpl; intuition discriminate.
  - intros l a. apply nodup_In.
  - repeat constructor; vm_compute; reflexivity.
  - exists tables. refine (conj Hload (conj Hkeys _)).
    exact (Hdocs (lit "pol_policies") _ eq_refl).
Defined.

(** ** The raw table identifier of an occurrence *)

Arguments py_isspace : simpl never.
Arguments lower_char : simpl never.

Lemma py_isspace_lower_char (c : ascii) :
  py_isspace (lower_char c) = py_isspace c.
Proof. ascii_cases c; reflexivity. Qed.

Lemma lower_char_paren (c : ascii) :
  Ascii.eqb (lower_char c) "(" = Ascii.eqb c "(".
Proof. ascii_cases c; reflexivity. Qed.

Lemma py_startswith_map (f : ascii -> ascii) (s p : str) :
  py_startswith (map f s) p = true ->
  exists a b, s = a ++ b /\ map f a = p.
Proof.
  revert s; induction p as [|k p IH]; intros s H.
  - now exists [], s.
  - destruct s as [|c s]; [discriminate|]. simpl in H.
    apply andb_true_iff in H as [Hk H]. apply Ascii.eqb_eq in Hk.
    destruct (IH s H) as (a & b & -> & <-).
    exists (c :: a), b. simpl. now rewrite Hk.
Qed.

(** The shape of the text at a position where it spells the keyword, in
    whatever case of the letters: its twelve characters, then the rest. *)
Lemma keyword_at (sql_text : str) (pos : nat) :
  py_lower (slice sql_text pos (pos + 12)) = keyword ->
  exists a b, skipn pos sql_text = a ++ b /\ map lower_char a = keyword.
Proof.
  intros H. exists (firstn 12 (skipn pos sql_text)), (skipn 12 (skipn pos sql_text)).
  split; [now rewrite firstn_skipn|].
  unfold slice in H. now replace (pos + 12 - pos) with 12 in H by lia.
Qed.

Lemma keyword_has_no_paren (a : str) :
  map lower_char a = keyword ->
  forallb (fun d => negb (Ascii.eqb "(" d)) a = true.
Proof.
  intros H.
  assert (E : forallb (fun d => negb (Ascii.eqb "(" d)) (map lower_char a) = true)
    by now rewrite H.
  rewrite forallb_forall in E. apply forallb_forall. intros d Hd.
  specialize (E (lower_char d) (in_map _ _ _ Hd)).
  now rewrite Ascii.eqb_sym, lower_char_paren, Ascii.eqb_sym in E.
Qed.

(** The span from the keyword to the parenthesis begins with the twelve
    characters of the keyword. *)
Lemma pre_span (sql_text : str) (pos o : nat) :
  py_lower (slice sql_text pos (pos + 12)) = keyword ->
  py_find sql_text (lit "(") pos = Some o ->
  exists a,
    map lower_char a = keyword
    /\ pos + 12 <= o
    /\ slice sql_text pos o = a ++ slice sql_text (pos + 12) o
    /\ slice sql_text (pos + 7) (pos + 12) = skipn 7 a.
Proof.
  intros Hk Ho.
  destruct (keyword_at sql_text pos Hk) as (a & b & Es & Ea).
  assert (La : length a = 12).
  { rewrite <- (length_map lower_char), Ea. reflexivity. }
  pose proof (py_find_spec _ _ _ _ Ho) as (Hle & _ & Hp).
  assert (Hge : pos + 12 <= o).
  { destruct (Nat.le_gt_cases (pos + 12) o) as [|Hlt]; [assumption|exfalso].
    replace o with ((o - pos) + pos) in Hp by lia.
    rewrite <- skipn_skipn, Es, skipn_app in Hp.
    destruct (skipn (o - pos) a) as [|c r] eqn:Er.
    { apply (f_equal (@length ascii)) in Er. rewrite length_skipn in Er.
      simpl in Er. lia. }
    change (lit "(") with ["("%char] in Hp. cbn [app py_startswith] in Hp.
    apply andb_true_iff in Hp as [Hp _].
    pose proof (keyword_has_no_paren a Ea) as Hn.
    rewrite forallb_forall in Hn.
    assert (Hin : In c a).
    { rewrite <- (firstn_skipn (o - pos) a), Er. apply in_or_app. right. now left. }
    specialize (Hn c Hin). now rewrite Hp in Hn. }
  exists a. repeat split; try assumption.
  - unfold slice. rewrite Es.
    replace (pos + 12) with (12 + pos) by lia.
    rewrite <- skipn_skipn, Es, skipn_app, La, Nat.sub_diag.
    rewrite skipn_all2 by lia. cbn [skipn app].
    rewrite firstn_app, La. rewrite firstn_all2 by lia.
    f_equal. f_equal. lia.
  - unfold slice. replace (pos + 7) with (7 + pos) by lia.
    rewrite <- skipn_skipn, Es.
    replace (pos + 12 - (7 + pos)) with 5 by lia.
    do 12 (destruct a as [|? a]; [discriminate La|]).
    destruct a; [reflexivity | discriminate La].
Qed.

Lemma space_of_lower (c k : ascii) :
  lower_char c = k -> py_isspace c = py_isspace k.
Proof. intros <-. symmetry. apply py_isspace_lower_char. Qed.

Lemma re_table_at_other (c : ascii) (s : str) :
  Ascii.eqb "c" (lower_char c) = false -> re_table_at (c :: s) = None.
Proof.
  intros H. unfold re_table_at.
  change (lit "create") with ("c"%char :: lit "reate").
  cbn [match_lit_ci]. now rewrite H.
Qed.

Lemma re_table_search_other (c : ascii) (s : str) :
  Ascii.eqb "c" (lower_char c) = false ->
  re_table_search (c :: s) = re_table_search s.
Proof. intros H. cbn [re_table_search]. now rewrite re_table_at_other. Qed.

Lemma space_is_not_c (c : ascii) :
  py_isspace c = true -> Ascii.eqb "c" (lower_char c) = false.
Proof. ascii_cases c; intros H; vm_compute in H; try discriminate H; reflexivity. Qed.

Lemma re_table_search_spaces (w : str) :
  forallb py_isspace w = true -> re_table_search w = None.
Proof.
  induction w as [|c w IH]; [reflexivity|]. cbn [forallb]. intros H.
  apply andb_true_iff in H as [Hc Hw].
  rewrite re_table_search_other by now apply space_is_not_c. now apply IH.
Qed.

Lemma all_spaces (w : str) :
  forallb py_isspace w = true ->
  take_while py_isspace w = w /\ drop_while py_isspace w = []
  /\ py_rstrip w = [].
Proof.
  intros H.
  assert (H1 : take_while py_isspace w = w /\ drop_while py_isspace w = []).
  { induction w as [|c w IH]; [now split|]. cbn [forallb] in H.
    apply andb_true_iff in H as [Hc Hw]. destruct (IH Hw) as [E1 E2].
    cbn [take_while drop_while]. now rewrite Hc, E1, E2. }
  destruct H1 as [H1 H2]. repeat split; try assumption.
  unfold py_rstrip. rewrite <- forallb_rev in H.
  clear H1 H2. induction (rev w) as [|c r IH]; [reflexivity|].
  cbn [forallb] in H. apply andb_true_iff in H as [Hc Hr].
  cbn [drop_while]. rewrite Hc. now apply IH.
Qed.

(** With nothing but whitespace between the keyword and the parenthesis,
    the raw table identifier is the second word of the keyword as the text
    spells it. *)
Lemma raw_table_of_keyword_only (a w : str) :
  map lower_char a = keyword -> forallb py_isspace w = true ->
  raw_table_of (a ++ w) = Ok (skipn 7 a).
Proof.
  intros Ea Hw.
  assert (La : length a = 12).
  { rewrite <- (length_map lower_char), Ea. reflexivity. }
  do 12 (destruct a as [|? a]; [discriminate La|]).
  destruct a; [clear La | discriminate La].
  unfold keyword in Ea. cbn [map] in Ea.
  change (lit "create table")
    with ["c"; "r"; "e"; "a"; "t"; "e"; " "; "t"; "a"; "b"; "l"; "e"]%char in Ea.
  injection Ea as E0 E1 E2 E3 E4 E5 E6 E7 E8 E9 E10 E11.
  assert (S0 : py_isspace a0 = false)
    by (rewrite (space_of_lower _ _ E0); reflexivity).
  assert (S1 : py_isspace a1 = false)
    by (rewrite (space_of_lower _ _ E1); reflexivity).
  assert (S2 : py_isspace a2 = false)
    by (rewrite (space_of_lower _ _ E2); reflexivity).
  assert (S3 : py_isspace a3 = false)
    by (rewrite (space_of_lower _ _ E3); reflexivity).
  assert (S4 : py_isspace a4 = false)
    by (rewrite (space_of_lower _ _ E4); reflexivity).
  assert (S5 : py_isspace a5 = false)
    by (rewrite (space_of_lower _ _ E5); reflexivity).
  assert (S6 : py_isspace a6 = true)
    by (rewrite (space_of_lower _ _ E6); reflexivity).
  assert (S7 : py_isspace a7 = false)
    by (rewrite (space_of_lower _ _ E7); reflexivity).
  assert (S8 : py_isspace a8 = false)
    by (rewrite (space_of_lower _ _ E8); reflexivity).
  assert (S9 : py_isspace a9 = false)
    by (rewrite (space_of_lower _ _ E9); reflexivity).
  assert (S10 : py_isspace a10 = false)
    by (rewrite (space_of_lower _ _ E10); reflexivity).
  assert (S11 : py_isspace a11 = false)
    by (rewrite (space_of_lower _ _ E11); reflexivity).
  destruct (all_spaces w Hw) as (Wt & Wd & Wr).
  assert (Hsearch : re_table_search
            ([a0; a1; a2; a3; a4; a5; a6; a7; a8; a9; a10; a11] ++ w) = None).
  { cbn [app].
    assert (Hat : re_table_at
              (a0 :: a1 :: a2 :: a3 :: a4 :: a5 :: a6 :: a7 :: a8 :: a9
                  :: a10 :: a11 :: w) = None).
    { unfold re_table_at. unfold lit.
      cbn [list_ascii_of_string match_lit_ci].
      rewrite E0, E1, E2, E3, E4, E5. cbn [Ascii.eqb Bool.eqb].
      cbn [take_while drop_while]. rewrite S6, S7. cbn [nonempty negb].
      cbn [match_lit_ci].
      rewrite E7, E8, E9, E10, E11. cbn [Ascii.eqb Bool.eqb].
      rewrite Wt, Wd. now destruct w. }
    change (re_table_search
              (a0 :: a1 :: a2 :: a3 :: a4 :: a5 :: a6 :: a7 :: a8 :: a9
                  :: a10 :: a11 :: w))
      with (match re_table_at
                    (a0 :: a1 :: a2 :: a3 :: a4 :: a5 :: a6 :: a7 :: a8 :: a9
                        :: a10 :: a11 :: w) with
            | Some g => Some g
            | None => re_table_search
                        (a1 :: a2 :: a3 :: a4 :: a5 :: a6 :: a7 :: a8 :: a9
                            :: a10 :: a11 :: w)
            end).
    rewrite Hat.
    rewrite !re_table_search_other
      by (rewrite ?E1, ?E2, ?E3, ?E4, ?E5, ?E6, ?E7, ?E8, ?E9, ?E10, ?E11;
          reflexivity).
    now apply re_table_search_spaces. }
  assert (Hstrip : py_strip
            ([a0; a1; a2; a3; a4; a5; a6; a7; a8; a9; a10; a11] ++ w)
          = [a0; a1; a2; a3; a4; a5; a6; a7; a8; a9; a10; a11]).
  { cbn [app]. rewrite py_strip_cons by assumption. f_equal.
    change (a1 :: a2 :: a3 :: a4 :: a5 :: a6 :: a7 :: a8 :: a9 :: a10 :: a11 :: w)
      with ([a1; a2; a3; a4; a5; a6; a7; a8; a9; a10] ++ a11 :: w).
    rewrite py_rstrip_app_stop by assumption. now rewrite Wr. }
  unfold raw_table_of. rewrite Hsearch, Hstrip.
  unfold py_split. cbn [split_ws_from app nonempty].
  rewrite S0, S1, S2, S3, S4, S5, S6, S7, S8, S9, S10, S11.
  cbn [split_ws_from app nonempty]. reflexivity.
Qed.

Lemma split_ws_from_tokens (cur s : str) :
  Forall (fun tok => tok <> []) (split_ws_from cur s).
Proof.
  revert cur; induction s as [|c s IH]; intros cur; cbn [split_ws_from].
  - destruct cur; repeat constructor. discriminate.
  - destruct (py_isspace c); [|apply IH].
    destruct cur; cbn [nonempty]; [apply IH|].
    constructor; [discriminate | apply IH].
Qed.

Lemma split_ws_from_started (cur s : str) :
  cur <> [] -> split_ws_from cur s <> [].
Proof.
  revert cur; induction s as [|c s IH]; intros cur Hc; cbn [split_ws_from].
  - destruct cur; [contradiction | discriminate].
  - destruct (py_isspace c).
    + destruct cur; [contradiction | discriminate].
    + apply IH. now destruct cur.
Qed.

Lemma last_In_cons {A : Type} (l : list A) (a : A) : In (last l a) (a :: l).
Proof.
  revert a; induction l as [|b l IH]; intros a; [now left|].
  right. rewrite (last_cons_default l b a b).
  replace (last (b :: l) b) with (last l b) by now destruct l.
  apply IH.
Qed.

(** The fallback of [raw_table_of] finds a token whenever the span it
    reads starts with the keyword. *)
Lemma fallback_token (sql_text : str) (pos o : nat) :
  py_lower (slice sql_text pos (pos + 12)) = keyword ->
  py_find sql_text (lit "(") pos = Some o ->
  exists tok,
    tok <> []
    /\ py_getitem_last (py_split (py_strip (slice sql_text pos o))) = Ok tok
    /\ (re_table_search (slice sql_text pos o) = None ->
        raw_table_of (slice sql_text pos o) = Ok tok).
Proof.
  intros Hk Ho.
  destruct (pre_span sql_text pos o Hk Ho) as (a & Ea & _ & Epre & _).
  destruct a as [|a0 a]; [discriminate Ea|].
  assert (S0 : py_isspace a0 = false).
  { injection Ea as E0 _. rewrite (space_of_lower _ _ E0). reflexivity. }
  assert (Esplit : exists rest,
             py_split (py_strip (slice sql_text pos o)) = split_ws_from [a0] rest).
  { exists (py_rstrip (a ++ slice sql_text (pos + 12) o)).
    rewrite Epre. cbn [app]. rewrite py_strip_cons by assumption.
    unfold py_split. cbn [split_ws_from]. now rewrite S0. }
  destruct Esplit as (rest & Esplit).
  pose proof (split_ws_from_tokens [a0] rest) as Htok.
  pose proof (split_ws_from_started [a0] rest ltac:(discriminate)) as Hne.
  destruct (split_ws_from [a0] rest) as [|t0 ts] eqn:Es; [contradiction|].
  assert (Hl : last ts t0 <> []).
  { rewrite Forall_forall in Htok. apply Htok, last_In_cons. }
  exists (last ts t0). repeat split.
  - exact Hl.
  - now rewrite Esplit.
  - intros Hs. unfold raw_table_of. rewrite Hs, Esplit.
    cbn [nonempty py_getitem_last bind].
    destruct (last ts t0); [contradiction | reflexivity].
Qed.

(** C8: wherever the text spells the keyword, in whatever case of the
    letters, and nothing but whitespace stands between it and the opening
    parenthesis, the raw table identifier is the second word of the keyword
    as the text spells it, and not the sentinel: the span the scanner reads
    starts at the keyword itself, so the fallback finds a non-empty token
    there.  For [CREATE TABLE (a INT)] the block is named [TABLE]. *)
Theorem empty_table_span_yields_keyword_word :
  (forall sql_text pos o,
      py_lower (slice sql_text pos (pos + 12)) = keyword ->
      py_find sql_text (lit "(") pos = Some o ->
      forallb py_isspace (slice sql_text (pos + 12) o) = true ->
      raw_table_of (slice sql_text pos o)
      = Ok (slice sql_text (pos + 7) (pos + 12)))
  /\ (forall sql_text pos o,
         py_lower (slice sql_text pos (pos + 12)) = keyword ->
         py_find sql_text (lit "(") pos = Some o ->
         exists tok,
           tok <> []
           /\ py_getitem_last (py_split (py_strip (slice sql_text pos o))) = Ok tok
           /\ (re_table_search (slice sql_text pos o) = None ->
               raw_table_of (slice sql_text pos o) = Ok tok))
  /\ find_create_table_blocks (lit "CREATE TABLE (a INT)")
     = Ok [mk_block (lit "TABLE") (lit "a INT")]
  /\ ddl_to_schema (lit "CREATE TABLE (a INT)") = Ok [(lit "TABLE", [lit "a"])].
Proof.
  repeat apply conj.
  - intros sql_text pos o Hk Ho Hw.
    destruct (pre_span sql_text pos o Hk Ho) as (a & Ea & _ & -> & ->).
    now apply raw_table_of_keyword_only.
  - exact fallback_token.
  - vm_compute. reflexivity.
  - vm_compute. reflexivity.
Qed.

Lemma lower_case_keyword_before_parenthesis :
  raw_table_of (slice (lit "x; create table   (a INT)") 3 18) = Ok (lit "table").
Proof.
  exact (proj1 empty_table_span_yields_keyword_word
           (lit "x; create table   (a INT)") 3 18 eq_refl eq_refl eq_refl).
Defined.

(** ** Statements of the simple shape *)

Lemma body_char_facts (c : ascii) :
  body_char c = true ->
  Ascii.eqb c "(" = false /\ Ascii.eqb c ")" = false
  /\ Ascii.eqb c "'" = false /\ Ascii.eqb c dquote = false
  /\ Ascii.eqb c "[" = false /\ Ascii.eqb c "]" = false.
Proof.
  ascii_cases c; intros H; vm_compute in H; try discriminate H;
    vm_compute; repeat split.
Qed.

Lemma word_chars_are_body_chars (w : str) :
  is_word w = true -> forallb body_char w = true.
Proof.
  unfold is_word. intros H. apply andb_true_iff in H as [_ H].
  induction w as [|c w IH]; [reflexivity|]. cbn [forallb] in *.
  apply andb_true_iff in H as [Hc Hw]. rewrite (IH Hw), andb_true_r.
  unfold body_char. now rewrite Hc.
Qed.

Lemma column_def_body (col : str * str) :
  simple_column col -> forallb body_char (column_def col) = true.
Proof.
  intros (Hn & Ht & _). unfold column_def.
  rewrite !forallb_app, (word_chars_are_body_chars (fst col)),
    (word_chars_are_body_chars (snd col)) by assumption.
  reflexivity.
Qed.

Lemma body_chars (cols : list (str * str)) :
  Forall simple_column cols ->
  forallb body_char (py_join (lit ", ") (map column_def cols)) = true.
Proof.
  intros H; induction H as [|col cols Hc Hcs IH]; [reflexivity|].
  cbn [map py_join]. destruct (map column_def cols) as [|d ds] eqn:E.
  - now apply column_def_body.
  - rewrite !forallb_app, IH, column_def_body by assumption. reflexivity.
Qed.

(** A column definition is trimmed, and whitespace in front of it is
    stripped away. *)
Lemma word_ends (w : str) :
  is_word w = true ->
  exists a m, w = a :: m /\ is_word_char a = true
              /\ exists b m', w = m' ++ [b] /\ is_word_char b = true.
Proof.
  unfold is_word. intros H. apply andb_true_iff in H as [Hn Hw].
  destruct w as [|a m]; [discriminate|]. exists a, m.
  cbn [forallb] in Hw. apply andb_true_iff in Hw as [Ha Hm].
  repeat split; try assumption.
  destruct (exists_last (l := a :: m) ltac:(discriminate)) as (m' & b & E).
  exists b, m'. split; [assumption|].
  assert (Hall : forallb is_word_char (a :: m) = true)
    by (cbn [forallb]; now rewrite Ha, Hm).
  rewrite E, forallb_app in Hall. apply andb_true_iff in Hall as [_ Hb].
  cbn [forallb] in Hb. now apply andb_true_iff in Hb as [Hb _].
Qed.

Lemma drop_while_app_all (p : ascii -> bool) (c0 s : str) :
  forallb p c0 = true -> drop_while p (c0 ++ s) = drop_while p s.
Proof.
  induction c0 as [|c c0 IH]; [reflexivity|]. cbn [forallb app drop_while].
  intros H. apply andb_true_iff in H as [-> H]. now apply IH.
Qed.

Lemma py_strip_column_def (c0 : str) (col : str * str) :
  forallb py_isspace c0 = true -> simple_column col ->
  py_strip (c0 ++ column_def col) = column_def col
  /\ exists a r, column_def col = a :: r /\ is_word_char a = true
                 /\ take_while is_word_char (a :: r) = fst col.
Proof.
  intros H0 (Hn & Ht & _). unfold column_def.
  destruct (word_ends _ Hn) as (a & m & En & Ha & _).
  destruct (word_ends _ Ht) as (_ & _ & _ & _ & b & m' & Et & Hb).
  destruct (word_char_not_special a Ha) as (Sa & _).
  destruct (word_char_not_special b Hb) as (Sb & _).
  split.
  - unfold py_strip, py_lstrip. rewrite drop_while_app_all by assumption.
    rewrite En. cbn [app drop_while]. rewrite Sa.
    rewrite py_rstrip_cons by assumption. f_equal.
    rewrite Et. rewrite !app_assoc. now apply py_rstrip_snoc.
  - exists a, (m ++ lit " " ++ snd col). rewrite En. repeat split; try assumption.
    change (a :: m ++ lit " " ++ snd col) with ((a :: m) ++ " "%char :: snd col).
    rewrite <- En.
    apply (take_while_app_exact is_word_char (fst col) " " (snd col));
      [|reflexivity].
    unfold is_word in Hn. now apply andb_true_iff in Hn as [_ Hn].
Qed.

(** The splitter on content without quotes, brackets, parentheses and
    commas. *)
Lemma fold_split_step_plain (w : str) (st : split_state) :
  in_sq st = false -> in_dq st = false -> in_br st = false ->
  forallb (fun c => plain_char c && negb (Ascii.eqb c ",")) w = true ->
  fold_left split_step w st = with_content st w.
Proof.
  revert st; induction w as [|c w IH]; intros [ps cu d sq dq br]; simpl;
    intros -> -> -> Hw.
  - unfold with_content; simpl. now rewrite app_nil_r.
  - apply andb_true_iff in Hw as [Hc Hw]. apply andb_true_iff in Hc as [Hc Hcomma].
    unfold plain_char in Hc. apply negb_true_iff in Hc, Hcomma.
    repeat (apply orb_false_iff in Hc as [Hc ?]).
    replace (Ascii.eqb c "'") with false by congruence.
    replace (Ascii.eqb c dquote) with false by congruence.
    replace (Ascii.eqb c "[") with false by congruence.
    replace (Ascii.eqb c "]") with false by congruence.
    replace (Ascii.eqb c "(") with false by congruence.
    replace (Ascii.eqb c ")") with false by congruence.
    rewrite Hcomma. simpl.
    rewrite IH by (simpl; auto). unfold with_content; simpl.
    now rewrite <- app_assoc.
Qed.

Lemma column_def_plain (col : str * str) :
  simple_column col ->
  forallb (fun c => plain_char c && negb (Ascii.eqb c ",")) (column_def col) = true.
Proof.
  intros (Hn & Ht & _). unfold column_def.
  assert (Hw : forall w, is_word w = true ->
             forallb (fun c => plain_char c && negb (Ascii.eqb c ",")) w = true).
  { intros w H. unfold is_word in H. apply andb_true_iff in H as [_ H].
    induction w as [|c w IH]; [reflexivity|]. cbn [forallb] in *.
    apply andb_true_iff in H as [Hc Hw]. rewrite (IH Hw), andb_true_r.
    destruct (word_char_not_special c Hc)
      as (_ & _ & E1 & E2 & E3 & E4 & E5 & E6 & E7 & _).
    unfold plain_char. now rewrite E1, E2, E3, E4, E5, E6, E7. }
  rewrite !forallb_app, (Hw (fst col)), (Hw (snd col)) by assumption.
  reflexivity.
Qed.

Lemma split_simple_body (cols : list (str * str)) (ps : list str) (c0 : str) :
  cols <> [] -> Forall simple_column cols -> forallb py_isspace c0 = true ->
  split_finish
    (fold_left split_step (py_join (lit ", ") (map column_def cols))
       (mk_split_state ps c0 0 false false false))
  = ps ++ map column_def cols.
Proof.
  intros Hne H; revert ps c0 Hne; induction H as [|col cols Hc Hcs IH];
    intros ps c0 Hne H0; [contradiction|].
  destruct (py_strip_column_def c0 col H0 Hc) as (Es & a & r & Ea & _).
  assert (Hn : nonempty (column_def col) = true) by now rewrite Ea.
  cbn [map py_join]. destruct cols as [|col' cols'].
  - cbn [map]. rewrite fold_split_step_plain by (auto using column_def_plain).
    unfold split_finish, with_content. cbn [cur parts]. now rewrite Es, Hn.
  - remember (col' :: cols') as rest eqn:Er.
    assert (Em : exists d ds, map column_def rest = d :: ds)
      by (subst rest; cbn [map]; eauto).
    destruct Em as (d & ds & Em). rewrite Em, <- Em.
    rewrite !fold_left_app.
    rewrite (fold_split_step_plain (column_def col))
      by (auto using column_def_plain).
    unfold with_content. cbn [cur parts depth in_sq in_dq in_br].
    change (lit ", ") with [","%char; " "%char]. cbn [fold_left].
    change (split_step
              (mk_split_state ps (c0 ++ column_def col) 0 false false false) ",")
      with (mk_split_state
              (if nonempty (py_strip (c0 ++ column_def col))
               then ps ++ [py_strip (c0 ++ column_def col)] else ps)
              [] 0 false false false).
    rewrite Es, Hn.
    change (split_step
              (mk_split_state (ps ++ [column_def col]) [] 0 false false false) " ")
      with (mk_split_state (ps ++ [column_def col]) [" "%char] 0
              false false false).
    rewrite IH by (subst rest; (discriminate || reflexivity)).
    now rewrite <- app_assoc.
Qed.

Lemma parse_column_def (col : str * str) :
  simple_column col -> parse_column_name_from_def (column_def col) = Ok (fst col).
Proof.
  intros Hc. destruct (py_strip_column_def [] col eq_refl Hc)
    as (Es & a & r & Ea & Ha & Et).
  cbn [app] in Es. destruct Hc as (_ & _ & Hk).
  rewrite <- Et. apply parse_bare_identifier; [congruence | assumption|].
  now rewrite <- Ea.
Qed.

Lemma collect_simple_columns (cols : list (str * str)) (seen : list str) :
  Forall simple_column cols ->
  collect_columns (map column_def cols) seen
  = Ok (fold_left add_new (map fst cols) seen).
Proof.
  intros H; revert seen; induction H as [|col cols Hc _ IH]; intros seen;
    [reflexivity|].
  cbn [map collect_columns fold_left]. rewrite parse_column_def by assumption.
  cbn [bind]. destruct Hc as (Hn & _).
  replace (nonempty (fst col)) with true
    by (unfold is_word in Hn; now apply andb_true_iff in Hn as [-> _]).
  apply IH.
Qed.

Lemma filter_filter_implied {A : Type} (p q : A -> bool) (l : list A) :
  (forall y, p y = true -> q y = true) ->
  filter p (filter q l) = filter p l.
Proof.
  intros H. induction l as [|a l IH]; [reflexivity|]. simpl.
  destruct (q a) eqn:Eq; simpl.
  - now rewrite IH.
  - destruct (p a) eqn:Ep; [|assumption]. apply H in Ep. congruence.
Qed.

Lemma filter_filter_and {A : Type} (p q : A -> bool) (l : list A) :
  filter p (filter q l) = filter (fun y => q y && p y) l.
Proof.
  induction l as [|a l IH]; [reflexivity|]. simpl.
  destruct (q a); simpl; [destruct (p a)|]; now rewrite IH.
Qed.

Lemma str_eqb_sym (a b : str) : str_eqb a b = str_eqb b a.
Proof.
  destruct (str_eqb b a) eqn:E.
  - apply str_eqb_eq in E as ->. apply str_eqb_refl.
  - apply str_eqb_neq in E. apply str_eqb_neq. congruence.
Qed.

(** The loop of the extractor keeps the first occurrence of every name, in
    order. *)
Lemma fold_add_new (l seen : list str) :
  fold_left add_new l seen
  = seen ++ filter (fun y => negb (py_in y seen)) (first_occurrences l).
Proof.
  revert seen; induction l as [|x l IH]; intros seen.
  - cbn. now rewrite app_nil_r.
  - cbn [fold_left first_occurrences filter]. rewrite IH. unfold add_new.
    destruct (py_in x seen) eqn:Ex; cbn [negb].
    + f_equal. symmetry. apply filter_filter_implied.
      intros y Hy. destruct (str_eqb x y) eqn:E; [|reflexivity].
      apply str_eqb_eq in E. subst y. now rewrite Ex in Hy.
    + rewrite <- app_assoc. cbn [app]. do 2 f_equal.
      rewrite filter_filter_and. apply filter_ext. intros y.
      unfold py_in. rewrite existsb_app. cbn [existsb].
      rewrite orb_false_r, negb_orb, (str_eqb_sym y x). apply andb_comm.
Qed.

Lemma fold_add_new_nil (l : list str) :
  fold_left add_new l [] = first_occurrences l.
Proof.
  rewrite fold_add_new. cbn [app].
  induction (first_occurrences l) as [|y m IH]; [reflexivity|].
  cbn [filter]. change (py_in y []) with false. cbn [negb]. now f_equal.
Qed.

Lemma re_table_search_at (s g : str) :
  re_table_at s = Some g -> re_table_search s = Some g.
Proof. intros H. destruct s; cbn [re_table_search]; now rewrite H. Qed.

Lemma word_chars_are_table_chars (w : str) :
  is_word w = true -> forallb is_table_char w = true.
Proof.
  unfold is_word. intros H. apply andb_true_iff in H as [_ H].
  induction w as [|c w IH]; [reflexivity|]. cbn [forallb] in *.
  apply andb_true_iff in H as [Hc Hw]. rewrite (IH Hw), andb_true_r.
  unfold is_table_char. now rewrite Hc.
Qed.

(** The raw table identifier of a statement that names its table by a
    word. *)
Lemma raw_table_of_simple (table : str) :
  is_word table = true ->
  raw_table_of (lit "CREATE TABLE " ++ table ++ lit " ") = Ok table.
Proof.
  intros Hw. unfold raw_table_of.
  assert (Hat : re_table_at (lit "CREATE TABLE " ++ table ++ lit " ") = Some table).
  { assert (E : forall r,
        re_table_at (lit "CREATE TABLE " ++ r)
        = let r3 := drop_while py_isspace r in
          if negb (nonempty (take_while is_table_char r3)) then None
          else if nonempty (drop_while py_isspace (drop_while is_table_char r3))
               then None
               else Some (take_while is_table_char r3)) by reflexivity.
    rewrite E. cbv zeta.
    destruct (word_ends table Hw) as (a & m & Ea & Ha & _).
    destruct (word_char_not_special a Ha) as (Sa & _).
    replace (drop_while py_isspace (table ++ lit " ")) with (table ++ lit " ")
      by (rewrite Ea; cbn [app drop_while]; now rewrite Sa).
    change (lit " ") with [" "%char].
    destruct (take_while_app_exact is_table_char table " " []) as [-> ->];
      [now apply word_chars_are_table_chars | reflexivity |].
    unfold is_word in Hw. apply andb_true_iff in Hw as [-> _]. reflexivity. }
  now rewrite (re_table_search_at _ _ Hat).
Qed.

Lemma find_in_char_app (c : ascii) (pre rest : str) (i : nat) :
  forallb (fun d => negb (Ascii.eqb c d)) pre = true ->
  find_in [c] (pre ++ c :: rest) i = Some (i + length pre).
Proof.
  revert i; induction pre as [|d pre IH]; intros i H; rewrite find_in_eq.
  - cbn [app py_startswith]. rewrite Ascii.eqb_refl, py_startswith_nil.
    cbn. f_equal. lia.
  - cbn [forallb] in H. apply andb_true_iff in H as [Hd Hp].
    apply negb_true_iff in Hd. cbn [app py_startswith]. rewrite Hd. cbn [andb].
    rewrite IH by assumption. cbn [length]. f_equal. lia.
Qed.

Lemma scan_close_list_flat (body rest : str) (i : nat) :
  forallb body_char body = true ->
  scan_close_list (body ++ ")"%char :: rest) i 1 = Some (i + length body).
Proof.
  revert i; induction body as [|c body IH]; intros i H.
  - cbn. f_equal. lia.
  - cbn [forallb] in H. apply andb_true_iff in H as [Hc Hb].
    destruct (body_char_facts c Hc) as (E1 & E2 & _).
    cbn [app scan_close_list]. rewrite E1, E2, IH by assumption.
    cbn [length]. f_equal. lia.
Qed.

Lemma firstn_length_app {A : Type} (l r : list A) : firstn (length l) (l ++ r) = l.
Proof. rewrite firstn_app, Nat.sub_diag, firstn_all. cbn. apply app_nil_r. Qed.

Lemma skipn_length_app {A : Type} (l r : list A) : skipn (length l) (l ++ r) = r.
Proof. rewrite skipn_app, Nat.sub_diag, skipn_all. reflexivity. Qed.

(** The one block of a simple statement. *)
Lemma simple_statement_blocks (table : str) (cols : list (str * str)) :
  is_word table = true -> Forall simple_column cols ->
  find_create_table_blocks (simple_statement table cols)
  = Ok [mk_block table (py_join (lit ", ") (map column_def cols))].
Proof.
  intros Hw Hc. rewrite find_create_table_blocks_spec.
  set (body := py_join (lit ", ") (map column_def cols)).
  set (pre := lit "CREATE TABLE " ++ table ++ lit " ").
  assert (Et : simple_statement table cols = pre ++ "("%char :: body ++ [")"%char]).
  { unfold simple_statement, pre. fold body. now rewrite <- !app_assoc. }
  rewrite Et. set (text := pre ++ "("%char :: body ++ [")"%char]).
  assert (Hbody : forallb body_char body = true) by now apply body_chars.
  assert (Hpre : forallb (fun d => negb (Ascii.eqb "(" d)) pre = true).
  { unfold pre. rewrite !forallb_app. apply andb_true_iff; split; [reflexivity|].
    apply andb_true_iff; split; [|reflexivity].
    unfold is_word in Hw. apply andb_true_iff in Hw as [_ Hw].
    clear -Hw. induction table as [|c w IH]; [reflexivity|]. cbn [forallb] in *.
    apply andb_true_iff in Hw as [Hc Hw]. rewrite (IH Hw), andb_true_r.
    destruct (word_char_not_special c Hc) as (_ & _ & _ & _ & _ & _ & _ & E & _).
    now rewrite Ascii.eqb_sym, E. }
  assert (Lt : length text = length pre + 1 + length body + 1).
  { unfold text. rewrite length_app. cbn [length].
    rewrite length_app. cbn [length]. lia. }
  assert (V0 : visit_at text 0 = Emitted (mk_block table body) (length text)).
  { unfold visit_at.
    assert (Ek : py_find (py_lower text) keyword 0 = Some 0).
    { unfold py_find. cbn [Nat.leb skipn]. rewrite find_in_eq.
      replace (py_startswith (py_lower text) keyword) with true; [reflexivity|].
      unfold text, pre. rewrite <- !app_assoc. reflexivity. }
    rewrite Ek.
    assert (Eo : py_find text (lit "(") 0 = Some (length pre)).
    { unfold py_find. cbn [Nat.leb skipn]. change (lit "(") with ["("%char].
      unfold text. now rewrite find_in_char_app. }
    rewrite Eo.
    assert (Es : skipn (length pre) text = "("%char :: body ++ [")"%char])
      by apply skipn_length_app.
    rewrite Es. cbn [scan_close_list Ascii.eqb Bool.eqb]. cbn [Z.add].
    rewrite scan_close_list_flat by assumption.
    assert (Ep : slice text 0 (length pre) = pre).
    { unfold slice. rewrite Nat.sub_0_r. cbn [skipn]. apply firstn_length_app. }
    rewrite Ep. unfold pre at 1. rewrite raw_table_of_simple by assumption.
    cbn [value_or].
    assert (Eb : slice text (length pre + 1) (S (length pre) + length body) = body).
    { unfold slice. replace (length pre + 1) with (1 + length pre) by lia.
      rewrite <- skipn_skipn, Es. cbn [skipn].
      replace (S (length pre) + length body - (1 + length pre))
        with (length body) by lia.
      apply firstn_length_app. }
    rewrite Eb. f_equal. lia. }
  assert (V1 : visit_at text (length text) = Finished).
  { unfold visit_at, py_find. rewrite length_py_lower, Nat.leb_refl.
    rewrite skipn_all2 by (rewrite length_py_lower; lia). reflexivity. }
  destruct (length text) as [|n] eqn:El; [lia|].
  cbn [blocks_from]. rewrite V0. cbn [blocks_from]. now rewrite V1.
Qed.

(** For a statement of the shape [CREATE TABLE t (c1 TYPE, c2 TYPE, ...)]
    whose table, column names and types are words, and none of whose column
    definitions starts with the letters of a constraint keyword, the
    extractor returns [{t: [c1, c2, ...]}]: the columns in the order of their
    declaration, each name once, at its first occurrence. *)
Theorem simple_statement_schema (table : str) (cols : list (str * str)) :
  is_word table = true -> cols <> [] -> Forall simple_column cols ->
  ddl_to_schema (simple_statement table cols)
  = Ok [(table, first_occurrences (map fst cols))].
Proof.
  intros Hw Hne Hc. unfold ddl_to_schema.
  rewrite simple_statement_blocks by assumption. cbn [bind for_blocks].
  set (body := py_join (lit ", ") (map column_def cols)).
  rewrite process_block_spec by (red; eauto). cbn [bind]. f_equal.
  assert (Et : block_table (mk_block table body) = table).
  { unfold block_table.
    change (dict_getitem (mk_block table body) (lit "table_raw")) with (Ok table).
    cbn [bind].
    now rewrite (strip_brackets_and_quotes_bare table (word_is_bare table Hw)). }
  assert (Eb : block_columns (mk_block table body)
               = first_occurrences (map fst cols)).
  { unfold block_columns.
    change (dict_getitem (mk_block table body) (lit "cols_block")) with (Ok body).
    cbn [bind]. rewrite split_top_level_commas_spec. cbn [bind].
    unfold body, split_init.
    rewrite split_simple_body by (assumption || reflexivity). cbn [app].
    rewrite collect_simple_columns by assumption.
    cbn [value_or]. apply fold_add_new_nil. }
  unfold store_block. rewrite Et, Eb.
  destruct cols as [|col cols']; [contradiction|]. reflexivity.
Qed.

Lemma simple_statement_with_a_repeated_column :
  ddl_to_schema
    (simple_statement (lit "orders")
       [(lit "id", lit "INT"); (lit "total", lit "MONEY"); (lit "id", lit "BIGINT")])
  = Ok [(lit "orders", [lit "id"; lit "total"])].
Proof.
  apply (simple_statement_schema (lit "orders")
           [(lit "id", lit "INT"); (lit "total", lit "MONEY");
            (lit "id", lit "BIGINT")]).
  - reflexivity.
  - discriminate.
  - repeat constructor.
Defined.

(** ** The registry builder: [normalize] *)

Lemma normalize_char_alias (c : ascii) :
  is_alias_char
    (if in_range 48 57 (lower_char c) || in_range 97 122 (lower_char c)
     then lower_char c else "_"%char) = true.
Proof. ascii_cases c; vm_compute; reflexivity. Qed.

Lemma normalize_char_fixed (c : ascii) :
  (if in_range 48 57 (lower_char c) || in_range 97 122 (lower_char c)
   then lower_char c else "_"%char) = c
  <-> is_alias_char c = true.
Proof. ascii_cases c; vm_compute; split; congruence. Qed.

Lemma normalize_cons (c : ascii) (s : str) :
  normalize (c :: s)
  = (if in_range 48 57 (lower_char c) || in_range 97 122 (lower_char c)
     then lower_char c else "_"%char) :: normalize s.
Proof. reflexivity. Qed.

Lemma normalize_alias_chars (s : str) : forallb is_alias_char (normalize s) = true.
Proof.
  induction s as [|c s IH]; [reflexivity|].
  rewrite normalize_cons. cbn [forallb]. now rewrite normalize_char_alias, IH.
Qed.

Lemma normalize_fixed (s : str) :
  normalize s = s <-> forallb is_alias_char s = true.
Proof.
  induction s as [|c s IH]; [split; reflexivity|].
  rewrite normalize_cons. cbn [forallb]. rewrite andb_true_iff, <- IH.
  rewrite <- normalize_char_fixed. split.
  - intros [= H1 H2]. now split.
  - intros [H1 H2]. now rewrite H1, H2.
Qed.

(** [normalize] replaces character by character in the lower-cased text,
    whose length it keeps; it returns a text over the digits, the lower-case
    ASCII letters and the underscore, leaves exactly the texts over that
    alphabet unchanged, and so is idempotent. *)
Theorem normalize_projects_on_alias_alphabet (s : str) :
  length (normalize s) = length (py_lower s)
  /\ forallb is_alias_char (normalize s) = true
  /\ (normalize s = s <-> forallb is_alias_char s = true)
  /\ normalize (normalize s) = normalize s.
Proof.
  split; [|split; [|split]].
  - unfold normalize. now rewrite length_map.
  - apply normalize_alias_chars.
  - apply normalize_fixed.
  - apply normalize_fixed, normalize_alias_chars.
Qed.

(** ** The registry builder: [pick_top_columns] *)

Lemma key_lt_irrefl (a : list bool) : key_lt a a = false.
Proof. induction a as [|x a IH]; simpl; [reflexivity|]. now rewrite eqb_reflx. Qed.

Lemma key_lt_asym (a b : list bool) : key_lt a b = true -> key_lt b a = false.
Proof.
  revert b; induction a as [|x a IH]; intros [|y b]; simpl; try congruence.
  destruct x, y; simpl; auto.
Qed.

Lemma key_ge_trans (a b c : list bool) :
  key_lt a b = false -> key_lt b c = false -> key_lt a c = false.
Proof.
  revert b c; induction a as [|x a IH]; intros [|y b] [|z c]; simpl;
    try congruence.
  destruct x, y, z; simpl; try congruence; apply IH.
Qed.

Lemma ranks_before_trans (a b c : str) :
  ranks_before a b -> ranks_before b c -> ranks_before a c.
Proof. apply key_ge_trans. Qed.

Lemma insert_desc_perm (key : str -> list bool) (x : str) (l : list str) :
  Permutation (insert_desc key x l) (x :: l).
Proof.
  induction l as [|y l IH]; simpl; [reflexivity|].
  destruct (key_lt (key x) (key y)); [|reflexivity].
  rewrite IH. apply perm_swap.
Qed.

Lemma py_sorted_desc_perm (key : str -> list bool) (l : list str) :
  Permutation (py_sorted_desc key l) l.
Proof.
  induction l as [|x l IH]; simpl; [reflexivity|].
  unfold py_sorted_desc in *. simpl. rewrite insert_desc_perm. now constructor.
Qed.

Lemma insert_desc_sorted (x : str) (l : list str) :
  StronglySorted ranks_before l ->
  StronglySorted ranks_before (insert_desc priority x l).
Proof.
  induction 1 as [|y l Hs IH Hy]; cbn [insert_desc].
  - repeat constructor.
  - destruct (key_lt (priority x) (priority y)) eqn:E.
    + constructor; [exact IH|].
      apply Forall_forall. intros z Hz.
      apply (Permutation_in _ (insert_desc_perm priority x l)) in Hz.
      destruct Hz as [<- | Hz].
      * now apply key_lt_asym.
      * rewrite Forall_forall in Hy. now apply Hy.
    + constructor; [now constructor|].
      constructor; [exact E|].
      apply Forall_forall. intros z Hz. rewrite Forall_forall in Hy.
      apply (ranks_before_trans x y z); [exact E | now apply Hy].
Qed.

Lemma py_sorted_desc_sorted (l : list str) :
  StronglySorted ranks_before (py_sorted_desc priority l).
Proof.
  induction l as [|x l IH]; [constructor|].
  apply insert_desc_sorted, IH.
Qed.

Lemma StronglySorted_app_cross {A : Type} (R : A -> A -> Prop) (l1 l2 : list A) :
  StronglySorted R (l1 ++ l2) ->
  StronglySorted R l1 /\ forall a b, In a l1 -> In b l2 -> R a b.
Proof.
  induction l1 as [|x l1 IH]; simpl; intros H.
  - split; [constructor | contradiction].
  - inversion H as [|? ? Hs Hx]; subst. destruct (IH Hs) as [H1 H2].
    rewrite Forall_forall in Hx. split.
    + constructor; [exact H1|]. apply Forall_forall. intros y Hy.
      apply Hx, in_or_app. now left.
    + intros a b [<- | Ha] Hb; [apply Hx, in_or_app; now right | now apply H2].
Qed.

(** [pick_top_columns] selects without inventing or repeating: the
    columns it returns, together with the ones it leaves out, are the given
    columns, each as often as given; it returns [n] of them, or all of them
    when there are fewer. *)
Theorem pick_top_columns_selects (cols : list str) (n : nat) :
  length (pick_top_columns cols n) = Nat.min n (length cols)
  /\ Permutation
       (pick_top_columns cols n ++ skipn n (py_sorted_desc priority cols)) cols
  /\ (forall c, In c (pick_top_columns cols n) -> In c cols).
Proof.
  unfold pick_top_columns.
  assert (P : Permutation
                (firstn n (py_sorted_desc priority cols)
                 ++ skipn n (py_sorted_desc priority cols)) cols).
  { rewrite firstn_skipn. apply py_sorted_desc_perm. }
  split; [|split].
  - rewrite length_firstn.
    now rewrite (Permutation_length (py_sorted_desc_perm priority cols)).
  - exact P.
  - intros c Hc. apply (Permutation_in _ P), in_or_app. now left.
Qed.

(** The columns returned by [pick_top_columns] come in descending order
    of their key, and no column left out has a greater key than a column
    returned. *)
Theorem pick_top_columns_sorted (cols : list str) (n : nat) :
  StronglySorted ranks_before (pick_top_columns cols n)
  /\ (forall a b,
         In a (pick_top_columns cols n) ->
         In b (skipn n (py_sorted_desc priority cols)) ->
         ranks_before a b).
Proof.
  unfold pick_top_columns. apply StronglySorted_app_cross.
  rewrite firstn_skipn. apply py_sorted_desc_sorted.
Qed.

Lemma key_eqb_eq (a b : list bool) : key_eqb a b = true <-> a = b.
Proof. unfold key_eqb. destruct (list_eq_dec bool_dec a b); split; congruence. Qed.

Lemma insert_desc_stable (key : str -> list bool) (k : list bool) (x : str)
  (l : list str) :
  filter (fun c => key_eqb (key c) k) (insert_desc key x l)
  = filter (fun c => key_eqb (key c) k) (x :: l).
Proof.
  induction l as [|y l IH]; [reflexivity|].
  cbn [insert_desc]. destruct (key_lt (key x) (key y)) eqn:E; [|reflexivity].
  cbn [filter] in *. rewrite IH.
  destruct (key_eqb (key x) k) eqn:Ex, (key_eqb (key y) k) eqn:Ey; try reflexivity.
  apply key_eqb_eq in Ex, Ey. rewrite Ex, Ey, key_lt_irrefl in E. discriminate.
Qed.

(** The sort of [pick_top_columns] is stable: the columns of one and the
    same key stand in the sorted list in the order in which they were
    given. *)
Theorem pick_top_columns_sort_is_stable (cols : list str) (k : list bool) :
  filter (fun c => key_eqb (priority c) k) (py_sorted_desc priority cols)
  = filter (fun c => key_eqb (priority c) k) cols.
Proof.
  induction cols as [|x cols IH]; [reflexivity|].
  change (py_sorted_desc priority (x :: cols))
    with (insert_desc priority x (py_sorted_desc priority cols)).
  rewrite insert_desc_stable. cbn [filter]. now rewrite IH.
Qed.

Lemma py_endswith_app (s p q : str) :
  py_endswith s (p ++ q) = true -> py_endswith s q = true.
Proof.
  unfold py_endswith. rewrite rev_app_distr.
  generalize (rev s) (rev q) (rev p). clear.
  intros s q; revert s; induction q as [|a q IH]; intros s p; simpl.
  - now destruct s.
  - destruct s as [|b s]; simpl; [discriminate|].
    intros H. apply andb_true_iff in H as [H1 H2]. rewrite H1. simpl.
    exact (IH s p H2).
Qed.

Lemma priority_id (c : str) :
  hd false (priority c) = py_endswith c (lit "id").
Proof.
  unfold priority. cbn [hd].
  destruct (py_endswith c (lit "_id")) eqn:E; [|reflexivity].
  symmetry. exact (py_endswith_app c (lit "_") (lit "id") E).
Qed.

Lemma key_lt_head (a b : list bool) :
  hd false a = false -> hd false b = true -> length a = length b ->
  key_lt a b = true.
Proof.
  destruct a as [|x a], b as [|y b]; simpl; try congruence.
  intros -> ->. reflexivity.
Qed.

(** For every column the first component of the key is the test
    [c.endswith('id')] alone: the test for ['_id'] adds nothing.  A column
    whose name ends in [id] is never passed over for one whose name does not:
    when such a column is given and [n] is positive, the first column
    returned ends in [id]. *)
Theorem id_columns_rank_first :
  (forall c, hd false (priority c) = py_endswith c (lit "id"))
  /\ (forall cols n c,
         In c cols -> py_endswith c (lit "id") = true -> 0 < n ->
         exists h rest,
           pick_top_columns cols n = h :: rest
           /\ py_endswith h (lit "id") = true).
Proof.
  split; [exact priority_id|].
  intros cols n c Hc Hid Hn.
  unfold pick_top_columns.
  pose proof (py_sorted_desc_perm priority cols) as P.
  pose proof (py_sorted_desc_sorted cols) as S.
  destruct (py_sorted_desc priority cols) as [|h l].
  - apply Permutation_nil in P. subst. contradiction.
  - destruct n as [|n]; [lia|]. exists h, (firstn n l). split; [reflexivity|].
    destruct (py_endswith h (lit "id")) eqn:Eh; [reflexivity|].
    apply Permutation_sym in P. apply (Permutation_in _ P) in Hc.
    inversion S as [|? ? _ Hh]; subst. rewrite Forall_forall in Hh.
    assert (R : ranks_before h c).
    { destruct Hc as [<- | Hc]; [apply key_lt_irrefl | now apply Hh]. }
    red in R. rewrite key_lt_head in R; [discriminate| | |reflexivity].
    + now rewrite priority_id.
    + now rewrite priority_id.
Qed.

Lemma id_columns_rank_first_sample :
  exists h rest,
    pick_top_columns [lit "name"; lit "start_date"; lit "paid"; lit "status"] 2
    = h :: rest
    /\ py_endswith h (lit "id") = true.
Proof.
  exact (proj2 id_columns_rank_first
           [lit "name"; lit "start_date"; lit "paid"; lit "status"] 2
           (lit "paid") (or_intror (or_intror (or_introl eq_refl)))
           eq_refl (le_S _ _ (le_n 1))).
Defined.

(** ** The registry builder: the rows of the store *)

Lemma fold_insert_alias (table : str) (aliases : list str) (db : registry_db) :
  fold_left (fun db a => insert_alias db a table) aliases db
  = mk_db (alias_index db ++ map (fun a => (a, table)) aliases) (column_index db).
Proof.
  revert db; induction aliases as [|a l IH]; intros db; simpl.
  - rewrite app_nil_r. now destruct db.
  - rewrite IH. simpl. now rewrite <- app_assoc.
Qed.

Lemma fold_insert_column (table c : str) (tokens : list str) (db : registry_db) :
  fold_left (fun db t => insert_column db t table c) tokens db
  = mk_db (alias_index db)
      (column_index db ++ map (fun t => (t, table, c)) tokens).
Proof.
  revert db; induction tokens as [|t l IH]; intros db; simpl.
  - rewrite app_nil_r. now destruct db.
  - rewrite IH. simpl. now rewrite <- app_assoc.
Qed.

Lemma fold_insert_columns (set_iter : list str -> list str) (table : str)
  (cols : list str) (db : registry_db) :
  fold_left
    (fun db c =>
       fold_left (fun db t => insert_column db t table c)
                 (set_iter (re_split_tokens (normalize c))) db)
    cols db
  = mk_db (alias_index db)
      (column_index db ++ column_rows set_iter (table, cols)).
Proof.
  unfold column_rows. cbn [fst snd].
  revert db; induction cols as [|c l IH]; intros db; simpl.
  - rewrite app_nil_r. now destruct db.
  - rewrite fold_insert_column, IH. simpl. now rewrite <- app_assoc.
Qed.

Section RegistryStore.

Variable sha1_hexdigest : str -> str.
Variable set_iter : list str -> list str.
Variable json_dumps : json -> str.

Local Abbreviation build := (build_registry sha1_hexdigest set_iter json_dumps).

Lemma registry_step_store (st : str * registry_db) (item : str * list str) :
  snd (registry_step sha1_hexdigest set_iter json_dumps st item)
  = mk_db (alias_index (snd st) ++ alias_rows set_iter item)
          (column_index (snd st) ++ column_rows set_iter item).
Proof.
  destruct st as [f db], item as [table cols]. unfold registry_step.
  cbn [snd]. rewrite fold_insert_columns, fold_insert_alias. reflexivity.
Qed.

Lemma build_registry_store_from (schema : dict (list str)) (st : str * registry_db) :
  snd (fold_left (registry_step sha1_hexdigest set_iter json_dumps) schema st)
  = mk_db (alias_index (snd st) ++ flat_map (alias_rows set_iter) schema)
          (column_index (snd st) ++ flat_map (column_rows set_iter) schema).
Proof.
  revert st; induction schema as [|item schema IH]; intros st; simpl.
  - rewrite !app_nil_r. now destruct (snd st).
  - rewrite IH, registry_step_store. simpl. now rewrite <- !app_assoc.
Qed.

Lemma build_registry_store (schema : dict (list str)) (db : registry_db) :
  snd (build schema db)
  = mk_db (alias_index db ++ flat_map (alias_rows set_iter) schema)
          (column_index db ++ flat_map (column_rows set_iter) schema).
Proof. apply build_registry_store_from. Qed.

(** [build_registry] only appends to the store: the rows that were
    there stay, in their order, and the rows added are those of the items of
    the schema, whatever the store held.  So a second run over the same
    schema and store leaves every row of the first run twice. *)
Theorem build_registry_appends_rows (schema : dict (list str)) (db : registry_db) :
  let db1 := snd (build schema db) in
  let db2 := snd (build schema db1) in
  alias_index db1 = alias_index db ++ flat_map (alias_rows set_iter) schema
  /\ column_index db1 = column_index db ++ flat_map (column_rows set_iter) schema
  /\ alias_index db2
     = alias_index db ++ alias_index (snd (build schema empty_db))
                      ++ alias_index (snd (build schema empty_db))
  /\ column_index db2
     = column_index db ++ column_index (snd (build schema empty_db))
                       ++ column_index (snd (build schema empty_db)).
Proof.
  cbv zeta. rewrite !build_registry_store. cbn [alias_index column_index empty_db app].
  rewrite <- !app_assoc. repeat split.
Qed.

End RegistryStore.

(** ** The registry builder: the tokens of the two indexes *)

Lemma re_split_runs_chars (sep P : ascii -> bool) (s : str) :
  forall (in_run : bool) (cur p : str),
    forallb P cur = true -> forallb P s = true ->
    In p (re_split_runs sep in_run cur s) -> forallb P p = true.
Proof.
  induction s as [|c s IH]; intros in_run cur p Hcur Hs; simpl.
  - intros [<- | []]. exact Hcur.
  - simpl in Hs. apply andb_true_iff in Hs as [Hc Hs].
    destruct (sep c).
    + destruct in_run.
      * now apply IH.
      * intros [<- | Hp]; [exact Hcur | revert Hp; now apply IH].
    + apply IH; [|exact Hs]. rewrite forallb_app, Hcur. simpl. now rewrite Hc.
Qed.

Lemma re_split_runs_no_sep (sep : ascii -> bool) (s : str) :
  forall (in_run : bool) (cur p : str),
    forallb (fun c => negb (sep c)) cur = true ->
    In p (re_split_runs sep in_run cur s) ->
    forallb (fun c => negb (sep c)) p = true.
Proof.
  induction s as [|c s IH]; intros in_run cur p Hcur; simpl.
  - intros [<- | []]. exact Hcur.
  - destruct (sep c) eqn:E.
    + destruct in_run.
      * now apply IH.
      * intros [<- | Hp]; [exact Hcur | revert Hp; now apply IH].
    + apply IH. rewrite forallb_app, Hcur. simpl. now rewrite E.
Qed.

Lemma re_split_runs_not_nil (sep : ascii -> bool) (s : str) :
  forall (in_run : bool) (cur : str), re_split_runs sep in_run cur s <> [].
Proof.
  induction s as [|c s IH]; intros in_run cur; simpl; [discriminate|].
  destruct (sep c); [destruct in_run|]; try apply IH. discriminate.
Qed.

Lemma alias_char_not_sep (c : ascii) :
  is_alias_char c = true -> is_token_sep c = false -> is_lower_alnum c = true.
Proof.
  unfold is_alias_char, is_token_sep. intros H1 H2.
  apply orb_false_iff in H2 as [H2 _]. rewrite H2, orb_false_r in H1. exact H1.
Qed.

Lemma column_tokens_lower_alnum (c tok : str) :
  In tok (re_split_tokens (normalize c)) -> forallb is_lower_alnum tok = true.
Proof.
  intros H. apply forallb_forall. intros ch Hch.
  assert (A : forallb is_alias_char tok = true).
  { revert H. apply re_split_runs_chars; [reflexivity|apply normalize_alias_chars]. }
  assert (B : forallb (fun c => negb (is_token_sep c)) tok = true).
  { revert H. apply (re_split_runs_no_sep is_token_sep). reflexivity. }
  rewrite forallb_forall in A, B.
  apply alias_char_not_sep; [now apply A|].
  apply negb_true_iff. now apply B.
Qed.

Section RegistryRows.

Variable sha1_hexdigest : str -> str.
Variable set_iter : list str -> list str.
Variable json_dumps : json -> str.

Local Abbreviation build := (build_registry sha1_hexdigest set_iter json_dumps).

Hypothesis set_iter_elements : forall l a, In a (set_iter l) <-> In a l.

Lemma in_alias_rows (schema : dict (list str)) (a t : str) :
  In (a, t) (flat_map (alias_rows set_iter) schema)
  <-> In t (dict_keys schema)
      /\ (a = normalize t
          \/ exists part, In part (py_split_on "_" t) /\ a = normalize part).
Proof.
  rewrite in_flat_map. unfold alias_rows, table_aliases, dict_keys. split.
  - intros ([t' cols] & Hi & Hr). cbn [fst] in Hr.
    apply in_map_iff in Hr as (a' & [= -> ->] & Ha).
    apply (proj1 (set_iter_elements _ _)) in Ha. simpl in Ha. split.
    + apply in_map_iff. now exists (t, cols).
    + destruct Ha as [<- | Ha]; [now left|].
      apply in_map_iff in Ha as (part & <- & Hp). right. eauto.
  - intros [Ht Ha]. apply in_map_iff in Ht as ([t' cols] & Ht & Hi).
    cbn [fst] in Ht. subst t'.
    exists (t, cols). split; [exact Hi|]. cbn [fst].
    apply in_map_iff. exists a. split; [reflexivity|].
    apply set_iter_elements. simpl.
    destruct Ha as [-> | (part & Hp & ->)]; [now left|].
    right. apply in_map_iff. eauto.
Qed.

Lemma in_column_rows (schema : dict (list str)) (tok t c : str) :
  In (tok, t, c) (flat_map (column_rows set_iter) schema)
  <-> exists cols,
        In (t, cols) schema /\ In c cols
        /\ In tok (re_split_tokens (normalize c)).
Proof.
  rewrite in_flat_map. unfold column_rows. split.
  - intros ([t' cols] & Hi & Hr). cbn [fst snd] in Hr.
    apply in_flat_map in Hr as (c' & Hc & Hr).
    apply in_map_iff in Hr as (tok' & [= -> -> ->] & Ht).
    apply (proj1 (set_iter_elements _ _)) in Ht. eauto.
  - intros (cols & Hi & Hc & Ht). exists (t, cols). split; [exact Hi|].
    cbn [fst snd]. apply in_flat_map. exists c. split; [exact Hc|].
    apply in_map_iff. exists tok. split; [reflexivity|].
    now apply set_iter_elements.
Qed.

(** The rows of [alias_index] after a run are the rows from before and,
    for every table of the schema, one pairing of the table with each of its
    aliases: the normalized name and the normalized underscore-separated
    parts of the name.  Every token the run adds is a text over the digits,
    the lower-case ASCII letters and the underscore. *)
Theorem alias_index_rows (schema : dict (list str)) (db : registry_db) (a t : str) :
  (In (a, t) (alias_index (snd (build schema db)))
   <-> In (a, t) (alias_index db)
       \/ (In t (dict_keys schema)
           /\ (a = normalize t
               \/ exists part, In part (py_split_on "_" t) /\ a = normalize part)))
  /\ (In (a, t) (alias_index (snd (build schema empty_db))) ->
      forallb is_alias_char a = true).
Proof.
  rewrite !build_registry_store. cbn [alias_index empty_db app]. split.
  - rewrite in_app_iff, in_alias_rows. reflexivity.
  - rewrite in_alias_rows. intros [_ [-> | (part & _ & ->)]];
      apply normalize_alias_chars.
Qed.

(** The rows of [column_index] after a run are the rows from before and,
    for every column of every table of the schema, one row for each piece
    that [re.split(r'[_\s]+', ...)] makes of the normalized column name.
    Every token the run adds is a text over the digits and the lower-case
    ASCII letters, and every column of the schema gets at least one row. *)
Theorem column_index_rows (schema : dict (list str)) (db : registry_db) :
  (forall tok t c,
      In (tok, t, c) (column_index (snd (build schema db)))
      <-> In (tok, t, c) (column_index db)
          \/ exists cols,
               In (t, cols) schema /\ In c cols
               /\ In tok (re_split_tokens (normalize c)))
  /\ (forall tok t c,
         In (tok, t, c) (column_index (snd (build schema empty_db))) ->
         forallb is_lower_alnum tok = true)
  /\ (forall t cols c,
         In (t, cols) schema -> In c cols ->
         exists tok, In (tok, t, c) (column_index (snd (build schema db)))).
Proof.
  rewrite !build_registry_store. cbn [column_index empty_db app].
  split; [|split].
  - intros tok t c. rewrite in_app_iff, in_column_rows. reflexivity.
  - intros tok t c. rewrite in_column_rows.
    intros (cols & _ & _ & Ht). exact (column_tokens_lower_alnum c tok Ht).
  - intros t cols c Hi Hc.
    destruct (re_split_tokens (normalize c)) as [|tok l] eqn:E.
    + now apply re_split_runs_not_nil in E.
    + exists tok. apply in_or_app. right. apply in_column_rows.
      exists cols. rewrite E. repeat split; auto. now left.
Qed.

End RegistryRows.

Lemma alias_index_rows_sample :
  In (lit "policies", lit "pol_policies")
     (alias_index
        (snd (build_registry constant_digest set_elements JsonText.dumps
                sample_schema empty_db))).
Proof.
  apply (proj1 (alias_index_rows constant_digest set_elements JsonText.dumps
                  (fun l a => nodup_In (list_eq_dec ascii_dec) l a)
                  sample_schema empty_db (lit "policies") (lit "pol_policies"))).
  right. split; [now left|]. right. exists (lit "policies").
  split; [right; now left | reflexivity].
Defined.

Lemma column_index_rows_sample :
  exists tok,
    In (tok, lit "Claims", lit "claim id")
       (column_index
          (snd (build_registry constant_digest set_elements JsonText.dumps
                  sample_schema empty_db))).
Proof.
  apply (proj2 (proj2 (column_index_rows constant_digest set_elements
                         JsonText.dumps
                         (fun l a => nodup_In (list_eq_dec ascii_dec) l a)
                         sample_schema empty_db))
           (lit "Claims") [dquote :: lit "amount"; lit "claim id"]).
  - right. now left.
  - right. now left.
Defined.

(** ** Trimming and contiguous pieces *)

Lemma piece_of_refl (s : str) : piece_of s s.
Proof. exists [], []. now rewrite app_nil_r. Qed.

Lemma piece_of_trans (p q s : str) : piece_of p q -> piece_of q s -> piece_of p s.
Proof.
  intros (a & b & ->) (a' & b' & ->). exists (a' ++ a), (b ++ b').
  now rewrite <- !app_assoc.
Qed.

Lemma piece_of_nil (s : str) : piece_of [] s.
Proof. now exists [], s. Qed.

Lemma drop_while_head (p : ascii -> bool) (s : str) :
  match drop_while p s with [] => True | a :: _ => p a = false end.
Proof.
  induction s as [|c s IH]; simpl; [exact I|].
  destruct (p c) eqn:E; [exact IH | exact E].
Qed.

Lemma py_rstrip_last (s : str) :
  match rev (py_rstrip s) with [] => True | b :: _ => py_isspace b = false end.
Proof. unfold py_rstrip. rewrite rev_involutive. apply drop_while_head. Qed.

Lemma py_strip_trimmed (s : str) : trimmed (py_strip s).
Proof.
  red. apply py_strip_bare; [|apply py_rstrip_last].
  unfold py_strip, py_lstrip.
  pose proof (drop_while_head py_isspace s) as H.
  destruct (py_rstrip_decompose (drop_while py_isspace s)) as (ws & E & _).
  destruct (py_rstrip (drop_while py_isspace s)) as [|a r]; [exact I|].
  rewrite E in H. exact H.
Qed.

Lemma py_strip_piece (s : str) : piece_of (py_strip s) s.
Proof.
  unfold py_strip, py_lstrip.
  destruct (py_rstrip_decompose (drop_while py_isspace s)) as (ws & E & _).
  exists (take_while py_isspace s), ws.
  rewrite <- E. symmetry. apply take_drop_while.
Qed.

Lemma tl_piece (s : str) : piece_of (tl s) s.
Proof.
  destruct s as [|c s]; [apply piece_of_refl|].
  exists [c], []. simpl. now rewrite app_nil_r.
Qed.

Lemma removelast_piece (s : str) : piece_of (removelast s) s.
Proof.
  destruct s as [|c s] using rev_ind; [apply piece_of_refl|].
  rewrite removelast_last. now exists [], [c].
Qed.

Lemma last_cons {A : Type} (l : list A) (a d : A) : last (a :: l) d = last l a.
Proof.
  revert a d; induction l as [|b l IH]; intros a d; [reflexivity|].
  change (last (a :: b :: l) d) with (last (b :: l) d).
  rewrite IH. symmetry. apply IH.
Qed.

Lemma py_split_on_last_suffix (sep : ascii) (s : str) :
  exists p ps, py_split_on sep s = p :: ps /\ exists a, s = a ++ last ps p.
Proof.
  induction s as [|c s IH].
  - exists [], []. split; [reflexivity | now exists []].
  - destruct IH as (p & ps & E & a & H). cbn [py_split_on]. rewrite E.
    destruct (Ascii.eqb c sep).
    + exists [], (p :: ps). split; [reflexivity|].
      exists (c :: a). rewrite last_cons. simpl. now f_equal.
    + exists (c :: p), ps. split; [reflexivity|].
      destruct ps as [|q ps].
      * apply py_split_on_single in E as [-> _]. now exists [].
      * exists (c :: a). rewrite !last_cons in *. simpl. now f_equal.
Qed.

(** ** The identifier normalizer returns a trimmed piece of its argument *)

Lemma strip_brackets_and_quotes_piece (name : str) :
  exists r,
    strip_brackets_and_quotes name = Ok r /\ trimmed r /\ piece_of r name.
Proof.
  unfold strip_brackets_and_quotes.
  destruct (nonempty name); cbn [negb].
  2:{ exists []. split; [reflexivity | split; [reflexivity | apply piece_of_nil]]. }
  assert (H0 : piece_of (py_strip name) name) by apply py_strip_piece.
  assert (H1 : exists s1,
             (if py_contains "." (py_strip name)
              then (p <- py_getitem_last (py_split_on "." (py_strip name)) ;;
                    Ok (py_strip p))
              else Ok (py_strip name)) = Ok s1
             /\ piece_of s1 name).
  { destruct (py_contains "." (py_strip name)).
    - destruct (py_split_on_last_suffix "." (py_strip name))
        as (p & ps & E & a & Ha).
      rewrite E. cbn [py_getitem_last bind]. eexists. split; [reflexivity|].
      eapply piece_of_trans; [apply py_strip_piece|].
      eapply piece_of_trans; [|exact H0].
      exists a, []. now rewrite app_nil_r.
    - eexists. split; [reflexivity | exact H0]. }
  destruct H1 as (s1 & -> & H1). cbn [bind]. cbv zeta.
  eexists. split; [reflexivity|]. split; [apply py_strip_trimmed|].
  eapply piece_of_trans; [apply py_strip_piece|].
  unfold slice_1_m1, slice_from1, slice_to_m1.
  repeat match goal with
         | |- context [if ?b then _ else _] => destruct b
         end;
    repeat first
      [ assumption
      | (eapply piece_of_trans; [apply tl_piece|])
      | (eapply piece_of_trans; [apply removelast_piece|]) ].
Qed.

(** The identifier normalizer always returns, and what it returns is a
    contiguous piece of its argument without whitespace at either end: it
    only ever removes characters at the two ends of the name or of its last
    dot-separated part. *)
Theorem normalizer_returns_a_trimmed_piece (name : str) :
  exists r,
    strip_brackets_and_quotes name = Ok r
    /\ py_strip r = r
    /\ (exists a b, name = a ++ r ++ b)
    /\ length r <= length name.
Proof.
  destruct (strip_brackets_and_quotes_piece name) as (r & E & Ht & a & b & Hp).
  exists r. split; [exact E|]. split; [exact Ht|].
  split; [now exists a, b|]. rewrite Hp, !length_app. lia.
Qed.

(** ** The segments of the splitter *)

Lemma piece_of_app_r (p s t : str) : piece_of p s -> piece_of p (s ++ t).
Proof.
  intros (a & b & ->). exists a, (b ++ t). now rewrite <- !app_assoc.
Qed.

Lemma piece_of_app_l (p s t : str) : piece_of p s -> piece_of p (t ++ s).
Proof.
  intros (a & b & ->). exists (t ++ a), b. now rewrite <- !app_assoc.
Qed.

Lemma split_step_cases (st : split_state) (ch : ascii) :
  (parts (split_step st ch) = parts st /\ cur (split_step st ch) = cur st ++ [ch])
  \/ (parts (split_step st ch)
      = (if nonempty (py_strip (cur st)) then parts st ++ [py_strip (cur st)]
         else parts st)
      /\ cur (split_step st ch) = []).
Proof.
  destruct st as [ps c d sq dq br]. unfold split_step.
  repeat match goal with
         | |- context [if ?b then _ else _] =>
             lazymatch b with
             | nonempty _ => fail
             | _ => destruct b
             end
         end;
    cbn [parts cur]; auto.
Qed.

Lemma split_step_invariant (read : str) (st : split_state) (ch : ascii) :
  split_invariant read st -> split_invariant (read ++ [ch]) (split_step st ch).
Proof.
  intros [Hp (pre & Hc)].
  assert (Hp' : Forall (fun p => stored_name p /\ piece_of p (read ++ [ch]))
                  (parts st)).
  { eapply Forall_impl; [|exact Hp]. intros p [H1 H2].
    split; [exact H1 | now apply piece_of_app_r]. }
  destruct (split_step_cases st ch) as [[E1 E2] | [E1 E2]];
    unfold split_invariant; rewrite E1, E2.
  - split; [exact Hp'|]. exists pre. rewrite Hc. now rewrite <- app_assoc.
  - split; [|exists (read ++ [ch]); now rewrite app_nil_r].
    destruct (nonempty (py_strip (cur st))) eqn:En; [|exact Hp'].
    apply Forall_app. split; [exact Hp'|]. constructor; [|constructor].
    split.
    + split; [now apply nonempty_true | apply py_strip_trimmed].
    + apply piece_of_app_r. rewrite Hc. apply piece_of_app_l, py_strip_piece.
Qed.

Lemma fold_split_step_invariant (s read : str) (st : split_state) :
  split_invariant read st ->
  split_invariant (read ++ s) (fold_left split_step s st).
Proof.
  revert read st; induction s as [|ch s IH]; intros read st H; simpl.
  - now rewrite app_nil_r.
  - replace (read ++ ch :: s) with ((read ++ [ch]) ++ s)
      by now rewrite <- app_assoc.
    apply IH, split_step_invariant, H.
Qed.

Lemma split_segments (s : str) :
  exists segs,
    split_top_level_commas s = Ok segs
    /\ Forall (fun p => stored_name p /\ piece_of p s) segs.
Proof.
  rewrite split_top_level_commas_spec. eexists. split; [reflexivity|].
  destruct (fold_split_step_invariant s [] split_init) as [Hp (pre & Hc)].
  { split; [constructor | now exists []]. }
  cbn [app] in Hp, Hc. unfold split_finish.
  destruct (nonempty (py_strip (cur (fold_left split_step s split_init)))) eqn:En;
    [|exact Hp].
  apply Forall_app. split; [exact Hp|]. constructor; [|constructor]. split.
  - split; [now apply nonempty_true | apply py_strip_trimmed].
  - rewrite Hc at 2. apply piece_of_app_l, py_strip_piece.
Qed.

(** The splitter always returns, and every segment it returns is
    non-empty, has no whitespace at either end and is a contiguous piece of
    the text it was given. *)
Theorem splitter_segments_are_trimmed_pieces (s : str) :
  exists segs,
    split_top_level_commas s = Ok segs
    /\ Forall (fun p => p <> [] /\ py_strip p = p /\ exists a b, s = a ++ p ++ b)
         segs.
Proof.
  destruct (split_segments s) as (segs & E & H). exists segs. split; [exact E|].
  eapply Forall_impl; [|exact H]. intros p [[H1 H2] H3]. auto.
Qed.

Lemma split_step_plain (st : split_state) (ch : ascii) :
  depth st = 0%Z -> in_sq st = false -> in_dq st = false -> in_br st = false ->
  plain_char ch = true ->
  split_step st ch
  = if Ascii.eqb ch ","
    then mk_split_state
           (if nonempty (py_strip (cur st)) then parts st ++ [py_strip (cur st)]
            else parts st) [] 0%Z false false false
    else mk_split_state (parts st) (cur st ++ [ch]) 0%Z false false false.
Proof.
  destruct st as [ps c d sq dq br]. cbn [depth in_sq in_dq in_br parts cur].
  intros -> -> -> -> Hc. unfold plain_char in Hc. apply negb_true_iff in Hc.
  repeat (apply orb_false_iff in Hc as [Hc ?]).
  unfold split_step.
  repeat match goal with H : Ascii.eqb ch _ = false |- _ => rewrite H; clear H end.
  cbn [andb orb negb]. destruct (Ascii.eqb ch ","); reflexivity.
Qed.

(** The pieces between the commas of [s], the first one after [cur]. *)
Lemma fold_split_step_commas (s : str) (ps : list str) (c : str) :
  forallb plain_char s = true ->
  split_finish
    (fold_left split_step s (mk_split_state ps c 0%Z false false false))
  = ps ++ filter (fun p => nonempty p)
            (map py_strip
               (match py_split_on "," s with
                | p :: rest => (c ++ p) :: rest
                | [] => [c]
                end)).
Proof.
  revert ps c; induction s as [|ch s IH]; intros ps c Hs.
  - cbn [fold_left py_split_on map filter]. unfold split_finish.
    cbn [cur parts]. rewrite app_nil_r.
    destruct (nonempty (py_strip c)); [reflexivity | now rewrite app_nil_r].
  - cbn [forallb] in Hs. apply andb_true_iff in Hs as [Hc Hs].
    cbn [fold_left py_split_on].
    rewrite split_step_plain by (assumption || reflexivity).
    cbn [parts cur]. destruct (Ascii.eqb ch ",") eqn:E.
    + rewrite IH by assumption. rewrite app_nil_r. cbn [map filter].
      destruct (py_split_on "," s) as [|p rest] eqn:Es.
      { now apply py_split_on_nonempty in Es. }
      cbn [app]. destruct (nonempty (py_strip c)); [|reflexivity].
      now rewrite <- app_assoc.
    + rewrite IH by assumption.
      destruct (py_split_on "," s) as [|p rest] eqn:Es.
      { now apply py_split_on_nonempty in Es. }
      now rewrite <- app_assoc.
Qed.

(** On a text without quotes, brackets and parentheses the splitter is
    [s.split(',')] with every piece stripped and the empty pieces dropped. *)
Theorem splitter_on_plain_text (s : str) :
  forallb plain_char s = true ->
  split_top_level_commas s
  = Ok (filter (fun p => nonempty p) (map py_strip (py_split_on "," s))).
Proof.
  intros Hs. rewrite split_top_level_commas_spec. f_equal.
  unfold split_init. rewrite fold_split_step_commas by assumption.
  cbn [app]. destruct (py_split_on "," s); reflexivity.
Qed.

Lemma splitter_on_plain_text_sample :
  split_top_level_commas (lit " a INT ,, b  INT, ")
  = Ok [lit "a INT"; lit "b  INT"].
Proof. exact (splitter_on_plain_text (lit " a INT ,, b  INT, ") eq_refl). Defined.

(** ** The names of the schema *)

Lemma take_while_piece (f : ascii -> bool) (s : str) : piece_of (take_while f s) s.
Proof. exists [], (drop_while f s). symmetry. apply take_drop_while. Qed.

Lemma drop_while_piece (f : ascii -> bool) (s : str) : piece_of (drop_while f s) s.
Proof.
  exists (take_while f s), []. rewrite app_nil_r. symmetry. apply take_drop_while.
Qed.

Lemma firstn_piece (n : nat) (s : str) : piece_of (firstn n s) s.
Proof. exists [], (skipn n s). symmetry. apply firstn_skipn. Qed.

Lemma skipn_piece (n : nat) (s : str) : piece_of (skipn n s) s.
Proof.
  exists (firstn n s), []. rewrite app_nil_r. symmetry. apply firstn_skipn.
Qed.

Lemma slice_piece (s : str) (a b : nat) : piece_of (slice s a b) s.
Proof.
  unfold slice. eapply piece_of_trans; [apply firstn_piece | apply skipn_piece].
Qed.

Lemma split_ws_from_piece (s : str) :
  forall cur t, In t (split_ws_from cur s) -> piece_of t (cur ++ s).
Proof.
  induction s as [|c s IH]; intros cur t; cbn [split_ws_from].
  - destruct (nonempty cur); [|contradiction].
    intros [<- | []]. rewrite app_nil_r. apply piece_of_refl.
  - destruct (py_isspace c).
    + assert (H : In t (split_ws_from [] s) -> piece_of t (cur ++ c :: s)).
      { intros Ht. apply piece_of_app_l.
        eapply piece_of_trans; [exact (IH [] t Ht) | apply (tl_piece (c :: s))]. }
      destruct (nonempty cur); [|exact H].
      intros [<- | Ht]; [|now apply H]. apply piece_of_app_r, piece_of_refl.
    + intros Ht. apply IH in Ht. now rewrite <- app_assoc in Ht.
Qed.

Lemma re_opened_piece (open close : ascii) (r name : str) :
  re_opened open close r = Some name -> piece_of name r.
Proof.
  unfold re_opened, re_delimited. destruct r as [|c r]; [discriminate|].
  destruct (Ascii.eqb c open); [|discriminate].
  match goal with |- context [if ?b then _ else _] => destruct b end;
    [|discriminate].
  intros [= <-].
  eapply piece_of_trans; [apply take_while_piece | apply (tl_piece (c :: r))].
Qed.

Lemma re_column_name_piece (s name : str) :
  re_column_name s = Some name -> piece_of name s.
Proof.
  unfold re_column_name. intros H.
  apply (piece_of_trans _ (drop_while py_isspace s)); [|apply drop_while_piece].
  destruct (re_opened "[" "]" (drop_while py_isspace s)) eqn:E1.
  { injection H as <-. exact (re_opened_piece _ _ _ _ E1). }
  destruct (re_opened dquote dquote (drop_while py_isspace s)) eqn:E2.
  { injection H as <-. exact (re_opened_piece _ _ _ _ E2). }
  destruct (re_opened "`" "`" (drop_while py_isspace s)) eqn:E3.
  { injection H as <-. exact (re_opened_piece _ _ _ _ E3). }
  destruct (nonempty (take_while is_word_char (drop_while py_isspace s)));
    [|discriminate].
  injection H as <-. apply take_while_piece.
Qed.

Lemma parse_column_name_piece (col_def : str) :
  exists r,
    parse_column_name_from_def col_def = Ok r /\ trimmed r /\ piece_of r col_def.
Proof.
  unfold parse_column_name_from_def.
  destruct (re_table_constraint (py_strip col_def)).
  { exists []. split; [reflexivity | split; [reflexivity | apply piece_of_nil]]. }
  cbv zeta.
  set (s := if py_endswith (py_strip col_def) (lit ",")
            then py_strip (slice_to_m1 (py_strip col_def))
            else py_strip col_def).
  assert (Hs : piece_of s col_def).
  { unfold s, slice_to_m1. destruct (py_endswith (py_strip col_def) (lit ",")).
    - eapply piece_of_trans; [apply py_strip_piece|].
      eapply piece_of_trans; [apply removelast_piece | apply py_strip_piece].
    - apply py_strip_piece. }
  destruct (re_column_name s) as [name|] eqn:En.
  - destruct (strip_brackets_and_quotes_piece name) as (r & E & Ht & Hp).
    exists r. split; [exact E | split; [exact Ht|]].
    eapply piece_of_trans; [exact Hp|].
    eapply piece_of_trans; [exact (re_column_name_piece _ _ En) | exact Hs].
  - destruct (py_split s) as [|t toks] eqn:Et; cbn [nonempty].
    { exists []. split; [reflexivity | split; [reflexivity | apply piece_of_nil]]. }
    cbn [py_getitem nth_error bind].
    destruct (strip_brackets_and_quotes_piece t) as (r & E & Ht & Hp).
    exists r. split; [exact E | split; [exact Ht|]].
    eapply piece_of_trans; [exact Hp|].
    eapply piece_of_trans; [|exact Hs].
    apply (split_ws_from_piece s [] t). unfold py_split in Et. rewrite Et. now left.
Qed.

Lemma py_in_false (x : str) (l : list str) : py_in x l = false -> ~ In x l.
Proof.
  unfold py_in. intros H Hin.
  assert (E : existsb (str_eqb x) l = true).
  { apply existsb_exists. exists x. split; [exact Hin | apply str_eqb_refl]. }
  congruence.
Qed.

Lemma NoDup_snoc {A : Type} (l : list A) (x : A) :
  NoDup l -> ~ In x l -> NoDup (l ++ [x]).
Proof.
  intros Hl Hx. apply NoDup_app; [exact Hl | repeat constructor; intros [] |].
  intros a Ha [<- | []]. contradiction.
Qed.

Lemma collect_columns_names (body : str) (ps cols r : list str) :
  Forall (fun p => piece_of p body) ps ->
  NoDup cols -> Forall (fun c => stored_name c /\ piece_of c body) cols ->
  collect_columns ps cols = Ok r ->
  NoDup r /\ Forall (fun c => stored_name c /\ piece_of c body) r.
Proof.
  intros Hps; revert cols; induction Hps as [|p ps Hp _ IH]; intros cols Hn Hc;
    cbn [collect_columns].
  - intros [= <-]. now split.
  - destruct (parse_column_name_piece p) as (name & -> & Ht & Hpc). cbn [bind].
    apply IH.
    + destruct (nonempty name); [|exact Hn].
      destruct (py_in name cols) eqn:Ei; cbn [negb]; [exact Hn|].
      apply NoDup_snoc; [exact Hn | now apply py_in_false].
    + destruct (nonempty name) eqn:En; [|exact Hc].
      destruct (py_in name cols); cbn [negb]; [exact Hc|].
      apply Forall_app. split; [exact Hc|]. constructor; [|constructor].
      split; [split; [now apply nonempty_true | exact Ht]|].
      now apply (piece_of_trans _ p).
Qed.

Lemma block_columns_names (raw body : str) :
  NoDup (block_columns (mk_block raw body))
  /\ Forall (fun c => stored_name c /\ piece_of c body)
       (block_columns (mk_block raw body)).
Proof.
  unfold block_columns.
  change (dict_getitem (mk_block raw body) (lit "cols_block")) with (Ok body).
  cbn [bind]. destruct (split_segments body) as (segs & -> & Hs). cbn [bind].
  destruct (collect_columns segs []) as [r| |] eqn:E; cbn [value_or];
    try (split; constructor).
  apply (collect_columns_names body segs [] r); try constructor; [|exact E].
  eapply Forall_impl; [|exact Hs]. now intros p [_ H].
Qed.

Lemma block_table_trimmed (blk : dict str) : trimmed (block_table blk).
Proof.
  unfold block_table. destruct (dict_getitem blk (lit "table_raw")) as [raw| |];
    cbn [bind value_or]; try reflexivity.
  destruct (strip_brackets_and_quotes_piece raw) as (r & -> & Ht & _). exact Ht.
Qed.

Lemma blocks_from_bodies (sql_text : str) (fuel idx : nat) :
  Forall (fun blk => exists raw a b, blk = mk_block raw (slice sql_text a b))
    (blocks_from fuel sql_text idx).
Proof.
  revert idx; induction fuel as [|fuel IH]; intros idx; cbn [blocks_from];
    [constructor|].
  unfold visit_at.
  destruct (py_find (py_lower sql_text) keyword idx) as [pos|]; [|constructor].
  destruct (py_find sql_text (lit "(") pos) as [o|]; [|apply IH].
  destruct (scan_close_list (skipn o sql_text) o 0%Z) as [e|]; [|apply IH].
  constructor; [eauto | apply IH].
Qed.

Lemma dict_setitem_keys {V : Type} (d : dict V) (k : str) (v : V) :
  dict_keys (dict_setitem d k v)
  = if py_in k (dict_keys d) then dict_keys d else dict_keys d ++ [k].
Proof.
  induction d as [|[k' v'] d IH]; [reflexivity|].
  cbn [dict_setitem dict_keys map fst py_in existsb].
  unfold dict_keys, py_in in IH.
  destruct (str_eqb k' k) eqn:E.
  - apply str_eqb_eq in E as ->. now rewrite str_eqb_refl.
  - assert (E' : str_eqb k k' = false).
    { apply str_eqb_neq. apply str_eqb_neq in E. congruence. }
    rewrite E'. cbn [orb map fst]. rewrite IH.
    now destruct (existsb (str_eqb k) (map fst d)).
Qed.

Lemma dict_setitem_NoDup {V : Type} (d : dict V) (k : str) (v : V) :
  NoDup (dict_keys d) -> NoDup (dict_keys (dict_setitem d k v)).
Proof.
  intros H. rewrite dict_setitem_keys.
  destruct (py_in k (dict_keys d)) eqn:E; [exact H|].
  apply NoDup_snoc; [exact H | now apply py_in_false].
Qed.

(** What holds of every entry of the schema. *)
Lemma fold_store_block_names (sql_text : str) (bs : list (dict str))
  (tables : dict (list str)) :
  Forall (fun blk => exists raw a b, blk = mk_block raw (slice sql_text a b)) bs ->
  NoDup (dict_keys tables) ->
  Forall (fun kv => trimmed (fst kv) /\ NoDup (snd kv)
                    /\ Forall (fun c => stored_name c /\ piece_of c sql_text)
                         (snd kv)) tables ->
  NoDup (dict_keys (fold_left store_block bs tables))
  /\ Forall (fun kv => trimmed (fst kv) /\ NoDup (snd kv)
                       /\ Forall (fun c => stored_name c /\ piece_of c sql_text)
                            (snd kv))
       (fold_left store_block bs tables).
Proof.
  intros Hb; revert tables;
    induction Hb as [|blk bs (raw & a & b & ->) _ IH]; intros tables Hk Hv;
    cbn [fold_left]; [now split|].
  destruct (block_columns_names raw (slice sql_text a b)) as [Hn Hc].
  apply IH; unfold store_block;
    destruct (nonempty (block_columns (mk_block raw (slice sql_text a b))));
    try assumption.
  - now apply dict_setitem_NoDup.
  - clear IH Hk. induction Hv as [|[k v] d Hkv Hd IHd]; cbn [dict_setitem].
    + constructor; [|constructor]. cbn [fst snd].
      split; [apply block_table_trimmed | split; [exact Hn|]].
      eapply Forall_impl; [|exact Hc]. intros c [H1 H2]. split; [exact H1|].
      eapply piece_of_trans; [exact H2 | apply slice_piece].
    + destruct (str_eqb k _) eqn:E.
      * constructor; [|exact Hd]. cbn [fst snd] in *.
        split; [apply Hkv | split; [exact Hn|]].
        eapply Forall_impl; [|exact Hc]. intros c [H1 H2]. split; [exact H1|].
        eapply piece_of_trans; [exact H2 | apply slice_piece].
      * constructor; [exact Hkv | exact IHd].
Qed.

(** The extractor always returns a mapping in which no table name
    occurs twice and no table name has whitespace at either end; the columns
    of a table are pairwise different, and every column name is non-empty,
    has no whitespace at either end and is a contiguous piece of the SQL
    text: the extractor never makes up a column name. *)
Theorem schema_names_are_pieces_of_the_text (sql_text : str) :
  exists tables,
    ddl_to_schema sql_text = Ok tables
    /\ NoDup (dict_keys tables)
    /\ forall t cols,
         In (t, cols) tables ->
         py_strip t = t
         /\ NoDup cols
         /\ forall c, In c cols ->
              c <> [] /\ py_strip c = c /\ exists a b, sql_text = a ++ c ++ b.
Proof.
  rewrite ddl_to_schema_spec. eexists. split; [reflexivity|].
  destruct (fold_store_block_names sql_text (blocks_of sql_text) []) as [Hk Hv].
  - apply blocks_from_bodies.
  - constructor.
  - constructor.
  - split; [exact Hk|]. intros t cols Hin. rewrite Forall_forall in Hv.
    destruct (Hv _ Hin) as (Ht & Hn & Hc). cbn [fst snd] in *.
    split; [exact Ht | split; [exact Hn|]].
    intros c Hi. rewrite Forall_forall in Hc.
    destruct (Hc c Hi) as [[H1 H2] H3]. auto.
Qed.

(** ** The registry reader: documents and lookups *)

Lemma dict_get_In {V : Type} (d : dict V) (k : str) (v : V) :
  dict_get d k = Some v -> In (k, v) d.
Proof.
  induction d as [|[k' v'] d IH]; simpl; [discriminate|].
  destruct (str_eqb k' k) eqn:E.
  - apply str_eqb_eq in E as ->. intros [= ->]. now left.
  - intros H. right. now apply IH.
Qed.

Lemma In_dict_get {V : Type} (d : dict V) (k : str) (v : V) :
  NoDup (dict_keys d) -> In (k, v) d -> dict_get d k = Some v.
Proof.
  induction d as [|[k' v'] d IH]; simpl; [contradiction|].
  intros Hn [[= -> ->] | Hin].
  - now rewrite str_eqb_refl.
  - inversion Hn as [|? ? Hk Hd]; subst.
    destruct (str_eqb k' k) eqn:E; [|now apply IH].
    apply str_eqb_eq in E as ->. exfalso. apply Hk.
    apply in_map_iff. now exists (k, v).
Qed.

Lemma dict_setitem_keyed (d : dict json) (k : str) (v : json) :
  Forall keyed_by_table d -> keyed_by_table (k, v) ->
  Forall keyed_by_table (dict_setitem d k v).
Proof.
  intros Hd Hv; induction Hd as [|[k' v'] d Hkv Hd IH]; cbn [dict_setitem].
  - now constructor.
  - destruct (str_eqb k' k) eqn:E.
    + apply str_eqb_eq in E as ->. constructor; [exact Hv | exact Hd].
    + now constructor.
Qed.

Lemma load_lines_keyed (json_loads : str -> outcome json) (lines : list str) :
  forall tables out,
    load_lines json_loads lines tables = Ok out ->
    NoDup (dict_keys tables) -> Forall keyed_by_table tables ->
    NoDup (dict_keys out) /\ Forall keyed_by_table out.
Proof.
  induction lines as [|line lines IH]; intros tables out; cbn [load_lines].
  - intros [= <-]. now split.
  - destruct (json_loads line) as [doc| |]; cbn [bind]; try discriminate.
    destruct (json_getitem doc (lit "table")) as [[k| |]| |] eqn:E; cbn [bind];
      try discriminate.
    intros H Hn Hk. apply (IH _ _ H).
    + now apply dict_setitem_NoDup.
    + now apply dict_setitem_keyed.
Qed.

Lemma load_lines_app (json_loads : str -> outcome json) (l1 l2 : list str) :
  forall tables out,
    load_lines json_loads (l1 ++ l2) tables = Ok out ->
    exists mid,
      load_lines json_loads l1 tables = Ok mid
      /\ load_lines json_loads l2 mid = Ok out.
Proof.
  induction l1 as [|line l1 IH]; intros tables out; cbn [app load_lines].
  - intros H. now exists tables.
  - destruct (json_loads line) as [doc| |]; cbn [bind]; try discriminate.
    destruct (json_getitem doc (lit "table")) as [[k| |]| |]; cbn [bind];
      try discriminate.
    apply IH.
Qed.

(** Lines that hold no document of the table [t] leave the entry of [t]
    as it is. *)
Lemma load_lines_other (json_loads : str -> outcome json) (lines : list str)
  (t : str) :
  (forall line doc, In line lines -> json_loads line = Ok doc ->
                    json_getitem doc (lit "table") <> Ok (JStr t)) ->
  forall tables out,
    load_lines json_loads lines tables = Ok out ->
    dict_get out t = dict_get tables t.
Proof.
  induction lines as [|line lines IH]; intros Hl tables out; cbn [load_lines].
  - now intros [= <-].
  - destruct (json_loads line) as [doc| |] eqn:El; cbn [bind]; try discriminate.
    destruct (json_getitem doc (lit "table")) as [[k| |]| |] eqn:Ek; cbn [bind];
      try discriminate.
    intros H. rewrite (IH (fun l d Hi => Hl l d (or_intror Hi)) _ _ H).
    apply dict_get_setitem_other. intros ->.
    exact (Hl line doc (or_introl eq_refl) El Ek).
Qed.

(** The mapping [_load_registry] builds holds every table name once,
    and each document under the table name the document itself gives.  A
    later line for a name replaces the document of an earlier one: under a
    table name the mapping holds the document of the last line of the file
    that names the table. *)
Theorem load_registry_keys_documents (json_loads : str -> outcome json)
  (content : str) (tables : dict json) :
  _load_registry json_loads content = Ok tables ->
  NoDup (dict_keys tables)
  /\ (forall t doc,
         In (t, doc) tables ->
         json_getitem doc (lit "table") = Ok (JStr t)
         /\ dict_get tables t = Some doc)
  /\ (forall before line after doc t,
         file_lines content = before ++ line :: after ->
         json_loads line = Ok doc ->
         json_getitem doc (lit "table") = Ok (JStr t) ->
         (forall line' doc',
             In line' after -> json_loads line' = Ok doc' ->
             json_getitem doc' (lit "table") <> Ok (JStr t)) ->
         dict_get tables t = Some doc).
Proof.
  unfold _load_registry. intros H.
  destruct (load_lines_keyed _ _ _ _ H (NoDup_nil _) (Forall_nil _)) as [Hn Hk].
  split; [exact Hn|]. split.
  - intros t doc Hin. rewrite Forall_forall in Hk.
    split; [exact (Hk _ Hin) | now apply In_dict_get].
  - intros before line after doc t El Hd Ht Hafter. rewrite El in H.
    apply load_lines_app in H as (mid & _ & H). cbn [load_lines] in H.
    rewrite Hd in H. cbn [bind] in H. rewrite Ht in H. cbn [bind] in H.
    rewrite (load_lines_other json_loads after t Hafter _ _ H).
    apply dict_get_setitem_same.
Qed.

Lemma load_registry_keys_documents_sample :
  let first := JObj [(lit "table", JStr (lit "orders")); (lit "aliases", JList [])] in
  let second :=
    JObj [(lit "table", JStr (lit "orders"));
          (lit "aliases", JList [JStr (lit "orders")])] in
  _load_registry JsonText.loads
    (JsonText.dumps first ++ [LF] ++ JsonText.dumps second ++ [LF])
  = Ok [(lit "orders", second)]
  /\ NoDup [lit "orders"]
  /\ dict_get [(lit "orders", second)] (lit "orders") = Some second.
Proof.
  cbv zeta.
  assert (H : _load_registry JsonText.loads
                (JsonText.dumps
                   (JObj [(lit "table", JStr (lit "orders")); (lit "aliases", JList [])])
                 ++ [LF]
                 ++ JsonText.dumps
                      (JObj [(lit "table", JStr (lit "orders"));
                             (lit "aliases", JList [JStr (lit "orders")])])
                 ++ [LF])
              = Ok [(lit "orders",
                     JObj [(lit "table", JStr (lit "orders"));
                           (lit "aliases", JList [JStr (lit "orders")])])])
    by (vm_compute; reflexivity).
  refine (conj H _).
  destruct (load_registry_keys_documents JsonText.loads _ _ H) as (Hn & _ & Hlast).
  refine (conj Hn _).
  apply (Hlast
           [JsonText.dumps
              (JObj [(lit "table", JStr (lit "orders")); (lit "aliases", JList [])])
            ++ [LF]]
           (JsonText.dumps
              (JObj [(lit "table", JStr (lit "orders"));
                     (lit "aliases", JList [JStr (lit "orders")])])
            ++ [LF])
           []).
  - vm_compute. reflexivity.
  - vm_compute. reflexivity.
  - vm_compute. reflexivity.
  - intros line' doc' [].
Defined.

Lemma sql_limit_incl {A : Type} (limit : Z) (l : list A) (x : A) :
  In x (sql_limit limit l) -> In x l.
Proof.
  unfold sql_limit. destruct (limit <? 0)%Z; [trivial|].
  intros H. rewrite <- (firstn_skipn (Z.to_nat limit) l).
  apply in_or_app. now left.
Qed.

Lemma sql_limit_length {A : Type} (limit : Z) (l : list A) :
  (0 <= limit)%Z -> length (sql_limit limit l) <= Z.to_nat limit.
Proof.
  intros H. unfold sql_limit. destruct (Z.ltb_spec limit 0); [lia|].
  rewrite length_firstn. lia.
Qed.

Lemma sql_limit_all {A : Type} (limit : Z) (l : list A) :
  (limit < 0)%Z \/ (Z.of_nat (length l) <= limit)%Z -> sql_limit limit l = l.
Proof.
  intros H. unfold sql_limit. destruct (Z.ltb_spec limit 0); [reflexivity|].
  apply firstn_all2. lia.
Qed.

Lemma NoDup_firstn_of {A : Type} (n : nat) (l : list A) :
  NoDup l -> NoDup (firstn n l).
Proof.
  intros H. rewrite <- (firstn_skipn n l) in H. exact (NoDup_app_remove_r _ _ H).
Qed.

Lemma sql_limit_NoDup {A : Type} (limit : Z) (l : list A) :
  NoDup l -> NoDup (sql_limit limit l).
Proof.
  intros H. unfold sql_limit. destruct (limit <? 0)%Z; [exact H|].
  now apply NoDup_firstn_of.
Qed.

Lemma alias_matches_In (db : registry_db) (k t : str) :
  In t (alias_matches db k) <-> In (k, t) (alias_index db).
Proof.
  unfold alias_matches. rewrite in_map_iff. split.
  - intros ([k' t'] & <- & H). apply filter_In in H as [H E].
    cbn [fst snd] in *. apply str_eqb_eq in E as ->. exact H.
  - intros H. exists (k, t). split; [reflexivity|].
    apply filter_In. split; [exact H | apply str_eqb_refl].
Qed.

Lemma column_matches_In (db : registry_db) (k t c : str) :
  In (t, c) (column_matches db k) <-> In (k, t, c) (column_index db).
Proof.
  unfold column_matches. rewrite in_map_iff. split.
  - intros ([[k' t'] c'] & [= <- <-] & H). apply filter_In in H as [H E].
    cbn [fst snd] in *. apply str_eqb_eq in E as ->. exact H.
  - intros H. exists (k, t, c). split; [reflexivity|].
    apply filter_In. split; [exact H | apply str_eqb_refl].
Qed.

Lemma flat_map_option_length {A B : Type} (f : A -> option B) (l : list A) :
  length (flat_map (fun a => match f a with Some b => [b] | None => [] end) l)
  <= length l.
Proof.
  induction l as [|a l IH]; simpl; [lia|].
  rewrite length_app. destruct (f a); simpl; lia.
Qed.

Lemma distinct_length (f : list str -> list str) (l : list str) :
  distinct_order f -> length (f l) = length (set_elements l).
Proof.
  intros H. destruct (H l) as [Hn He]. apply Permutation_length.
  apply NoDup_Permutation; [exact Hn | apply NoDup_nodup|].
  intros x. rewrite He. unfold set_elements. symmetry. apply nodup_In.
Qed.

Lemma sqlite_int_range (n : Z) : sqlite_range n -> sqlite_int n = Ok n.
Proof.
  intros [H1 H2]. unfold sqlite_int.
  apply Z.leb_le in H1. apply Z.leb_le in H2. now rewrite H1, H2.
Qed.

Lemma sqlite_int_overflow (n : Z) :
  ~ sqlite_range n -> sqlite_int n = Raise OverflowError.
Proof.
  intros H. unfold sqlite_int.
  destruct (Z.leb_spec int64_min n); [|reflexivity].
  destruct (Z.leb_spec n int64_max); [|reflexivity].
  exfalso. apply H. now split.
Qed.

Lemma find_tables_by_token_bound (distinct_tables : list str -> list str)
  (db : registry_db) (tables : dict json) (token : str) (limit : Z) :
  sqlite_range limit ->
  find_tables_by_token distinct_tables db tables token limit
  = Ok (tables_found distinct_tables db tables token limit).
Proof.
  intros H. unfold find_tables_by_token. cbv zeta.
  now rewrite (sqlite_int_range limit H).
Qed.

Lemma find_columns_by_token_bound
  (distinct_columns : list (str * str) -> list (str * str))
  (db : registry_db) (token : str) (limit : Z) :
  sqlite_range limit ->
  find_columns_by_token distinct_columns db token limit
  = Ok (sql_limit limit (distinct_columns (column_matches db (token_key token)))).
Proof.
  intros H. unfold find_columns_by_token. cbv zeta.
  now rewrite (sqlite_int_range limit H).
Qed.

Lemma tables_found_In (distinct_tables : list str -> list str)
  (db : registry_db) (tables : dict json) (token : str) (limit : Z) (doc : json) :
  In doc (tables_found distinct_tables db tables token limit)
  <-> exists t,
        In t (sql_limit limit
                (distinct_tables (alias_matches db (token_key token))))
        /\ dict_get tables t = Some doc.
Proof.
  unfold tables_found. rewrite in_flat_map. split.
  - intros (t & Ht & Hd). exists t. split; [exact Ht|].
    destruct (dict_get tables t); [|contradiction].
    destruct Hd as [<- | []]. reflexivity.
  - intros (t & Ht & Hd). exists t. split; [exact Ht|]. rewrite Hd. now left.
Qed.

Section Lookups.

Variable distinct_tables : list str -> list str.
Variable distinct_columns : list (str * str) -> list (str * str).

Hypothesis distinct_tables_order : distinct_order distinct_tables.
Hypothesis distinct_columns_order : distinct_order distinct_columns.

(** [find_tables_by_token] raises [OverflowError] for a limit that is no
    signed 64-bit integer.  For every other limit it returns documents of
    the registry only, each stored under a table name that [alias_index]
    pairs with the lower-cased token, spaces turned into underscores; for a
    limit that is not negative it returns at most that many; and when the
    limit is negative, or not below the number of distinct tables indexed
    under the token, it returns the document of every such table that the
    registry holds.  The order of the rows of a query without [ORDER BY] is
    the engine's. *)
Theorem find_tables_by_token_finds (db : registry_db) (tables : dict json)
  (token : str) (limit : Z) :
  (~ sqlite_range limit ->
   find_tables_by_token distinct_tables db tables token limit
   = Raise OverflowError)
  /\ (sqlite_range limit ->
      exists docs,
        find_tables_by_token distinct_tables db tables token limit = Ok docs
        /\ (forall doc,
               In doc docs ->
               exists t, In (token_key token, t) (alias_index db)
                         /\ dict_get tables t = Some doc)
        /\ ((0 <= limit)%Z -> length docs <= Z.to_nat limit)
        /\ ((limit < 0)%Z
            \/ (Z.of_nat (length (set_elements (alias_matches db (token_key token))))
                <= limit)%Z ->
            forall t doc,
              In (token_key token, t) (alias_index db) ->
              dict_get tables t = Some doc ->
              In doc docs)).
Proof.
  split.
  { intros H. unfold find_tables_by_token. cbv zeta.
    now rewrite (sqlite_int_overflow limit H). }
  intros Hr. exists (tables_found distinct_tables db tables token limit).
  split; [now apply find_tables_by_token_bound|]. split; [|split].
  - intros doc H. apply tables_found_In in H as (t & Ht & Hd).
    exists t. split; [|exact Hd].
    apply sql_limit_incl in Ht.
    apply (proj1 (proj2 (distinct_tables_order _) _)) in Ht.
    now apply alias_matches_In.
  - intros Hl. unfold tables_found.
    etransitivity; [apply (flat_map_option_length (dict_get tables))|].
    now apply sql_limit_length.
  - intros Hl t doc Hi Hd. apply tables_found_In. exists t.
    split; [|exact Hd]. rewrite sql_limit_all.
    + apply (proj2 (proj2 (distinct_tables_order _) _)).
      now apply alias_matches_In.
    + now rewrite (distinct_length distinct_tables _ distinct_tables_order).
Qed.

(** [find_columns_by_token] raises [OverflowError] for a limit that is no
    signed 64-bit integer.  For every other limit it returns pairs of a
    table and a column that [column_index] holds under the token's key, no
    pair twice, at most [limit] of them for a limit that is not negative,
    and all of them when the limit is negative. *)
Theorem find_columns_by_token_finds (db : registry_db) (token : str) (limit : Z) :
  (~ sqlite_range limit ->
   find_columns_by_token distinct_columns db token limit = Raise OverflowError)
  /\ (sqlite_range limit ->
      exists pairs,
        find_columns_by_token distinct_columns db token limit = Ok pairs
        /\ (forall t c,
               In (t, c) pairs -> In (token_key token, t, c) (column_index db))
        /\ NoDup pairs
        /\ ((0 <= limit)%Z -> length pairs <= Z.to_nat limit)
        /\ ((limit < 0)%Z ->
            forall t c,
              In (token_key token, t, c) (column_index db) -> In (t, c) pairs)).
Proof.
  split.
  { intros H. unfold find_columns_by_token. cbv zeta.
    now rewrite (sqlite_int_overflow limit H). }
  intros Hr.
  exists (sql_limit limit (distinct_columns (column_matches db (token_key token)))).
  split; [now apply find_columns_by_token_bound|].
  destruct (distinct_columns_order (column_matches db (token_key token)))
    as [Hn He].
  split; [|split; [|split]].
  - intros t c H. apply sql_limit_incl in H. apply (proj1 (He _)) in H.
    now apply column_matches_In.
  - now apply sql_limit_NoDup.
  - apply sql_limit_length.
  - intros Hl t c H. rewrite sql_limit_all by now left.
    apply (proj2 (He _)). now apply column_matches_In.
Qed.

End Lookups.

Lemma set_elements_distinct : distinct_order set_elements.
Proof.
  intros l. split; [apply NoDup_nodup | intros x; apply nodup_In].
Qed.

Lemma distinct_pairs_distinct : distinct_order distinct_pairs.
Proof.
  intros l. split; [apply NoDup_nodup | intros x; apply nodup_In].
Qed.

Lemma find_tables_by_token_finds_sample :
  (exists docs,
      find_tables_by_token set_elements
        (mk_db [(lit "pol", lit "a"); (lit "pol", lit "b"); (lit "pol", lit "a")] [])
        [(lit "a", JStr (lit "A")); (lit "b", JStr (lit "B"))]
        (lit "POL") 1
      = Ok docs
      /\ length docs <= 1)
  /\ find_tables_by_token set_elements
       (mk_db [(lit "pol", lit "a"); (lit "pol", lit "b"); (lit "pol", lit "a")] [])
       [(lit "a", JStr (lit "A")); (lit "b", JStr (lit "B"))]
       (lit "POL") (2 ^ 63)
     = Raise OverflowError.
Proof.
  pose proof (find_tables_by_token_finds set_elements set_elements_distinct
                (mk_db [(lit "pol", lit "a"); (lit "pol", lit "b");
                        (lit "pol", lit "a")] [])
                [(lit "a", JStr (lit "A")); (lit "b", JStr (lit "B"))]
                (lit "POL")) as T.
  split.
  - destruct (proj2 (T 1%Z)) as (docs & H & _ & Hlen & _).
    + split; discriminate.
    + exists docs. split; [exact H | apply Hlen; discriminate].
  - apply (proj1 (T (2 ^ 63)%Z)). intros [_ H]. now apply H.
Defined.

Lemma find_columns_by_token_finds_sample :
  (exists pairs,
      find_columns_by_token distinct_pairs
        (mk_db [] [(lit "id", lit "a", lit "a_id"); (lit "id", lit "a", lit "a_id")])
        (lit "Id") 5
      = Ok pairs
      /\ NoDup pairs)
  /\ find_columns_by_token distinct_pairs
       (mk_db [] [(lit "id", lit "a", lit "a_id"); (lit "id", lit "a", lit "a_id")])
       (lit "Id") (- 2 ^ 63 - 1)
     = Raise OverflowError.
Proof.
  pose proof (find_columns_by_token_finds distinct_pairs distinct_pairs_distinct
                (mk_db [] [(lit "id", lit "a", lit "a_id");
                           (lit "id", lit "a", lit "a_id")])
                (lit "Id")) as T.
  split.
  - destruct (proj2 (T 5%Z)) as (pairs & H & _ & Hn & _).
    + split; discriminate.
    + exists pairs. exact (conj H Hn).
  - apply (proj1 (T (- 2 ^ 63 - 1)%Z)). intros [H _]. now apply H.
Defined.

(** ** The registry reader: the tokens of a query *)

Lemma lower_char_idempotent (c : ascii) : lower_char (lower_char c) = lower_char c.
Proof. ascii_cases c; reflexivity. Qed.

Lemma not_space_char (c : ascii) : py_isspace c = false -> Ascii.eqb c " " = false.
Proof. ascii_cases c; vm_compute; congruence. Qed.

Lemma split_ws_from_no_space (s : str) :
  forall cur t,
    forallb (fun c => negb (py_isspace c)) cur = true ->
    In t (split_ws_from cur s) ->
    forallb (fun c => negb (py_isspace c)) t = true.
Proof.
  induction s as [|c s IH]; intros cur t Hc; cbn [split_ws_from].
  - destruct (nonempty cur); [|contradiction]. now intros [<- | []].
  - destruct (py_isspace c) eqn:E.
    + destruct (nonempty cur); [|now apply IH].
      intros [<- | H]; [exact Hc | revert H; now apply IH].
    + apply IH. rewrite forallb_app, Hc. cbn [forallb]. now rewrite E.
Qed.

Lemma piece_of_In (p s : str) (c : ascii) : piece_of p s -> In c p -> In c s.
Proof.
  intros (a & b & ->) H. apply in_or_app. right. apply in_or_app. now left.
Qed.

Lemma query_token_facts (query token : str) :
  In token (py_split (py_lower query)) ->
  token <> []
  /\ forallb (fun c => negb (py_isspace c)) token = true
  /\ py_lower token = token
  /\ token_key token = token.
Proof.
  intros H.
  assert (Hs : forallb (fun c => negb (py_isspace c)) token = true).
  { revert H. now apply split_ws_from_no_space. }
  assert (Hl : py_lower token = token).
  { assert (Hp : piece_of token (py_lower query))
      by exact (split_ws_from_piece _ [] token H).
    assert (Hc : forall c, In c token -> lower_char c = c).
    { intros c Hc. apply (piece_of_In _ _ c Hp) in Hc.
      apply in_map_iff in Hc as (c' & <- & _). apply lower_char_idempotent. }
    clear - Hc. induction token as [|c t IH]; [reflexivity|].
    cbn [py_lower map]. rewrite (Hc c) by now left.
    f_equal. apply IH. intros c' H'. apply Hc. now right. }
  split; [|split; [exact Hs | split; [exact Hl|]]].
  - pose proof (split_ws_from_tokens [] (py_lower query)) as Hn.
    rewrite Forall_forall in Hn. now apply Hn.
  - unfold token_key. rewrite Hl. clear - Hs.
    induction token as [|c t IH]; [reflexivity|].
    cbn [forallb] in Hs. apply andb_true_iff in Hs as [Hc Hs].
    apply negb_true_iff in Hc. cbn [py_replace_char map].
    rewrite (not_space_char c Hc). f_equal. now apply IH.
Qed.

(** The tokens a tool makes of a query are non-empty, hold no
    whitespace and are already in lower case, so the key under which
    [find_tables_by_token] looks a token up is the token itself: neither
    [lower()] nor [replace(' ', '_')] changes it. *)
Theorem query_tokens_are_their_own_keys (query token : str) :
  In token (py_split (py_lower query)) ->
  token <> []
  /\ forallb (fun c => negb (py_isspace c)) token = true
  /\ py_lower token = token
  /\ token_key token = token.
Proof. apply query_token_facts. Qed.

Lemma query_tokens_are_their_own_keys_sample :
  token_key (lit "policies") = lit "policies".
Proof.
  apply (query_tokens_are_their_own_keys (lit "List  Policies") (lit "policies")).
  right. now left.
Defined.

(** ** The registry reader: the answers of the tools *)

Lemma json_getitem_get (doc : json) (k : str) (v d : json) :
  json_getitem doc k = Ok v -> json_get doc k d = v /\ json_truthy doc = true.
Proof.
  destruct doc as [s|l|fields]; cbn [json_getitem]; try discriminate.
  unfold dict_getitem. cbn [json_get json_truthy].
  destruct (dict_get fields k) as [v'|] eqn:E; [|discriminate].
  intros [= ->]. split; [reflexivity|]. now destruct fields.
Qed.

Lemma keyed_table_of (t : str) (doc : json) :
  json_getitem doc (lit "table") = Ok (JStr t) -> table_of doc = t.
Proof.
  intros H. unfold table_of.
  now rewrite (proj1 (json_getitem_get doc _ _ (JList []) H)).
Qed.

Lemma selector_entry_keyed (doc name : json) (results : list json) :
  json_getitem doc (lit "table") = Ok name ->
  selector_entry doc results = Ok (results ++ [selector_view doc]).
Proof.
  intros H. unfold selector_entry, selector_view.
  destruct (json_getitem_get doc _ _ (JList []) H) as [-> ->].
  now rewrite H.
Qed.

Lemma schema_entry_keyed (schema : dict json) (doc : json) (t : str)
  (results : list json) :
  json_getitem doc (lit "table") = Ok (JStr t) ->
  schema_entry schema doc results
  = Ok (results ++ [schema_view schema (table_of doc) doc]).
Proof.
  intros H. unfold schema_entry, schema_view.
  rewrite (keyed_table_of t doc H).
  destruct (json_getitem_get doc _ _ (JList []) H) as [_ ->].
  now rewrite H.
Qed.

Lemma py_for_views (entry : json -> list json -> outcome (list json))
  (view : json -> json) (docs results : list json) :
  (forall doc r, In doc docs -> entry doc r = Ok (r ++ [view doc])) ->
  py_for entry docs results = Ok (results ++ map view docs).
Proof.
  revert results; induction docs as [|doc docs IH]; intros results H;
    cbn [py_for map].
  - now rewrite app_nil_r.
  - rewrite H by now left. cbn [bind]. rewrite IH.
    + now rewrite <- app_assoc.
    + intros d r Hd. apply H. now right.
Qed.

Lemma py_for_tokens (body : str -> list json -> outcome (list json))
  (found : str -> list json) (tokens : list str) (results : list json) :
  (forall token r, body token r = Ok (r ++ found token)) ->
  py_for body tokens results = Ok (results ++ flat_map found tokens).
Proof.
  intros H; revert results; induction tokens as [|token tokens IH];
    intros results; cbn [py_for flat_map].
  - now rewrite app_nil_r.
  - rewrite H. cbn [bind]. rewrite IH. now rewrite <- app_assoc.
Qed.

(** The deduplication loop on entries whose table name is a string. *)
Lemma dedup_loop (results : list json) :
  forall seen unique_results,
    Forall (fun e => exists k, json_getitem e (lit "table") = Ok (JStr k)) results ->
    map table_of unique_results = seen -> NoDup seen ->
    exists unique',
      py_for dedup_step results (seen, unique_results)
      = Ok (map table_of unique', unique')
      /\ NoDup (map table_of unique')
      /\ (forall e, In e unique' -> In e unique_results \/ In e results).
Proof.
  induction results as [|r results IH]; intros seen uniq Hr Hs Hn;
    cbn [py_for].
  - exists uniq. rewrite Hs. repeat split; auto.
  - inversion Hr as [|? ? (k & Hk) Hr']; subst.
    unfold dedup_step at 1. rewrite Hk. cbn [bind].
    destruct (py_in k (map table_of uniq)) eqn:E; cbn [negb].
    + destruct (IH _ uniq Hr' eq_refl Hn) as (u & E1 & E2 & E3).
      exists u. split; [exact E1 | split; [exact E2|]].
      intros e He. destruct (E3 e He); [now left | right; now right].
    + destruct (IH (map table_of uniq ++ [k]) (uniq ++ [r]) Hr') as (u & E1 & E2 & E3).
      * rewrite map_app. cbn [map]. now rewrite (keyed_table_of k r Hk).
      * apply NoDup_snoc; [exact Hn | now apply py_in_false].
      * exists u. split; [exact E1 | split; [exact E2|]].
        intros e He. destruct (E3 e He) as [H | H]; [|right; now right].
        apply in_app_or in H as [H | [<- | []]]; [now left | right; now left].
Qed.

Lemma NoDup_map_JStr (l : list str) : NoDup l -> NoDup (map JStr l).
Proof.
  induction 1 as [|x l Hx Hl IH]; cbn [map]; constructor; [|exact IH].
  intros H. apply in_map_iff in H as (y & [= ->] & Hy). contradiction.
Qed.

Lemma entry_table_of (l : list json) :
  Forall (fun e => exists k, json_getitem e (lit "table") = Ok (JStr k)) l ->
  map entry_table l = map JStr (map table_of l).
Proof.
  induction 1 as [|e l (k & Hk) _ IH]; [reflexivity|]. cbn [map].
  rewrite IH, (keyed_table_of k e Hk). f_equal. unfold entry_table.
  exact (proj1 (json_getitem_get e _ _ (JList []) Hk)).
Qed.

Section Tools.

Variable distinct_tables : list str -> list str.
Variable distinct_columns : list (str * str) -> list (str * str).
Variable json_dumps_indent : json -> str.

Hypothesis distinct_tables_order : distinct_order distinct_tables.

Variable db : registry_db.
Variable tables : dict json.

Hypothesis tables_keyed : Forall keyed_by_table tables.

Lemma found_keyed (token : str) (limit : Z) (doc : json) :
  In doc (tables_found distinct_tables db tables token limit) ->
  exists t,
    In (token_key token, t) (alias_index db)
    /\ dict_get tables t = Some doc
    /\ json_getitem doc (lit "table") = Ok (JStr t).
Proof.
  intros H. apply tables_found_In in H as (t & Ht & Hd).
  exists t. split; [|split; [exact Hd|]].
  - apply sql_limit_incl in Ht.
    apply (proj1 (proj2 (distinct_tables_order _) _)) in Ht.
    now apply alias_matches_In.
  - pose proof tables_keyed as Hk. rewrite Forall_forall in Hk.
    exact (Hk _ (dict_get_In _ _ _ Hd)).
Qed.

(** What both tools answer, from the entries they make of the documents
    found: [view] is the entry of a document, [body] the loop body that
    appends the entries for one token. *)
Lemma tool_answer (entry : json -> list json -> outcome (list json))
  (body : str -> list json -> outcome (list json))
  (view : json -> json) (cap : nat) (query : str) :
  (forall token r,
      body token r
      = py_for entry (tables_found distinct_tables db tables token 3) r) ->
  (forall t doc r, json_getitem doc (lit "table") = Ok (JStr t) ->
                   entry doc r = Ok (r ++ [view doc])) ->
  (forall t doc, json_getitem doc (lit "table") = Ok (JStr t) ->
                 json_getitem (view doc) (lit "table") = Ok (JStr t)) ->
  exists entries,
    (results <- py_for body (py_split (py_lower query)) [] ;;
     st <- py_for dedup_step results ([], []) ;;
     Ok (json_dumps_indent (JList (firstn cap (snd st)))))
    = Ok (json_dumps_indent (JList entries))
    /\ length entries <= cap
    /\ NoDup (map entry_table entries)
    /\ forall e, In e entries ->
         exists token t doc,
           In token (py_split (py_lower query))
           /\ In (token, t) (alias_index db)
           /\ dict_get tables t = Some doc
           /\ e = view doc.
Proof.
  intros Hbody Hentry Hview.
  set (found := fun token =>
                  map view (tables_found distinct_tables db tables token 3)).
  assert (Hb : forall token r, body token r = Ok (r ++ found token)).
  { intros token r. rewrite Hbody. apply py_for_views.
    intros doc r' Hd. destruct (found_keyed _ _ _ Hd) as (t & _ & _ & Hk).
    exact (Hentry t doc r' Hk). }
  rewrite (py_for_tokens body found _ [] Hb). cbn [bind app].
  assert (Hres : forall e, In e (flat_map found (py_split (py_lower query))) ->
                 exists token t doc,
                   In token (py_split (py_lower query))
                   /\ In (token, t) (alias_index db)
                   /\ dict_get tables t = Some doc
                   /\ json_getitem doc (lit "table") = Ok (JStr t)
                   /\ e = view doc).
  { intros e He. apply in_flat_map in He as (token & Ht & He).
    apply in_map_iff in He as (doc & <- & Hd).
    destruct (found_keyed _ _ _ Hd) as (t & Hr & Hg & Hk).
    exists token, t, doc. repeat split; auto.
    now rewrite <- (proj2 (proj2 (proj2 (query_token_facts
                                            query token Ht)))) at 1. }
  assert (Hstr : Forall (fun e => exists k,
                             json_getitem e (lit "table") = Ok (JStr k))
                   (flat_map found (py_split (py_lower query)))).
  { apply Forall_forall. intros e He.
    destruct (Hres e He) as (_ & t & doc & _ & _ & _ & Hk & ->).
    exists t. now apply Hview. }
  destruct (dedup_loop _ [] [] Hstr eq_refl (NoDup_nil _)) as (u & -> & Hn & Hin).
  cbn [bind snd]. exists (firstn cap u). split; [reflexivity|].
  assert (Hsub : forall e, In e (firstn cap u) ->
                           In e (flat_map found (py_split (py_lower query)))).
  { intros e He. rewrite <- (firstn_skipn cap u) in Hin.
    destruct (Hin e (in_or_app _ _ _ (or_introl He))) as [[] | H]. exact H. }
  split; [rewrite length_firstn; lia|]. split.
  - rewrite entry_table_of.
    + apply NoDup_map_JStr. rewrite <- firstn_map. now apply NoDup_firstn_of.
    + apply Forall_forall. intros e He. rewrite Forall_forall in Hstr.
      apply Hstr, Hsub, He.
  - intros e He. destruct (Hres e (Hsub e He)) as (token & t & doc & H1 & H2 & H3 & _ & H5).
    now exists token, t, doc.
Qed.

(** On a registry whose documents are stored under their own table
    names, as [_load_registry] leaves it, [TableSelectorTool._run] always
    answers: at most five entries, no table twice, each entry made of a
    document of the registry whose table [alias_index] pairs with one of the
    lower-cased words of the query.  The columns found for a token do not
    enter the answer. *)
Theorem selector_tool_answer (query : str) :
  exists entries,
    TableSelectorTool_run distinct_tables distinct_columns json_dumps_indent
      db tables query
    = Ok (json_dumps_indent (JList entries))
    /\ length entries <= 5
    /\ NoDup (map entry_table entries)
    /\ forall e, In e entries ->
         exists token t doc,
           In token (py_split (py_lower query))
           /\ In (token, t) (alias_index db)
           /\ dict_get tables t = Some doc
           /\ e = selector_view doc.
Proof.
  apply (tool_answer selector_entry
           (selector_body distinct_tables distinct_columns db tables)
           selector_view 5 query).
  - reflexivity.
  - intros t doc r H. exact (selector_entry_keyed doc _ r H).
  - intros t doc H. unfold selector_view. cbn [json_getitem].
    unfold dict_getitem. cbn [dict_get]. rewrite str_eqb_refl.
    now rewrite (proj1 (json_getitem_get doc _ _ (JList []) H)).
Qed.

(** Under the same condition [SchemaAwareTool._run] always answers: at
    most three entries, no table twice, each entry made of a document of
    the registry found under a word of the query, with the columns that
    [schema.json] lists for the table, or none. *)
Theorem schema_tool_answer (schema : dict json) (query : str) :
  exists entries,
    SchemaAwareTool_run distinct_tables json_dumps_indent db tables schema query
    = Ok (json_dumps_indent (JList entries))
    /\ length entries <= 3
    /\ NoDup (map entry_table entries)
    /\ forall e, In e entries ->
         exists token t doc,
           In token (py_split (py_lower query))
           /\ In (token, t) (alias_index db)
           /\ dict_get tables t = Some doc
           /\ e = schema_view schema (table_of doc) doc.
Proof.
  apply (tool_answer (schema_entry schema)
           (schema_body distinct_tables db tables schema)
           (fun doc => schema_view schema (table_of doc) doc) 3 query).
  - reflexivity.
  - intros t doc r H. exact (schema_entry_keyed schema doc t r H).
  - intros t doc H. rewrite (keyed_table_of t doc H). reflexivity.
Qed.

End Tools.

Lemma selector_tool_answer_sample :
  exists entries,
    TableSelectorTool_run set_elements distinct_pairs JsonText.dumps
      (mk_db [(lit "pol", lit "policies"); (lit "policies", lit "policies")] [])
      [(lit "policies", JObj [(lit "table", JStr (lit "policies"))])]
      (lit "POL policies")
    = Ok (JsonText.dumps (JList entries))
    /\ length entries <= 5.
Proof.
  assert (K : Forall keyed_by_table
                [(lit "policies", JObj [(lit "table", JStr (lit "policies"))])])
    by (repeat constructor).
  destruct (selector_tool_answer set_elements distinct_pairs JsonText.dumps
              set_elements_distinct
              (mk_db [(lit "pol", lit "policies"); (lit "policies", lit "policies")] [])
              [(lit "policies", JObj [(lit "table", JStr (lit "policies"))])]
              K (lit "POL policies"))
    as (entries & H1 & H2 & _).
  exists entries. exact (conj H1 H2).
Defined.

Lemma schema_tool_answer_sample :
  exists entries,
    SchemaAwareTool_run set_elements JsonText.dumps
      (mk_db [(lit "pol", lit "policies"); (lit "policies", lit "policies")] [])
      [(lit "policies", JObj [(lit "table", JStr (lit "policies"))])]
      [(lit "policies", JList [JStr (lit "pol_id")])]
      (lit "POL policies")
    = Ok (JsonText.dumps (JList entries))
    /\ length entries <= 3.
Proof.
  assert (K : Forall keyed_by_table
                [(lit "policies", JObj [(lit "table", JStr (lit "policies"))])])
    by (repeat constructor).
  destruct (schema_tool_answer set_elements JsonText.dumps
              set_elements_distinct
              (mk_db [(lit "pol", lit "policies"); (lit "policies", lit "policies")] [])
              [(lit "policies", JObj [(lit "table", JStr (lit "policies"))])]
              K
              [(lit "policies", JList [JStr (lit "pol_id")])]
              (lit "POL policies"))
    as (entries & H1 & H2 & _).
  exists entries. exact (conj H1 H2).
Defined.

(** ** Builder and reader together *)

Lemma name_char_key (c : ascii) :
  is_name_char c = true ->
  (if Ascii.eqb (lower_char c) " " then "_"%char else lower_char c)
  = (if in_range 48 57 (lower_char c) || in_range 97 122 (lower_char c)
     then lower_char c else "_"%char).
Proof. ascii_cases c; vm_compute; congruence. Qed.

Lemma token_key_of_name (t : str) :
  forallb is_name_char t = true -> token_key t = normalize t.
Proof.
  induction t as [|c t IH]; [reflexivity|].
  cbn [forallb]. intros H. apply andb_true_iff in H as [Hc Ht].
  rewrite normalize_cons, <- (name_char_key c Hc), <- (IH Ht). reflexivity.
Qed.

Section FreshRegistry.

Variable sha1_hexdigest : str -> str.
Variable set_iter : list str -> list str.
Variable json_dumps : json -> str.
Variable json_loads : str -> outcome json.
Variable distinct_tables : list str -> list str.

Local Abbreviation build := (build_registry sha1_hexdigest set_iter json_dumps).
Local Abbreviation doc_of := (item_doc sha1_hexdigest set_iter).
Local Abbreviation find := (find_tables_by_token distinct_tables).

Variable schema : dict (list str).

Hypothesis schema_keys : NoDup (dict_keys schema).
Hypothesis set_iter_elements : forall l a, In a (set_iter l) <-> In a l.
Hypothesis codec :
  Forall (fun item => codec_round_trips json_dumps json_loads (doc_of item)) schema.
Hypothesis distinct_tables_order : distinct_order distinct_tables.

Lemma load_built_registry (db : registry_db) :
  _load_registry json_loads (fst (build schema db))
  = Ok (map (fun item => (fst item, doc_of item)) schema).
Proof.
  unfold _load_registry, file_lines. rewrite build_registry_file.
  rewrite universal_newlines_id
    by exact (registry_text_no_cr _ _ _ _ schema codec).
  rewrite (registry_text_lines _ _ _ _ schema codec).
  rewrite (load_lines_registry _ _ _ _ schema [] codec).
  now rewrite fold_setitem_fresh.
Qed.

Lemma fresh_alias_tables (key t : str) :
  In t (alias_matches (snd (build schema empty_db)) key) ->
  In t (dict_keys schema).
Proof.
  intros H. apply alias_matches_In in H.
  rewrite build_registry_store in H. cbn [alias_index empty_db app] in H.
  now apply (in_alias_rows set_iter set_iter_elements) in H as [H _].
Qed.

(** A registry built from a schema into an empty store and read back
    answers a lookup with documents of tables of the schema only, each
    under a token whose key is the normalized table name or one of its
    normalized underscore-separated parts.  For a limit that is a signed
    64-bit integer, a token whose key holds a character other than a digit,
    a lower-case ASCII letter or the underscore finds nothing, and a table
    whose name is made of word characters and spaces is found under its own
    name, whenever the limit is negative or not below the number of
    tables. *)
Theorem fresh_registry_lookup :
  exists tables,
    _load_registry json_loads (fst (build schema empty_db)) = Ok tables
    /\ (forall token limit docs doc,
           find (snd (build schema empty_db)) tables token limit = Ok docs ->
           In doc docs ->
           exists t cols,
             In (t, cols) schema /\ doc = doc_of (t, cols)
             /\ (token_key token = normalize t
                 \/ exists part, In part (py_split_on "_" t)
                                 /\ token_key token = normalize part))
    /\ (forall token limit,
           sqlite_range limit ->
           forallb is_alias_char (token_key token) = false ->
           find (snd (build schema empty_db)) tables token limit = Ok [])
    /\ (forall t cols limit,
           In (t, cols) schema -> forallb is_name_char t = true ->
           sqlite_range limit ->
           (limit < 0)%Z \/ (Z.of_nat (length schema) <= limit)%Z ->
           exists docs,
             find (snd (build schema empty_db)) tables t limit = Ok docs
             /\ In (doc_of (t, cols)) docs).
Proof.
  exists (map (fun item => (fst item, doc_of item)) schema).
  split; [apply load_built_registry|].
  assert (Sound : forall token limit doc,
             In doc (tables_found distinct_tables (snd (build schema empty_db))
                       (map (fun item => (fst item, doc_of item)) schema)
                       token limit) ->
             exists t cols,
               In (t, cols) schema /\ doc = doc_of (t, cols)
               /\ (token_key token = normalize t
                   \/ exists part, In part (py_split_on "_" t)
                                   /\ token_key token = normalize part)).
  { intros token limit doc H.
    apply tables_found_In in H as (t & Ht & Hd).
    apply sql_limit_incl in Ht.
    apply (proj1 (proj2 (distinct_tables_order _) _)) in Ht.
    apply alias_matches_In in Ht.
    rewrite build_registry_store in Ht. cbn [alias_index empty_db app] in Ht.
    apply (in_alias_rows set_iter set_iter_elements) in Ht as [_ Ha].
    apply dict_get_In, in_map_iff in Hd as ([t' cols] & [= -> <-] & Hi).
    exists t, cols. auto. }
  split; [|split].
  - intros token limit docs doc H Hin. apply (Sound token limit).
    unfold find_tables_by_token in H. cbv zeta in H.
    destruct (sqlite_int limit) as [n| |] eqn:E; cbn [bind] in H;
      try discriminate H.
    injection H as <-.
    unfold sqlite_int in E.
    destruct ((int64_min <=? limit)%Z && (limit <=? int64_max)%Z);
      [|discriminate E].
    injection E as <-. exact Hin.
  - intros token limit Hr Hk. rewrite find_tables_by_token_bound by exact Hr.
    destruct (tables_found _ _ _ token limit) as [|doc l] eqn:E; [reflexivity|].
    destruct (Sound token limit doc) as (t & cols & _ & _ & Ha).
    { rewrite E. now left. }
    assert (Hn : forallb is_alias_char (token_key token) = true).
    { destruct Ha as [-> | (part & _ & ->)]; apply normalize_alias_chars. }
    congruence.
  - intros t cols limit Hi Hn Hr Hl.
    exists (tables_found distinct_tables (snd (build schema empty_db))
              (map (fun item => (fst item, doc_of item)) schema) t limit).
    split; [now apply find_tables_by_token_bound|].
    apply tables_found_In.
    exists t. split.
    + rewrite sql_limit_all.
      * apply (proj2 (proj2 (distinct_tables_order _) _)).
        apply alias_matches_In. rewrite build_registry_store.
        cbn [alias_index empty_db app].
        apply (in_alias_rows set_iter set_iter_elements). split.
        -- apply in_map_iff. now exists (t, cols).
        -- left. now apply token_key_of_name.
      * destruct Hl as [Hl | Hl]; [now left | right].
        assert (Hlen : length (distinct_tables
                                 (alias_matches (snd (build schema empty_db))
                                    (token_key t)))
                       <= length (dict_keys schema)).
        { apply NoDup_incl_length; [apply distinct_tables_order|].
          intros x Hx. apply (proj1 (proj2 (distinct_tables_order _) _)) in Hx.
          exact (fresh_alias_tables _ _ Hx). }
        unfold dict_keys in Hlen. rewrite length_map in Hlen. lia.
    + apply (dict_get_docs sha1_hexdigest set_iter schema t cols).
      now apply In_dict_get.
Qed.

End FreshRegistry.

Lemma fresh_registry_lookup_sample :
  exists tables docs,
    _load_registry JsonText.loads
      (fst (build_registry constant_digest set_elements JsonText.dumps
              sample_schema empty_db))
    = Ok tables
    /\ find_tables_by_token set_elements
         (snd (build_registry constant_digest set_elements JsonText.dumps
                 sample_schema empty_db))
         tables (lit "Claims") 3
       = Ok docs
    /\ In (item_doc constant_digest set_elements
             (lit "Claims", [dquote :: lit "amount"; lit "claim id"]))
          docs
    /\ find_tables_by_token set_elements
         (snd (build_registry constant_digest set_elements JsonText.dumps
                 sample_schema empty_db))
         tables (lit "pol-policies") 3
       = Ok [].
Proof.
  destruct (fresh_registry_lookup constant_digest set_elements
              JsonText.dumps JsonText.loads set_elements sample_schema)
    as (tables & Hload & _ & Hnone & Hfind).
  - repeat constructor; simpl; intuition discriminate.
  - intros l a. apply nodup_In.
  - repeat constructor; vm_compute; reflexivity.
  - exact set_elements_distinct.
  - destruct (Hfind (lit "Claims") [dquote :: lit "amount"; lit "claim id"] 3%Z)
      as (docs & Hd & Hin).
    + right; now left.
    + reflexivity.
    + split; discriminate.
    + right; discriminate.
    + exists tables, docs. refine (conj Hload (conj Hd (conj Hin _))).
      apply Hnone; [split; discriminate | reflexivity].
Defined.

(** ** Registry enrichment: [normalize_token] *)

Lemma rev_drop_while_decompose (p : ascii -> bool) (x : str) :
  x = rev (drop_while p (rev x)) ++ rev (take_while p (rev x)).
Proof.
  rewrite <- rev_app_distr, take_drop_while. symmetry. apply rev_involutive.
Qed.

Lemma py_strip_char_piece (ch : ascii) (s : str) :
  exists a b,
    s = a ++ py_strip_char ch s ++ b
    /\ forallb (Ascii.eqb ch) a = true /\ forallb (Ascii.eqb ch) b = true.
Proof.
  unfold py_strip_char.
  exists (take_while (Ascii.eqb ch) s),
         (rev (take_while (Ascii.eqb ch) (rev (drop_while (Ascii.eqb ch) s)))).
  split; [|split].
  - rewrite <- rev_drop_while_decompose. symmetry. apply take_drop_while.
  - apply take_while_all.
  - rewrite forallb_rev. apply take_while_all.
Qed.

Lemma py_strip_char_edges (ch : ascii) (s : str) :
  match py_strip_char ch s with [] => True | a :: _ => a <> ch end
  /\ match rev (py_strip_char ch s) with [] => True | b :: _ => b <> ch end.
Proof.
  unfold py_strip_char. split.
  - pose proof (drop_while_head (Ascii.eqb ch) s) as H.
    rewrite (rev_drop_while_decompose (Ascii.eqb ch) (drop_while (Ascii.eqb ch) s)) in H.
    destruct (rev (drop_while (Ascii.eqb ch) (rev (drop_while (Ascii.eqb ch) s))))
      as [|a r]; [exact I|].
    cbn [app] in H. intros ->. now rewrite Ascii.eqb_refl in H.
  - rewrite rev_involutive.
    pose proof (drop_while_head (Ascii.eqb ch) (rev (drop_while (Ascii.eqb ch) s))) as H.
    destruct (drop_while (Ascii.eqb ch) (rev (drop_while (Ascii.eqb ch) s)))
      as [|b r]; [exact I|].
    intros ->. now rewrite Ascii.eqb_refl in H.
Qed.

Lemma py_strip_char_fixed (ch : ascii) (s : str) :
  match s with [] => True | a :: _ => a <> ch end ->
  match rev s with [] => True | b :: _ => b <> ch end ->
  py_strip_char ch s = s.
Proof.
  intros Ha Hb. unfold py_strip_char.
  assert (E1 : drop_while (Ascii.eqb ch) s = s).
  { destruct s as [|a r]; [reflexivity|]. cbn [drop_while].
    destruct (Ascii.eqb ch a) eqn:E; [|reflexivity].
    apply Ascii.eqb_eq in E. congruence. }
  rewrite E1.
  assert (E2 : drop_while (Ascii.eqb ch) (rev s) = rev s).
  { destruct (rev s) as [|b r]; [reflexivity|]. cbn [drop_while].
    destruct (Ascii.eqb ch b) eqn:E; [|reflexivity].
    apply Ascii.eqb_eq in E. congruence. }
  rewrite E2. apply rev_involutive.
Qed.

Lemma normalize_token_alias_chars (s : str) :
  forallb is_alias_char (normalize_token s) = true.
Proof.
  unfold normalize_token.
  destruct (py_strip_char_piece "_" (normalize s)) as (a & b & E & _ & _).
  pose proof (normalize_alias_chars s) as H. rewrite E, !forallb_app in H.
  apply andb_true_iff in H as [_ H]. now apply andb_true_iff in H as [H _].
Qed.

Lemma normalize_token_edges (s : str) : no_edge_underscore (normalize_token s).
Proof. apply py_strip_char_edges. Qed.

Lemma normalize_token_idempotent (s : str) :
  normalize_token (normalize_token s) = normalize_token s.
Proof.
  unfold normalize_token at 1.
  rewrite (proj2 (normalize_fixed _) (normalize_token_alias_chars s)).
  destruct (normalize_token_edges s) as [Ha Hb].
  now apply py_strip_char_fixed.
Qed.

(** [normalize_token] returns the normalized text without the
    underscores at its two ends: a text over the digits, the lower-case
    ASCII letters and the underscore that neither begins nor ends with an
    underscore; applying it again changes nothing. *)
Theorem normalize_token_is_a_trimmed_alias (s : str) :
  (exists a b,
      normalize s = a ++ normalize_token s ++ b
      /\ forallb (Ascii.eqb "_") a = true /\ forallb (Ascii.eqb "_") b = true)
  /\ forallb is_alias_char (normalize_token s) = true
  /\ no_edge_underscore (normalize_token s)
  /\ normalize_token (normalize_token s) = normalize_token s.
Proof.
  split; [apply py_strip_char_piece|].
  split; [apply normalize_token_alias_chars|].
  split; [apply normalize_token_edges | apply normalize_token_idempotent].
Qed.

(** ** Registry enrichment: [split_col_tokens] *)

Lemma split_col_tokens_alias (col tok : str) :
  In tok (split_col_tokens col) ->
  forallb is_alias_char tok = true /\ no_edge_underscore tok.
Proof.
  unfold split_col_tokens. cbv zeta. intros H.
  apply in_map_iff in H as (p & <- & _).
  split; [apply normalize_token_alias_chars | apply normalize_token_edges].
Qed.

Lemma lower_underscore (c : ascii) :
  Ascii.eqb (lower_char c) "_" = Ascii.eqb c "_".
Proof. ascii_cases c; reflexivity. Qed.

Lemma underscore_ci (c : ascii) : Ascii.eqb "_" (lower_char c) = true -> c = "_"%char.
Proof. ascii_cases c; vm_compute; congruence. Qed.

Lemma word_char_token_sep (c : ascii) :
  is_word_char c = true -> is_token_sep c = Ascii.eqb c "_".
Proof.
  intros H. unfold is_token_sep.
  destruct (word_char_not_special c H) as [-> _]. apply orb_false_r.
Qed.

Lemma word_char_normalize (c : ascii) :
  is_word_char c = true -> Ascii.eqb c "_" = false ->
  (if in_range 48 57 (lower_char c) || in_range 97 122 (lower_char c)
   then lower_char c else "_"%char) = lower_char c
  /\ lower_char c <> "_"%char.
Proof. ascii_cases c; vm_compute; intros; split; congruence. Qed.

(** The pieces [re.split] makes of a text of word characters are, the empty
    ones apart, those of [split('_')]. *)
Lemma re_split_runs_word (s : str) :
  forall (in_run : bool) (cur : str),
    forallb is_word_char s = true ->
    (in_run = true -> cur = []) ->
    filter (fun p => nonempty p) (re_split_runs is_token_sep in_run cur s)
    = filter (fun p => nonempty p)
        (match py_split_on "_" s with
         | p :: ps => (cur ++ p) :: ps
         | [] => [cur]
         end).
Proof.
  induction s as [|c s IH]; intros in_run cur Hs Hr.
  - cbn [re_split_runs py_split_on]. now rewrite app_nil_r.
  - cbn [forallb] in Hs. apply andb_true_iff in Hs as [Hc Hs].
    cbn [re_split_runs py_split_on]. rewrite (word_char_token_sep c Hc).
    destruct (Ascii.eqb c "_") eqn:E.
    + rewrite app_nil_r.
      assert (IH' := IH true [] Hs (fun _ => eq_refl)).
      destruct (py_split_on "_" s) as [|p ps] eqn:Es.
      { now apply py_split_on_nonempty in Es. }
      cbn [app] in IH'.
      destruct in_run.
      * rewrite (Hr eq_refl). cbn [filter nonempty]. exact IH'.
      * cbn [filter]. now rewrite IH'.
    + rewrite (IH false (cur ++ [c]) Hs) by discriminate.
      destruct (py_split_on "_" s) as [|p ps] eqn:Es.
      { now apply py_split_on_nonempty in Es. }
      now rewrite <- app_assoc.
Qed.

Lemma py_split_on_lower (s : str) :
  py_split_on "_" (py_lower s) = map py_lower (py_split_on "_" s).
Proof.
  induction s as [|c s IH]; [reflexivity|].
  cbn [py_lower map py_split_on]. fold (py_lower s).
  rewrite lower_underscore, IH.
  destruct (Ascii.eqb c "_"); [reflexivity|].
  now destruct (py_split_on "_" s).
Qed.

Lemma py_split_on_pieces (sep : ascii) (s p : str) :
  In p (py_split_on sep s) ->
  forallb (fun c => negb (Ascii.eqb c sep)) p = true
  /\ forall c, In c p -> In c s.
Proof.
  revert p; induction s as [|c s IH]; intros p; cbn [py_split_on].
  - intros [<- | []]. split; [reflexivity | contradiction].
  - destruct (Ascii.eqb c sep) eqn:E.
    + intros [<- | H]; [split; [reflexivity | contradiction]|].
      destruct (IH p H) as [H1 H2]. split; [exact H1|].
      intros c' Hc'. right. now apply H2.
    + destruct (py_split_on sep s) as [|q qs] eqn:Es.
      { intros [<- | []]. cbn [forallb]. rewrite E. split; [reflexivity|].
        intros c' [<- | []]. now left. }
      intros [<- | H].
      * destruct (IH q (or_introl eq_refl)) as [H1 H2].
        cbn [forallb]. rewrite E, H1. split; [reflexivity|].
        intros c' [<- | Hc']; [now left | right; now apply H2].
      * destruct (IH p (or_intror H)) as [H1 H2]. split; [exact H1|].
        intros c' Hc'. right. now apply H2.
Qed.

Lemma normalize_token_word_piece (p : str) :
  forallb is_word_char p = true ->
  forallb (fun c => negb (Ascii.eqb c "_")) p = true ->
  normalize_token p = py_lower p.
Proof.
  intros Hw Hu.
  assert (En : normalize p = py_lower p
               /\ forallb (fun c => negb (Ascii.eqb c "_")) (py_lower p) = true).
  { induction p as [|c p IH]; [now split|].
    cbn [forallb] in Hw, Hu.
    apply andb_true_iff in Hw as [Hc Hw]. apply andb_true_iff in Hu as [Hn Hu].
    apply negb_true_iff in Hn.
    destruct (word_char_normalize c Hc Hn) as [E1 E2].
    destruct (IH Hw Hu) as [E3 E4].
    rewrite normalize_cons, E1, E3. cbn [py_lower map forallb].
    split; [reflexivity|]. fold (py_lower p). rewrite E4, andb_true_r.
    apply negb_true_iff, Ascii.eqb_neq. exact E2. }
  destruct En as [En Hl]. unfold normalize_token. rewrite En.
  apply py_strip_char_fixed.
  - destruct (py_lower p) as [|a r]; [exact I|].
    cbn [forallb] in Hl. apply andb_true_iff in Hl as [Hl _].
    apply negb_true_iff, Ascii.eqb_neq in Hl. exact Hl.
  - rewrite <- forallb_rev in Hl. destruct (rev (py_lower p)) as [|b r]; [exact I|].
    cbn [forallb] in Hl. apply andb_true_iff in Hl as [Hl _].
    apply negb_true_iff, Ascii.eqb_neq in Hl. exact Hl.
Qed.

Lemma filter_nonempty_lower (l : list str) :
  filter (fun p => nonempty p) (map py_lower l)
  = map py_lower (filter (fun p => nonempty p) l).
Proof.
  induction l as [|p l IH]; [reflexivity|]. cbn [map filter]. rewrite IH.
  now destruct p.
Qed.

Lemma re_split_tokens_word (s : str) :
  forallb is_word_char s = true ->
  filter (fun p => nonempty p) (re_split_tokens s)
  = filter (fun p => nonempty p) (py_split_on "_" s).
Proof.
  intros Hs. unfold re_split_tokens.
  change (fun c : ascii => (Ascii.eqb c "_" || py_isspace c)%bool) with is_token_sep.
  rewrite (re_split_runs_word s false [] Hs) by discriminate.
  destruct (py_split_on "_" s) eqn:Es; [|reflexivity].
  now apply py_split_on_nonempty in Es.
Qed.

(** The tokens of a text of word characters without the suffix rule. *)
Lemma word_tokens (s : str) :
  forallb is_word_char s = true ->
  map normalize_token (filter (fun p => nonempty p) (re_split_tokens s))
  = filter (fun p => nonempty p) (py_split_on "_" (py_lower s)).
Proof.
  intros Hs.
  rewrite (re_split_tokens_word s Hs), py_split_on_lower, filter_nonempty_lower.
  apply map_ext_in. intros p Hp. apply filter_In in Hp as [Hp _].
  destruct (py_split_on_pieces "_" s p Hp) as [H1 H2].
  apply normalize_token_word_piece; [|exact H1].
  apply forallb_forall. intros c Hc. rewrite forallb_forall in Hs.
  apply Hs, H2, Hc.
Qed.

Lemma py_split_on_snoc_sep (x : str) :
  filter (fun p => nonempty p) (py_split_on "_" (x ++ ["_"%char]))
  = filter (fun p => nonempty p) (py_split_on "_" x).
Proof.
  induction x as [|c x IH]; [reflexivity|].
  cbn [app py_split_on]. destruct (Ascii.eqb c "_").
  - cbn [filter nonempty]. exact IH.
  - destruct (py_split_on "_" (x ++ ["_"%char])) as [|p ps] eqn:E1.
    { now apply py_split_on_nonempty in E1. }
    destruct (py_split_on "_" x) as [|q qs] eqn:E2.
    { now apply py_split_on_nonempty in E2. }
    cbn [filter nonempty] in *.
    destruct p as [|a p], q as [|b q]; cbn [nonempty] in IH.
    + now f_equal.
    + destruct ps as [|p' ps'].
      * discriminate.
      * exfalso. clear IH. revert q qs p' ps' E1 E2. clear.
        intros. destruct x as [|d x]; [discriminate|].
        cbn [app py_split_on] in E1, E2.
        destruct (Ascii.eqb d "_").
        -- discriminate.
        -- destruct (py_split_on "_" (x ++ ["_"%char])); discriminate.
    + exfalso. destruct x as [|d x]; [discriminate|].
      cbn [app py_split_on] in E1, E2.
      destruct (Ascii.eqb d "_"); [discriminate|].
      destruct (py_split_on "_" x); discriminate.
    + now injection IH as <- <- <-.
Qed.

Lemma rev_eq_cons {A : Type} (s r : list A) : rev s = r -> s = rev r.
Proof. intros <-. symmetry. apply rev_involutive. Qed.

Lemma ends_ci_underscore (p1 p2 : ascii) (s : str) :
  ends_ci ["_"%char; p1; p2] s = true ->
  exists x a b, s = x ++ ["_"%char; a; b] /\ ends_ci [p1; p2] s = true.
Proof.
  unfold ends_ci, starts_ci. cbn [rev app].
  destruct (rev s) as [|b [|a [|u r]]] eqn:E; cbn [match_lit_ci].
  - discriminate.
  - destruct (Ascii.eqb p2 (lower_char b)); discriminate.
  - destruct (Ascii.eqb p2 (lower_char b)); [|discriminate].
    destruct (Ascii.eqb p1 (lower_char a)); discriminate.
  - destruct (Ascii.eqb p2 (lower_char b)); [|discriminate].
    destruct (Ascii.eqb p1 (lower_char a)); [|discriminate].
    destruct (Ascii.eqb "_" (lower_char u)) eqn:Eu; [|discriminate].
    intros _. apply underscore_ci in Eu as ->.
    apply rev_eq_cons in E. exists (rev r), a, b. split; [|reflexivity].
    rewrite E. cbn [rev]. now rewrite <- !app_assoc.
Qed.

Lemma word_chars_no_line_feed (s : str) :
  forallb is_word_char s = true -> py_endswith s [LF] = false.
Proof.
  intros H. unfold py_endswith. cbn [rev app].
  rewrite <- forallb_rev in H. destruct (rev s) as [|b r]; [reflexivity|].
  cbn [forallb] in H. apply andb_true_iff in H as [H _].
  cbn [py_startswith]. destruct (Ascii.eqb LF b) eqn:E; [|reflexivity].
  apply Ascii.eqb_eq in E as <-. discriminate.
Qed.

Lemma forallb_firstn {A : Type} (f : A -> bool) (n : nat) (l : list A) :
  forallb f l = true -> forallb f (firstn n l) = true.
Proof.
  intros H. rewrite <- (firstn_skipn n l), forallb_app in H.
  now apply andb_true_iff in H as [H _].
Qed.

(** Every token [split_col_tokens] returns is a text over the digits,
    the lower-case ASCII letters and the underscore without an underscore
    at either end.  For a column name of word characters the function
    drops a final [id] or [no], in any case of the letters and with or
    without an underscore before it, and returns the lower-cased non-empty
    underscore-separated parts of the rest. *)
Theorem split_col_tokens_of_word_name (col : str) :
  (forall tok, In tok (split_col_tokens col) ->
               forallb is_alias_char tok = true /\ no_edge_underscore tok)
  /\ (forallb is_word_char col = true ->
      split_col_tokens col
      = filter (fun p => nonempty p)
          (py_split_on "_" (py_lower (without_id col)))).
Proof.
  split; [apply split_col_tokens_alias|].
  intros Hw. unfold split_col_tokens. cbv zeta. unfold re_sub_id_suffix.
  rewrite (word_chars_no_line_feed col Hw). unfold drop_id_suffix, without_id.
  destruct (ends_ci (lit "_id") col || ends_ci (lit "_no") col) eqn:E3.
  - assert (H : exists x a b,
                 col = x ++ ["_"%char; a; b]
                 /\ (ends_ci (lit "id") col || ends_ci (lit "no") col) = true).
    { apply orb_true_iff in E3 as [E | E];
        apply ends_ci_underscore in E as (x & a & b & Ex & Ey);
        exists x, a, b; (split; [exact Ex|]);
        change (lit "id") with ["i"%char; "d"%char];
        change (lit "no") with ["n"%char; "o"%char];
        rewrite Ey; [reflexivity | apply orb_true_r]. }
    destruct H as (x & a & b & Ex & ->).
    assert (F3 : firstn (length col - 3) col = x).
    { rewrite Ex, length_app. cbn [length].
      replace (length x + 3 - 3) with (length x + 0) by lia.
      rewrite firstn_app_2. cbn [firstn]. apply app_nil_r. }
    assert (F2 : firstn (length col - 2) col = x ++ ["_"%char]).
    { rewrite Ex, length_app. cbn [length].
      replace (length x + 3 - 2) with (length x + 1) by lia.
      now rewrite firstn_app_2. }
    rewrite F3, F2.
    assert (Hx : forallb is_word_char x = true).
    { rewrite <- F3. now apply forallb_firstn. }
    rewrite (word_tokens x Hx). unfold py_lower. rewrite map_app. cbn [map].
    change (lower_char "_") with "_"%char.
    symmetry. apply py_split_on_snoc_sep.
  - destruct (ends_ci (lit "id") col || ends_ci (lit "no") col).
    + apply word_tokens. now apply forallb_firstn.
    + now apply word_tokens.
Qed.

Lemma split_col_tokens_of_word_name_sample :
  split_col_tokens (lit "pol_PolicyID") = [lit "pol"; lit "policy"].
Proof.
  exact (proj2 (split_col_tokens_of_word_name (lit "pol_PolicyID")) eq_refl).
Defined.

(** ** The text sanitizers *)

Lemma tag_rest_some (b : str) :
  (exists n, tag_rest b = Some n)
  <-> exists c r, b = c :: r /\ c <> ">"%char /\ In ">"%char r.
Proof.
  unfold tag_rest. cbv zeta. split.
  - destruct b as [|c r]; [intros [n [=]]|]. cbn [take_while drop_while].
    unfold not_gt at 1 3. destruct (Ascii.eqb c ">") eqn:E; cbn [negb nonempty andb].
    { intros [n [=]]. }
    intros [n H]. exists c, r. split; [reflexivity|].
    split; [now apply Ascii.eqb_neq|].
    destruct (py_startswith (drop_while not_gt r) (lit ">")) eqn:Es; [|discriminate].
    rewrite <- (take_drop_while not_gt r). apply in_or_app. right.
    destruct (drop_while not_gt r) as [|d r']; [discriminate|].
    cbn in Es. apply andb_true_iff in Es as [Es _].
    apply Ascii.eqb_eq in Es as <-. now left.
  - intros (c & r & -> & Hc & Hin). cbn [take_while drop_while].
    apply Ascii.eqb_neq in Hc. unfold not_gt at 1 3. rewrite Hc.
    cbn [negb nonempty andb].
    assert (Hs : py_startswith (drop_while not_gt r) (lit ">") = true).
    { clear Hc. induction r as [|d r IH]; [contradiction|].
      cbn [drop_while]. unfold not_gt at 1.
      destruct (Ascii.eqb d ">") eqn:E; cbn [negb].
      - apply Ascii.eqb_eq in E as ->. change (lit ">") with [">"%char].
        cbn [py_startswith]. rewrite Ascii.eqb_refl. apply py_startswith_nil.
      - apply IH. destruct Hin as [-> | H]; [|exact H].
        now rewrite Ascii.eqb_refl in E. }
    rewrite Hs. eauto.
Qed.

Lemma tag_rest_none (b : str) :
  tag_rest b = None <->
  b = [] \/ (exists r, b = ">"%char :: r) \/ ~ In ">"%char b.
Proof.
  split.
  - intros H. destruct b as [|c r]; [now left|]. right.
    destruct (Ascii.eqb c ">") eqn:E.
    + apply Ascii.eqb_eq in E as ->. left. eauto.
    + right. intros [Hc | Hin]; [subst; now rewrite Ascii.eqb_refl in E|].
      assert (Hs : exists n, tag_rest (c :: r) = Some n).
      { apply tag_rest_some. exists c, r. split; [reflexivity|].
        split; [now apply Ascii.eqb_neq | exact Hin]. }
      destruct Hs as [n Hs]. congruence.
  - intros H. destruct (tag_rest b) as [n|] eqn:E; [|reflexivity]. exfalso.
    destruct (proj1 (tag_rest_some b) (ex_intro _ n E)) as (c & r & -> & Hc & Hin).
    destruct H as [H | [(r' & H) | H]].
    + discriminate.
    + injection H as -> _. now apply Hc.
    + apply H. now right.
Qed.

Lemma re_sub_tags_In (s : str) :
  forall skip x, In x (re_sub_tags skip s) -> In x s.
Proof.
  induction s as [|c s IH]; intros skip x; cbn [re_sub_tags]; [trivial|].
  destruct skip as [|k].
  - destruct (Ascii.eqb c "<").
    + destruct (tag_rest s).
      * intros H. right. exact (IH _ _ H).
      * intros [<- | H]; [now left | right; exact (IH _ _ H)].
    + intros [<- | H]; [now left | right; exact (IH _ _ H)].
  - intros H. right. exact (IH _ _ H).
Qed.

Lemma re_sub_tags_tag_free (s : str) :
  forall skip, tag_free (re_sub_tags skip s) = true.
Proof.
  induction s as [|c s IH]; intros skip; cbn [re_sub_tags]; [reflexivity|].
  destruct skip as [|k]; [|apply IH].
  destruct (Ascii.eqb c "<") eqn:Ec.
  - destruct (tag_rest s) as [n|] eqn:Et; [apply IH|].
    cbn [tag_free]. rewrite Ec, IH, andb_true_r. cbn [andb].
    assert (Hn : tag_rest (re_sub_tags 0 s) = None).
    { apply tag_rest_none. apply tag_rest_none in Et as [-> | [(r & ->) | Hno]].
      - now left.
      - right. left. cbn [re_sub_tags]. cbn. eauto.
      - right. right. intros H. apply Hno. exact (re_sub_tags_In _ _ _ H). }
    now rewrite Hn.
  - cbn [tag_free]. now rewrite Ec, IH.
Qed.

Lemma tag_free_tl (c : ascii) (s : str) : tag_free (c :: s) = true -> tag_free s = true.
Proof. cbn [tag_free]. intros H. now apply andb_true_iff in H as [_ H]. Qed.

Lemma tag_free_skipn (n : nat) (s : str) :
  tag_free s = true -> tag_free (skipn n s) = true.
Proof.
  revert s; induction n as [|n IH]; intros s H; [exact H|].
  destruct s as [|c s]; [reflexivity|]. cbn [skipn]. apply IH.
  exact (tag_free_tl c s H).
Qed.

Lemma In_firstn {A : Type} (n : nat) (l : list A) (x : A) :
  In x (firstn n l) -> In x l.
Proof.
  intros H. rewrite <- (firstn_skipn n l). apply in_or_app. now left.
Qed.

Lemma tag_rest_firstn (n : nat) (b : str) :
  tag_rest b = None -> tag_rest (firstn n b) = None.
Proof.
  intros H. apply tag_rest_none. apply tag_rest_none in H as [-> | [(r & ->) | H]].
  - left. now destruct n.
  - destruct n as [|n]; [now left|]. right. left. cbn [firstn]. eauto.
  - right. right. intros Hin. apply H. exact (In_firstn _ _ _ Hin).
Qed.

Lemma tag_free_firstn (n : nat) (s : str) :
  tag_free s = true -> tag_free (firstn n s) = true.
Proof.
  revert n; induction s as [|c s IH]; intros n H; [now destruct n|].
  destruct n as [|n]; [reflexivity|]. cbn [firstn tag_free] in *.
  apply andb_true_iff in H as [Hc Hs]. rewrite (IH n Hs), andb_true_r.
  destruct (Ascii.eqb c "<"); [|reflexivity]. cbn [andb] in *.
  destruct (tag_rest s) eqn:E; [discriminate|].
  now rewrite (tag_rest_firstn n s E).
Qed.

Lemma tag_free_piece (p s : str) :
  piece_of p s -> tag_free s = true -> tag_free p = true.
Proof.
  intros (a & b & ->) H.
  apply (tag_free_skipn (length a)) in H. rewrite skipn_app, skipn_all in H.
  replace (length a - length a) with 0 in H by lia. cbn [skipn app] in H.
  apply (tag_free_firstn (length p)) in H.
  now rewrite firstn_app, firstn_all, Nat.sub_diag, app_nil_r in H.
Qed.

Lemma space_is_not_bracket (c : ascii) :
  py_isspace c = true -> Ascii.eqb c "<" = false /\ Ascii.eqb c ">" = false.
Proof. ascii_cases c; vm_compute; split; congruence. Qed.

Lemma collapse_ws_In_gt (s : str) (r : bool) :
  In ">"%char (collapse_ws r s) <-> In ">"%char s.
Proof.
  revert r; induction s as [|c s IH]; intros r; cbn [collapse_ws]; [reflexivity|].
  destruct (py_isspace c) eqn:E.
  - destruct (space_is_not_bracket c E) as [_ Hg].
    apply Ascii.eqb_neq in Hg.
    assert (Hsp : " "%char <> ">"%char) by discriminate.
    destruct r; cbn [In]; rewrite IH; intuition congruence.
  - cbn [In]. rewrite IH. reflexivity.
Qed.

Lemma collapse_ws_tag_rest (s : str) :
  tag_rest s = None -> tag_rest (collapse_ws false s) = None.
Proof.
  intros H. apply tag_rest_none. apply tag_rest_none in H as [-> | [(r & ->) | H]].
  - now left.
  - right. left. cbn [collapse_ws].
    change (py_isspace ">") with false. cbn. eauto.
  - right. right. now rewrite collapse_ws_In_gt.
Qed.

Lemma collapse_ws_tag_free (s : str) :
  forall r, tag_free s = true -> tag_free (collapse_ws r s) = true.
Proof.
  induction s as [|c s IH]; intros r H; [reflexivity|].
  cbn [tag_free] in H. apply andb_true_iff in H as [Hc Hs].
  cbn [collapse_ws]. destruct (py_isspace c) eqn:E.
  - destruct r; [now apply IH|]. cbn [tag_free]. rewrite (IH true Hs).
    reflexivity.
  - cbn [tag_free]. rewrite (IH false Hs), andb_true_r.
    destruct (Ascii.eqb c "<"); [|reflexivity]. cbn [andb] in *.
    destruct (tag_rest s) eqn:Et; [discriminate|].
    now rewrite (collapse_ws_tag_rest s Et).
Qed.

Lemma py_slice_to_firstn (s : str) (m : Z) : exists n, py_slice_to s m = firstn n s.
Proof. unfold py_slice_to. destruct (m <? 0)%Z; eauto. Qed.

Lemma collapse_ws_single_spaced (s : str) :
  forall r, single_spaced r (collapse_ws r s) = true.
Proof.
  induction s as [|c s IH]; intros r; cbn [collapse_ws]; [reflexivity|].
  destruct (py_isspace c) eqn:E.
  - destruct r; [apply IH|]. cbn [single_spaced].
    change (py_isspace " ") with true. cbn. apply IH.
  - cbn [single_spaced]. rewrite E. apply IH.
Qed.

Lemma single_spaced_drop_while (s : str) (r : bool) :
  single_spaced r s = true ->
  single_spaced true (drop_while py_isspace s) = true.
Proof.
  revert r; induction s as [|c s IH]; intros r H; [reflexivity|].
  cbn [drop_while]. cbn [single_spaced] in H. destruct (py_isspace c) eqn:E.
  - apply andb_true_iff in H as [_ H]. exact (IH true H).
  - cbn [single_spaced]. now rewrite E.
Qed.

Lemma single_spaced_firstn (n : nat) (s : str) :
  forall r, single_spaced r s = true -> single_spaced r (firstn n s) = true.
Proof.
  revert n; induction s as [|c s IH]; intros n r H; [now destruct n|].
  destruct n as [|n]; [reflexivity|]. cbn [firstn single_spaced] in *.
  destruct (py_isspace c).
  - apply andb_true_iff in H as [H1 H2]. now rewrite H1, (IH n true H2).
  - now apply IH.
Qed.

Lemma py_rstrip_firstn (s : str) : exists n, py_rstrip s = firstn n s.
Proof.
  destruct (py_rstrip_decompose s) as (ws & E & _).
  exists (length (py_rstrip s)). revert E. generalize (py_rstrip s).
  intros p ->. now rewrite firstn_app, firstn_all, Nat.sub_diag, app_nil_r.
Qed.

(** What the common end of the two sanitizers makes of a text. *)
Lemma cleaned_text (s : str) (maxlen : Z) :
  let r := py_slice_to (py_strip (collapse_ws false (re_sub_tags 0 s))) maxlen in
  tag_free r = true
  /\ single_spaced true r = true
  /\ ((0 <= maxlen)%Z -> length r <= Z.to_nat maxlen)
  /\ (py_strip r = r \/ ((0 <= maxlen)%Z /\ length r = Z.to_nat maxlen)
      \/ (maxlen < 0)%Z).
Proof.
  cbv zeta.
  set (t := py_strip (collapse_ws false (re_sub_tags 0 s))).
  assert (Ht : tag_free t = true).
  { apply (tag_free_piece t (collapse_ws false (re_sub_tags 0 s)));
      [apply py_strip_piece|].
    apply collapse_ws_tag_free, re_sub_tags_tag_free. }
  assert (Hs : single_spaced true t = true).
  { unfold t, py_strip, py_lstrip.
    destruct (py_rstrip_firstn
                (drop_while py_isspace (collapse_ws false (re_sub_tags 0 s))))
      as [n ->].
    apply single_spaced_firstn.
    apply (single_spaced_drop_while _ false), collapse_ws_single_spaced. }
  destruct (py_slice_to_firstn t maxlen) as [n En]. rewrite En.
  split; [now apply tag_free_firstn|].
  split; [now apply single_spaced_firstn|].
  split.
  - intros Hm. rewrite <- En. unfold py_slice_to.
    destruct (Z.ltb_spec maxlen 0); [lia|]. rewrite length_firstn. lia.
  - rewrite <- En. unfold py_slice_to. destruct (Z.ltb_spec maxlen 0).
    + right. now right.
    + destruct (Nat.le_gt_cases (length t) (Z.to_nat maxlen)) as [Hl | Hl].
      * left. rewrite firstn_all2 by exact Hl. apply py_strip_trimmed.
      * right. left. split; [exact H|]. rewrite length_firstn. lia.
Qed.

(** What [sanitize_text] returns holds no tag (at no place does
    [<[^>]+>] match), no whitespace but single spaces, none at the start,
    and is at most [maxlen] characters long when [maxlen] is not negative.
    It has no space at the end either, unless the text was cut at
    [maxlen]. *)
Theorem sanitize_text_is_clean (s : option str) (maxlen : Z) :
  let r := sanitize_text s maxlen in
  tag_free r = true
  /\ single_spaced true r = true
  /\ ((0 <= maxlen)%Z -> length r <= Z.to_nat maxlen)
  /\ (py_strip r = r \/ ((0 <= maxlen)%Z /\ length r = Z.to_nat maxlen)
      \/ (maxlen < 0)%Z).
Proof.
  destruct s as [s|]; [apply cleaned_text|].
  cbn. repeat split; try lia. now left.
Qed.

Lemma py_startswith_firstn (s p : str) (n : nat) :
  py_startswith (firstn n s) p = true -> py_startswith s p = true.
Proof.
  revert s n; induction p as [|a p IH]; intros s n.
  - now destruct s.
  - destruct s as [|b s]; destruct n as [|n]; cbn [firstn py_startswith];
      try discriminate.
    intros H. apply andb_true_iff in H as [H1 H2].
    now rewrite H1, (IH s n H2).
Qed.

(** What [sanitize_page_field] returns is clean in the same sense, and
    it never begins with [http://] or [https://], whatever the case of the
    letters: a text that does so after cleaning is answered by the empty
    text. *)
Theorem sanitize_page_field_is_clean (s : option str) (maxlen : Z) :
  let r := sanitize_page_field s maxlen in
  tag_free r = true
  /\ single_spaced true r = true
  /\ ((0 <= maxlen)%Z -> length r <= Z.to_nat maxlen)
  /\ (py_strip r = r \/ ((0 <= maxlen)%Z /\ length r = Z.to_nat maxlen)
      \/ (maxlen < 0)%Z)
  /\ py_startswith (py_lower r) (lit "http://") = false
  /\ py_startswith (py_lower r) (lit "https://") = false.
Proof.
  assert (Hnil : tag_free [] = true
                 /\ single_spaced true [] = true
                 /\ ((0 <= maxlen)%Z -> length (@nil ascii) <= Z.to_nat maxlen)
                 /\ (py_strip [] = []
                     \/ ((0 <= maxlen)%Z /\ length (@nil ascii) = Z.to_nat maxlen)
                     \/ (maxlen < 0)%Z)
                 /\ py_startswith (py_lower []) (lit "http://") = false
                 /\ py_startswith (py_lower []) (lit "https://") = false).
  { cbn. repeat split; try lia. now left. }
  destruct s as [s|]; [|exact Hnil]. cbv zeta. unfold sanitize_page_field.
  set (u := re_sub_single_tags 0 (re_sub_wrappers 0 0 0 s)).
  set (t := py_strip (collapse_ws false (re_sub_tags 0 u))).
  destruct (negb (nonempty t)); cbn [orb]; [exact Hnil|].
  destruct (py_startswith (py_lower t) (lit "http://")) eqn:E1; cbn [orb];
    [exact Hnil|].
  destruct (py_startswith (py_lower t) (lit "https://")) eqn:E2; [exact Hnil|].
  destruct (cleaned_text u maxlen) as (H1 & H2 & H3 & H4). fold t in H1, H2, H3, H4.
  repeat (split; [assumption|]).
  destruct (py_slice_to_firstn t maxlen) as [n ->].
  unfold py_lower in *. rewrite <- firstn_map. split.
  - destruct (py_startswith (firstn n (map lower_char t)) (lit "http://")) eqn:E;
      [|reflexivity].
    apply py_startswith_firstn in E. congruence.
  - destruct (py_startswith (firstn n (map lower_char t)) (lit "https://")) eqn:E;
      [|reflexivity].
    apply py_startswith_firstn in E. congruence.
Qed.

(** ** The wrapper of [sanitize_page_field] *)

Lemma match_lit_ci_lower (p rest : str) :
  match_lit_ci (py_lower p) (p ++ rest) = Some rest.
Proof.
  induction p as [|c p IH]; [now destruct rest|].
  cbn [py_lower map app match_lit_ci]. now rewrite Ascii.eqb_refl.
Qed.

Lemma take_while_not_gt (x rest : str) :
  forallb not_gt x = true ->
  take_while not_gt (x ++ ">"%char :: rest) = x
  /\ drop_while not_gt (x ++ ">"%char :: rest) = ">"%char :: rest.
Proof.
  induction x as [|c x IH]; intros H.
  - split; reflexivity.
  - cbn [forallb] in H. apply andb_true_iff in H as [Hc Hx].
    destruct (IH Hx) as [E1 E2]. cbn [app take_while drop_while].
    rewrite Hc, E1, E2. now split.
Qed.

Lemma tag_named_at (name p x rest : str) :
  py_lower p = name -> forallb not_gt x = true ->
  tag_named name (p ++ x ++ ">"%char :: rest)
  = Some (length p + length x + 1).
Proof.
  intros <- Hx. unfold tag_named. rewrite match_lit_ci_lower.
  destruct (take_while_not_gt x rest Hx) as [-> ->].
  change (lit ">") with [">"%char]. cbn [py_startswith].
  rewrite Ascii.eqb_refl, py_startswith_nil. cbn [andb].
  now rewrite length_py_lower.
Qed.

Lemma lower_lt (c : ascii) : Ascii.eqb "<" (lower_char c) = Ascii.eqb c "<".
Proof. ascii_cases c; reflexivity. Qed.

Lemma tag_named_other (name s : str) (c : ascii) :
  Ascii.eqb c "<" = false ->
  tag_named ("<"%char :: name) (c :: s) = None.
Proof.
  intros H. unfold tag_named. cbn [match_lit_ci]. now rewrite lower_lt, H.
Qed.

Lemma find_close_eq (s : str) (j : nat) :
  find_close s j
  = match close_tag s with
    | Some n => Some (j, n)
    | None => match s with [] => None | _ :: s' => find_close s' (S j) end
    end.
Proof. destruct s; reflexivity. Qed.

Lemma find_close_after (w p x rest : str) (j : nat) :
  forallb (fun c => negb (Ascii.eqb c "<")) w = true ->
  py_lower p = lit "</websitecontent_" -> forallb not_gt x = true ->
  find_close (w ++ p ++ x ++ ">"%char :: rest) j
  = Some (j + length w, length p + length x + 1).
Proof.
  intros Hw Hp Hx; revert j; induction w as [|c w IH]; intros j.
  - cbn [app length]. rewrite find_close_eq. unfold close_tag.
    rewrite (tag_named_at _ p x rest Hp Hx). now rewrite Nat.add_0_r.
  - cbn [forallb] in Hw. apply andb_true_iff in Hw as [Hc Hw].
    apply negb_true_iff in Hc. cbn [app]. rewrite find_close_eq.
    unfold close_tag at 1.
    change (lit "</websitecontent_") with ("<"%char :: lit "/websitecontent_") at 1.
    rewrite (tag_named_other _ _ c Hc).
    rewrite (IH Hw (S j)). cbn [length].
    now replace (j + S (length w)) with (S j + length w) by lia.
Qed.

Lemma re_sub_wrappers_drop (x3 rest : str) :
  re_sub_wrappers 0 0 (length x3) (x3 ++ rest) = re_sub_wrappers 0 0 0 rest.
Proof.
  induction x3 as [|d x3 IH]; [reflexivity|].
  cbn [length app re_sub_wrappers]. exact IH.
Qed.

Lemma re_sub_wrappers_keep (x2 x3 rest : str) :
  re_sub_wrappers 0 (length x2) (length x3) (x2 ++ x3 ++ rest)
  = x2 ++ re_sub_wrappers 0 0 0 rest.
Proof.
  induction x2 as [|c x2 IH]; [cbn [length app]; apply re_sub_wrappers_drop|].
  cbn [length app re_sub_wrappers]. now rewrite IH.
Qed.

Lemma re_sub_wrappers_skip (x1 x2 x3 rest : str) :
  re_sub_wrappers (length x1) (length x2) (length x3) (x1 ++ x2 ++ x3 ++ rest)
  = x2 ++ re_sub_wrappers 0 0 0 rest.
Proof.
  induction x1 as [|c x1 IH]; [cbn [length app]; apply re_sub_wrappers_keep|].
  cbn [length app re_sub_wrappers]. exact IH.
Qed.

Lemma no_lt_plain (w : str) :
  forallb (fun c => negb (Ascii.eqb c "<")) w = true ->
  re_sub_wrappers 0 0 0 w = w
  /\ re_sub_single_tags 0 w = w
  /\ re_sub_tags 0 w = w.
Proof.
  induction w as [|c w IH]; intros H; [repeat split|].
  cbn [forallb] in H. apply andb_true_iff in H as [Hc Hw].
  apply negb_true_iff in Hc. destruct (IH Hw) as (E1 & E2 & E3).
  cbn [re_sub_wrappers re_sub_single_tags re_sub_tags].
  unfold wrapper_at, open_tag, close_tag.
  change (lit "<websitecontent_") with ("<"%char :: lit "websitecontent_").
  change (lit "</websitecontent_") with ("<"%char :: lit "/websitecontent_").
  rewrite !(tag_named_other _ _ c Hc). cbn [first_some].
  now rewrite Hc, E1, E2, E3.
Qed.

(** A text wrapped in one pair of [WebsiteContent_] tags, the tag names
    in any case of their letters and with any identifiers, is sanitized as
    the text inside, when that text holds no [<]: the wrapper goes, the
    whitespace is collapsed and trimmed, a text that is empty or begins
    with [http://] or [https://] becomes the empty text, and the rest is cut
    at [maxlen]. *)
Theorem sanitize_page_field_unwraps (p q id1 id2 w : str) (maxlen : Z) :
  py_lower p = lit "<websitecontent_" ->
  py_lower q = lit "</websitecontent_" ->
  forallb not_gt id1 = true -> forallb not_gt id2 = true ->
  forallb (fun c => negb (Ascii.eqb c "<")) w = true ->
  sanitize_page_field
    (Some (p ++ id1 ++ lit ">" ++ w ++ q ++ id2 ++ lit ">")) maxlen
  = let t := py_strip (collapse_ws false w) in
    if negb (nonempty t) || py_startswith (py_lower t) (lit "http://")
       || py_startswith (py_lower t) (lit "https://")
    then [] else py_slice_to t maxlen.
Proof.
  intros Hp Hq H1 H2 Hw.
  assert (E : re_sub_wrappers 0 0 0
                (p ++ id1 ++ lit ">" ++ w ++ q ++ id2 ++ lit ">") = w).
  { change (lit ">") with [">"%char]. cbn [app].
    destruct p as [|c0 p']; [discriminate Hp|].
    cbn [app re_sub_wrappers]. unfold wrapper_at, open_tag.
    change (c0 :: p' ++ id1 ++ ">"%char :: w ++ q ++ id2 ++ [">"%char])
      with ((c0 :: p') ++ id1 ++ ">"%char :: w ++ q ++ id2 ++ [">"%char]).
    rewrite (tag_named_at _ (c0 :: p') id1 _ Hp H1).
    assert (Es : skipn (length (c0 :: p') + length id1 + 1)
                   ((c0 :: p') ++ id1 ++ ">"%char :: w ++ q ++ id2 ++ [">"%char])
                 = w ++ q ++ id2 ++ ">"%char :: []).
    { replace ((c0 :: p') ++ id1 ++ ">"%char :: w ++ q ++ id2 ++ [">"%char])
        with (((c0 :: p') ++ id1 ++ [">"%char]) ++ w ++ q ++ id2 ++ [">"%char])
        by (now rewrite <- !app_assoc).
      replace (length (c0 :: p') + length id1 + 1)
        with (length ((c0 :: p') ++ id1 ++ [">"%char]))
        by (rewrite !length_app; cbn [length]; lia).
      apply skipn_length_app. }
    rewrite Es, (find_close_after w q id2 [] 0 Hw Hq H2).
    cbn [length]. replace (S (length p') + length id1 + 1 - 1)
      with (length (p' ++ id1 ++ [">"%char]))
      by (rewrite !length_app; cbn [length]; lia).
    replace (length q + length id2 + 1)
      with (length (q ++ id2 ++ [">"%char]))
      by (rewrite !length_app; cbn [length]; lia).
    replace (p' ++ id1 ++ ">"%char :: w ++ q ++ id2 ++ [">"%char])
      with ((p' ++ id1 ++ [">"%char]) ++ w ++ (q ++ id2 ++ [">"%char]) ++ [])
      by (now rewrite <- !app_assoc, app_nil_r).
    cbn [Nat.add]. rewrite re_sub_wrappers_skip. apply app_nil_r. }
  unfold sanitize_page_field. rewrite E.
  destruct (no_lt_plain w Hw) as (_ & -> & ->). reflexivity.
Qed.

Lemma sanitize_page_field_unwraps_sample :
  sanitize_page_field
    (Some (lit "<WebsiteContent_" ++ lit "M1" ++ lit ">" ++ lit " Home   page "
           ++ lit "</WebsiteContent_" ++ lit "M1" ++ lit ">")) 200
  = lit "Home page".
Proof.
  exact (sanitize_page_field_unwraps (lit "<WebsiteContent_")
           (lit "</WebsiteContent_") (lit "M1") (lit "M1") (lit " Home   page ")
           200 eq_refl eq_refl eq_refl eq_refl eq_refl).
Defined.

(** ** Registry enrichment: the order of strings and [sorted] *)

Lemma code_inj (x y : ascii) : code x = code y -> x = y.
Proof.
  unfold code. intros H.
  rewrite <- (ascii_nat_embedding x), <- (ascii_nat_embedding y). now rewrite H.
Qed.

Lemma str_ltb_irrefl (a : str) : str_ltb a a = false.
Proof.
  induction a as [|x a IH]; [reflexivity|]. cbn [str_ltb].
  now rewrite Nat.ltb_irrefl.
Qed.

Lemma str_ltb_trans (a b c : str) :
  str_ltb a b = true -> str_ltb b c = true -> str_ltb a c = true.
Proof.
  revert b c; induction a as [|x a IH]; intros [|y b] [|z c]; cbn [str_ltb];
    try congruence.
  destruct (Nat.ltb_spec (code x) (code y)), (Nat.ltb_spec (code y) (code x)),
    (Nat.ltb_spec (code y) (code z)), (Nat.ltb_spec (code z) (code y)),
    (Nat.ltb_spec (code x) (code z)), (Nat.ltb_spec (code z) (code x));
    try congruence; try lia.
  apply IH.
Qed.

Lemma str_ltb_total (a b : str) :
  str_ltb a b = false -> str_ltb b a = false -> a = b.
Proof.
  revert b; induction a as [|x a IH]; intros [|y b]; cbn [str_ltb];
    try congruence.
  destruct (Nat.ltb_spec (code x) (code y)), (Nat.ltb_spec (code y) (code x));
    try congruence; try lia.
  intros H1 H2. assert (code x = code y) by lia.
  f_equal; [now apply code_inj | now apply IH].
Qed.

Lemma str_ltb_asym (a b : str) : str_ltb a b = true -> str_ltb b a = false.
Proof.
  intros H. destruct (str_ltb b a) eqn:E; [|reflexivity].
  pose proof (str_ltb_trans a b a H E) as C. now rewrite str_ltb_irrefl in C.
Qed.

Lemma str_ltb_le_trans (a b c : str) :
  str_ltb b a = false -> str_ltb c b = false -> str_ltb c a = false.
Proof.
  intros H1 H2. destruct (str_ltb c a) eqn:E; [|reflexivity].
  destruct (str_ltb a b) eqn:E'.
  - pose proof (str_ltb_trans c a b E E'). congruence.
  - pose proof (str_ltb_total a b E' H1). subst. congruence.
Qed.

Lemma insert_asc_perm (x : str) (l : list str) :
  Permutation (insert_asc x l) (x :: l).
Proof.
  induction l as [|y l IH]; cbn [insert_asc]; [reflexivity|].
  destruct (str_ltb y x); [|reflexivity]. rewrite IH. apply perm_swap.
Qed.

Lemma py_sorted_perm (l : list str) : Permutation (py_sorted l) l.
Proof.
  induction l as [|x l IH]; [reflexivity|].
  change (py_sorted (x :: l)) with (insert_asc x (py_sorted l)).
  rewrite insert_asc_perm. now constructor.
Qed.

Lemma insert_asc_sorted (x : str) (l : list str) :
  StronglySorted (fun a b => str_ltb b a = false) l ->
  StronglySorted (fun a b => str_ltb b a = false) (insert_asc x l).
Proof.
  induction 1 as [|y l Hs IH Hy]; cbn [insert_asc].
  - repeat constructor.
  - destruct (str_ltb y x) eqn:E.
    + constructor; [exact IH|]. apply Forall_forall. intros z Hz.
      apply (Permutation_in _ (insert_asc_perm x l)) in Hz.
      destruct Hz as [<- | Hz]; [now apply str_ltb_asym|].
      rewrite Forall_forall in Hy. now apply Hy.
    + constructor; [now constructor|]. constructor; [exact E|].
      apply Forall_forall. intros z Hz. rewrite Forall_forall in Hy.
      apply (str_ltb_le_trans x y z E). now apply Hy.
Qed.

Lemma py_sorted_sorted (l : list str) :
  StronglySorted (fun a b => str_ltb b a = false) (py_sorted l).
Proof.
  induction l as [|x l IH]; [constructor|]. apply insert_asc_sorted, IH.
Qed.

Lemma sorted_NoDup_strict (l : list str) :
  StronglySorted (fun a b => str_ltb b a = false) l -> NoDup l ->
  StronglySorted str_lt l.
Proof.
  induction 1 as [|x l Hs IH Hx]; intros Hn; [constructor|].
  inversion Hn as [|? ? Hnx Hnl]; subst. constructor; [now apply IH|].
  apply Forall_forall. intros y Hy. rewrite Forall_forall in Hx.
  red. destruct (str_ltb x y) eqn:E; [reflexivity|].
  pose proof (str_ltb_total x y E (Hx y Hy)). subst. contradiction.
Qed.

Lemma py_sorted_strict (l : list str) :
  NoDup l -> StronglySorted str_lt (py_sorted l).
Proof.
  intros H. apply sorted_NoDup_strict; [apply py_sorted_sorted|].
  exact (Permutation_NoDup (Permutation_sym (py_sorted_perm l)) H).
Qed.

Lemma strict_sorted_unique (l1 l2 : list str) :
  StronglySorted str_lt l1 -> StronglySorted str_lt l2 ->
  (forall x, In x l1 <-> In x l2) -> l1 = l2.
Proof.
  intros H1; revert l2; induction H1 as [|x l1 Hs1 IH Hx]; intros l2 H2 He.
  - destruct l2 as [|y l2]; [reflexivity|].
    destruct (proj2 (He y) (or_introl eq_refl)).
  - destruct H2 as [|y l2 Hs2 Hy].
    { destruct (proj1 (He x) (or_introl eq_refl)). }
    rewrite Forall_forall in Hx, Hy.
    assert (Exy : x = y).
    { destruct (proj1 (He x) (or_introl eq_refl)) as [E | Hin]; [now symmetry|].
      destruct (proj2 (He y) (or_introl eq_refl)) as [E | Hin']; [exact E|].
      pose proof (Hy x Hin) as L1. pose proof (Hx y Hin') as L2.
      red in L1, L2. apply str_ltb_asym in L1. congruence. }
    subst y. f_equal. apply IH; [exact Hs2|].
    intros z. split; intros Hz.
    + destruct (proj1 (He z) (or_intror Hz)) as [E | H]; [|exact H].
      subst z. pose proof (Hx x Hz) as L. red in L.
      now rewrite str_ltb_irrefl in L.
    + destruct (proj2 (He z) (or_intror Hz)) as [E | H]; [|exact H].
      subst z. pose proof (Hy x Hz) as L. red in L.
      now rewrite str_ltb_irrefl in L.
Qed.

(** Sorting a set: the result depends on the elements alone. *)
Lemma py_sorted_set (f g : list str -> list str) (l l' : list str) :
  distinct_order f -> distinct_order g ->
  (forall x, In x l <-> In x l') ->
  py_sorted (f l) = py_sorted (g l').
Proof.
  intros Hf Hg He. destruct (Hf l) as [Nf Ef], (Hg l') as [Ng Eg].
  apply strict_sorted_unique; try now apply py_sorted_strict.
  intros x. split; intros H.
  - apply (Permutation_in _ (py_sorted_perm _)) in H.
    apply (Permutation_in _ (Permutation_sym (py_sorted_perm _))).
    apply Eg, He, Ef, H.
  - apply (Permutation_in _ (py_sorted_perm _)) in H.
    apply (Permutation_in _ (Permutation_sym (py_sorted_perm _))).
    apply Ef, He, Eg, H.
Qed.

Lemma py_sorted_In (f : list str -> list str) (l : list str) (x : str) :
  distinct_order f -> In x (py_sorted (f l)) <-> In x l.
Proof.
  intros Hf. destruct (Hf l) as [_ Ef]. rewrite <- Ef. split; intros H.
  - exact (Permutation_in _ (py_sorted_perm _) H).
  - exact (Permutation_in _ (Permutation_sym (py_sorted_perm _)) H).
Qed.

(** ** Registry enrichment: the documents *)

Lemma strs_of_map (l : list str) : strs_of (map JStr l) = Some l.
Proof. induction l as [|s l IH]; [reflexivity|]. cbn. now rewrite IH. Qed.

Lemma dict_setitem_twice {V : Type} (d : dict V) (k : str) (v w : V) :
  dict_setitem (dict_setitem d k v) k w = dict_setitem d k w.
Proof.
  induction d as [|[k' v'] d IH]; cbn [dict_setitem].
  - now rewrite str_eqb_refl.
  - destruct (str_eqb k' k) eqn:E; cbn [dict_setitem]; rewrite E;
      [reflexivity | now rewrite IH].
Qed.

(** The fields of a document after the assignment to [sample_queries]. *)
Lemma enrich_doc_inversion (set_iter : list str -> list str) (doc doc' : json)
  (table : str) (aliases : list str) (top : json) :
  enrich_doc set_iter doc = Some (doc', table, aliases, top) ->
  exists fields fields1 top_cols old,
    doc = JObj fields
    /\ dict_get fields (lit "table") = Some (JStr table)
    /\ top = json_get doc (lit "top_columns") (JList [])
    /\ iter_strs top = Some top_cols
    /\ iter_strs (json_get doc (lit "aliases") (JList [])) = Some old
    /\ (fields1 = fields
        /\ json_truthy (json_get doc (lit "sample_queries") (JStr [])) = true
        \/ fields1 = dict_setitem fields (lit "sample_queries")
                       (JList (map JStr (make_templates table top_cols))))
    /\ aliases = py_sorted (set_iter (old ++ alias_additions table top_cols))
    /\ doc' = JObj (dict_setitem fields1 (lit "aliases") (JList (map JStr aliases))).
Proof.
  unfold enrich_doc. destruct doc as [s|l|fields]; try discriminate.
  destruct (dict_get fields (lit "table")) as [[table'| |]|] eqn:Et;
    try discriminate.
  cbv zeta. cbn [json_get].
  set (top0 := match dict_get fields (lit "top_columns") with
               | Some v => v
               | None => JList []
               end).
  set (no_samples := negb match dict_get fields (lit "sample_queries") with
                          | Some v => json_truthy v
                          | None => false
                          end).
  destruct (no_samples && match top0 with JObj (_ :: _) => true | _ => false end);
    [discriminate|].
  destruct (iter_strs top0) as [top_cols|] eqn:Ei; [|discriminate].
  set (fields1 := if no_samples
                  then dict_setitem fields (lit "sample_queries")
                         (JList (map JStr (make_templates table' top_cols)))
                  else fields).
  assert (Ea : dict_get fields1 (lit "aliases") = dict_get fields (lit "aliases")).
  { unfold fields1. destruct no_samples; [|reflexivity].
    apply dict_get_setitem_other. discriminate. }
  rewrite Ea.
  destruct (iter_strs match dict_get fields (lit "aliases") with
                      | Some v => v
                      | None => JList []
                      end) as [old|] eqn:Eo; [|discriminate].
  intros [= <- <- <- <-].
  exists fields, fields1, top_cols, old.
  repeat (split; [reflexivity || assumption|]).
  split; [|split; reflexivity].
  unfold fields1, no_samples.
  destruct (dict_get fields (lit "sample_queries")) as [v|]; cbn [negb].
  - destruct (json_truthy v) eqn:Ev; cbn [negb]; [left; now split | now right].
  - now right.
Qed.

Section EnrichDocuments.

Variable set_iter : list str -> list str.

Hypothesis set_iter_distinct : distinct_order set_iter.

(** The alias list [enrich_registry] gives a document is in strictly
    ascending order of code points, so without duplicates; it holds the
    aliases the document had, the normalized table name, the normalized
    underscore-separated parts of the name and the tokens of the top
    columns; and it is the same whatever the iteration order of the set
    it is sorted from. *)
Theorem enriched_aliases_are_sorted (doc doc' : json) (table : str)
  (aliases : list str) (top : json) :
  enrich_doc set_iter doc = Some (doc', table, aliases, top) ->
  json_get doc' (lit "aliases") (JList []) = JList (map JStr aliases)
  /\ StronglySorted str_lt aliases
  /\ (forall old top_cols,
         iter_strs (json_get doc (lit "aliases") (JList [])) = Some old ->
         iter_strs (json_get doc (lit "top_columns") (JList [])) = Some top_cols ->
         forall a, In a aliases <-> In a old \/ In a (alias_additions table top_cols))
  /\ In (normalize_token table) aliases
  /\ (forall other, distinct_order other ->
                    enrich_doc other doc = Some (doc', table, aliases, top)).
Proof.
  intros H.
  destruct (enrich_doc_inversion _ _ _ _ _ _ H)
    as (fields & fields1 & top_cols & old & -> & Et & Etop & Ei & Eo & Ef & -> & ->).
  split; [|split; [|split; [|split]]].
  - cbn [json_get]. now rewrite dict_get_setitem_same.
  - apply py_sorted_strict, set_iter_distinct.
  - intros old' top_cols' Ho Ht a. rewrite <- Etop in Ht.
    assert (old' = old) by congruence. assert (top_cols' = top_cols) by congruence.
    subst. rewrite (py_sorted_In set_iter _ a set_iter_distinct).
    apply in_app_iff.
  - apply (py_sorted_In set_iter _ _ set_iter_distinct).
    apply in_or_app. right. now left.
  - intros other Ho. rewrite <- H. unfold enrich_doc. rewrite Et. cbv zeta.
    cbn [json_get] in Etop, Eo. rewrite <- Etop.
    destruct (negb match dict_get fields (lit "sample_queries") with
                   | Some v => json_truthy v
                   | None => false
                   end
              && match top with JObj (_ :: _) => true | _ => false end);
      [reflexivity|].
    rewrite Ei.
    match goal with
    | |- match iter_strs ?x with _ => _ end = _ =>
        destruct (iter_strs x) as [old'|]; [|reflexivity]
    end.
    now rewrite (py_sorted_set other set_iter _ _ Ho set_iter_distinct
                   (fun x => iff_refl _)).
Qed.

Lemma enrich_doc_again (doc doc' : json) (table : str)
  (aliases : list str) (top : json) :
  enrich_doc set_iter doc = Some (doc', table, aliases, top) ->
  enrich_doc set_iter doc' = Some (doc', table, aliases, top).
Proof.
  intros H.
  destruct (enrich_doc_inversion _ _ _ _ _ _ H)
    as (fields & fields1 & top_cols & old & -> & Et & Etop & Ei & Eo & Ef & Ea & ->).
  cbn [json_get] in Etop, Eo.
  assert (Et1 : dict_get fields1 (lit "table") = Some (JStr table)).
  { destruct Ef as [[-> _] | ->]; [exact Et|].
    rewrite dict_get_setitem_other by discriminate. exact Et. }
  assert (Etop1 : match dict_get fields1 (lit "top_columns") with
                  | Some v => v
                  | None => JList []
                  end = top).
  { rewrite Etop. destruct Ef as [[-> _] | ->]; [reflexivity|].
    now rewrite dict_get_setitem_other by discriminate. }
  assert (Es1 : match dict_get fields1 (lit "sample_queries") with
                | Some v => json_truthy v
                | None => false
                end = true).
  { destruct Ef as [[-> Hs] | ->].
    - cbn [json_get] in Hs.
      destruct (dict_get fields (lit "sample_queries")); [exact Hs | discriminate].
    - now rewrite dict_get_setitem_same. }
  unfold enrich_doc.
  rewrite !dict_get_setitem_other by discriminate.
  rewrite Et1, Etop1, Es1. cbv zeta. cbn [negb andb]. rewrite Ei.
  rewrite dict_get_setitem_same. cbn [iter_strs]. rewrite strs_of_map.
  assert (Es : py_sorted (set_iter (aliases ++ alias_additions table top_cols))
               = aliases).
  { rewrite Ea at 2. apply py_sorted_set; try exact set_iter_distinct.
    intros x. rewrite !in_app_iff, Ea.
    rewrite (py_sorted_In set_iter _ x set_iter_distinct), in_app_iff. tauto. }
  rewrite Es, dict_setitem_twice. reflexivity.
Qed.

(** Enriching an enriched document changes nothing: the sample queries
    are kept, and the aliases are already the sorted set of themselves and
    of the names the table and the top columns add. *)
Theorem enrich_doc_is_idempotent (doc doc' : json) (table : str)
  (aliases : list str) (top : json) :
  enrich_doc set_iter doc = Some (doc', table, aliases, top) ->
  enrich_doc set_iter doc' = Some (doc', table, aliases, top)
  /\ json_truthy (json_get doc' (lit "sample_queries") (JList [])) = true.
Proof.
  intros H. split; [exact (enrich_doc_again _ _ _ _ _ H)|].
  destruct (enrich_doc_inversion _ _ _ _ _ _ H)
    as (fields & fields1 & top_cols & old & -> & _ & _ & _ & _ & Ef & _ & ->).
  cbn [json_get]. rewrite dict_get_setitem_other by discriminate.
  destruct Ef as [[-> Hs] | ->].
  - cbn [json_get] in Hs.
    destruct (dict_get fields (lit "sample_queries")); [exact Hs | discriminate].
  - now rewrite dict_get_setitem_same.
Qed.

End EnrichDocuments.

Lemma enriched_aliases_are_sorted_sample :
  StronglySorted str_lt
    [lit "insurance"; lit "insurer"; lit "pol"; lit "policies"; lit "policy"].
Proof.
  exact (proj1 (proj2
    (enriched_aliases_are_sorted set_elements set_elements_distinct
       (JObj [(lit "table", JStr (lit "policies"));
              (lit "top_columns", JList [JStr (lit "pol_PolicyID");
                                         JStr (lit "InsurerNo")]);
              (lit "aliases", JList [JStr (lit "policies"); JStr (lit "pol")])])
       _ (lit "policies")
       [lit "insurance"; lit "insurer"; lit "pol"; lit "policies"; lit "policy"]
       _ eq_refl))).
Defined.

Lemma enrich_doc_is_idempotent_sample :
  let doc :=
    JObj [(lit "table", JStr (lit "policies"));
          (lit "top_columns", JList [JStr (lit "pol_PolicyID")]);
          (lit "aliases", JList [JStr (lit "policies")]);
          (lit "sample_queries", JList [])] in
  exists doc' aliases,
    enrich_doc set_elements doc
    = Some (doc', lit "policies", aliases, JList [JStr (lit "pol_PolicyID")])
    /\ enrich_doc set_elements doc'
       = Some (doc', lit "policies", aliases, JList [JStr (lit "pol_PolicyID")]).
Proof.
  cbv zeta. eexists. eexists.
  refine ((fun E => conj E
             (proj1 (enrich_doc_is_idempotent set_elements set_elements_distinct
                       _ _ _ _ _ E))) _).
  vm_compute. reflexivity.
Defined.

(** ** Registry enrichment: the run over the file *)

Section EnrichRun.

Variable set_iter : list str -> list str.
Variable json_dumps : json -> str.
Variable json_loads : str -> outcome json.

Local Abbreviation effect := (line_effect set_iter json_dumps json_loads).
Local Abbreviation effects := (lines_effect set_iter json_dumps json_loads).
Local Abbreviation run := (enrich_registry set_iter json_dumps json_loads).

Lemma fold_insert_tokens (table : str) (cols : list str) (db : registry_db) :
  fold_left
    (fun db c =>
       fold_left (fun db tok => insert_column db tok table c)
                 (split_col_tokens c) db)
    cols db
  = mk_db (alias_index db)
      (column_index db
       ++ flat_map (fun c => map (fun tok => (tok, table, c)) (split_col_tokens c))
            cols).
Proof.
  revert db; induction cols as [|c l IH]; intros db; simpl.
  - rewrite app_nil_r. now destruct db.
  - rewrite fold_insert_column, IH. simpl. now rewrite <- app_assoc.
Qed.

Lemma enrich_line_effect (schema : json) (fout : str) (db : registry_db)
  (line : str) :
  enrich_line set_iter json_dumps json_loads schema (fout, db) line
  = match effect schema line with
    | Some (t, ra, rc) =>
        Some (fout ++ t, mk_db (alias_index db ++ ra) (column_index db ++ rc))
    | None => None
    end.
Proof.
  unfold enrich_line, line_effect.
  destruct (json_loads line) as [doc| |]; try reflexivity.
  destruct (enrich_doc set_iter doc) as [[[[doc' table] aliases] top]|];
    [|reflexivity].
  destruct schema as [s|l|sfields]; try reflexivity.
  destruct (iter_strs _) as [cols|]; [|reflexivity].
  rewrite fold_insert_tokens, fold_insert_alias. reflexivity.
Qed.

Lemma enrich_lines_effect (schema : json) (lines : list str) (fout : str)
  (db : registry_db) :
  enrich_lines set_iter json_dumps json_loads schema lines (fout, db)
  = match effects schema lines with
    | Some (t, ra, rc) =>
        Some (fout ++ t, mk_db (alias_index db ++ ra) (column_index db ++ rc))
    | None => None
    end.
Proof.
  revert fout db; induction lines as [|line rest IH]; intros fout db;
    cbn [enrich_lines lines_effect].
  - rewrite !app_nil_r. now destruct db.
  - rewrite enrich_line_effect.
    destruct (effect schema line) as [[[t ra] rc]|]; [|reflexivity].
    rewrite IH. destruct (effects schema rest) as [[[t' ra'] rc']|]; [|reflexivity].
    cbn [alias_index column_index]. now rewrite <- !app_assoc.
Qed.

Lemma enrich_registry_effect (ndjson : str) (db : registry_db) (schema : json) :
  run ndjson db schema
  = match effects schema (file_lines ndjson) with
    | Some (t, ra, rc) =>
        Some (t, ndjson, mk_db (alias_index db ++ ra) (column_index db ++ rc))
    | None => None
    end.
Proof.
  unfold enrich_registry. rewrite enrich_lines_effect.
  now destruct (effects schema (file_lines ndjson)) as [[[t ra] rc]|].
Qed.

End EnrichRun.

Lemma file_lines_of_texts (texts : list str) :
  Forall (fun t => forallb (fun c => negb (Ascii.eqb c LF || Ascii.eqb c "013")) t
                   = true) texts ->
  file_lines (concat (map (fun t => t ++ [LF]) texts))
  = map (fun t => t ++ [LF]) texts.
Proof.
  intros H. unfold file_lines.
  assert (Hcr : forallb (fun c => negb (Ascii.eqb c "013"))
                  (concat (map (fun t => t ++ [LF]) texts)) = true).
  { induction H as [|t l Ht _ IH]; [reflexivity|]. cbn [map concat].
    rewrite !forallb_app, IH. cbn [forallb]. rewrite !andb_true_r.
    apply forallb_forall. intros c Hc. rewrite forallb_forall in Ht.
    specialize (Ht c Hc). apply negb_true_iff, orb_false_iff in Ht as [_ Ht].
    now rewrite Ht. }
  rewrite universal_newlines_id by exact Hcr. clear Hcr.
  induction H as [|t l Ht _ IH]; [reflexivity|]. cbn [map concat].
  rewrite <- app_assoc. cbn [app]. rewrite file_lines_from_line.
  - now rewrite IH.
  - apply forallb_forall. intros c Hc. rewrite forallb_forall in Ht.
    specialize (Ht c Hc). apply negb_true_iff, orb_false_iff in Ht as [Ht _].
    now rewrite Ht.
Qed.

Section EnrichAgain.

Variable set_iter : list str -> list str.
Variable json_dumps : json -> str.
Variable json_loads : str -> outcome json.

Hypothesis set_iter_distinct : distinct_order set_iter.

Local Abbreviation effect := (line_effect set_iter json_dumps json_loads).
Local Abbreviation effects := (lines_effect set_iter json_dumps json_loads).
Local Abbreviation run := (enrich_registry set_iter json_dumps json_loads).
Local Abbreviation round_trips :=
  (enriched_line_round_trips set_iter json_dumps json_loads).

Lemma line_effect_again (schema : json) (line t : str)
  (ra : list (str * str)) (rc : list (str * str * str)) :
  round_trips line ->
  effect schema line = Some (t, ra, rc) ->
  exists doc',
    t = json_dumps doc' ++ [LF]
    /\ codec_round_trips json_dumps json_loads doc'
    /\ effect schema t = Some (t, ra, rc).
Proof.
  unfold enriched_line_round_trips, line_effect.
  destruct (json_loads line) as [doc| |]; try discriminate.
  destruct (enrich_doc set_iter doc) as [[[[doc' table] aliases] top]|] eqn:E;
    [|discriminate].
  intros Hc. destruct schema as [s|l|sfields]; try discriminate.
  destruct (iter_strs _) as [cols|] eqn:Ei; [|discriminate].
  intros [= <- <- <-]. exists doc'. split; [reflexivity|]. split; [exact Hc|].
  destruct Hc as [-> _].
  rewrite (enrich_doc_again set_iter set_iter_distinct _ _ _ _ _ E).
  now rewrite Ei.
Qed.

Lemma lines_effect_again (schema : json) (lines : list str) :
  Forall round_trips lines ->
  forall t ra rc,
    effects schema lines = Some (t, ra, rc) ->
    exists docs,
      t = concat (map (fun d => json_dumps d ++ [LF]) docs)
      /\ Forall (codec_round_trips json_dumps json_loads) docs
      /\ effects schema (map (fun d => json_dumps d ++ [LF]) docs)
         = Some (t, ra, rc).
Proof.
  induction 1 as [|line rest Hl _ IH]; intros t ra rc; cbn [lines_effect].
  - intros [= <- <- <-]. exists []. repeat split. constructor.
  - destruct (effect schema line) as [[[t1 ra1] rc1]|] eqn:E1; [|discriminate].
    destruct (effects schema rest) as [[[t2 ra2] rc2]|] eqn:E2; [|discriminate].
    intros [= <- <- <-].
    destruct (line_effect_again schema line t1 ra1 rc1 Hl E1) as (d & Et & Hd & E1').
    destruct (IH _ _ _ eq_refl) as (docs & Et2 & Hds & E2').
    exists (d :: docs). cbn [map concat lines_effect].
    rewrite <- Et, <- Et2, E1', E2'. repeat split. now constructor.
Qed.

(** A run of [enrich_registry] keeps the old text as the backup and
    only appends to the store.  Run again on its own output, it writes the
    same text once more and appends the same rows once more: the text of
    the registry is stable, the store is not (its INSERTs are repeated). *)
Theorem enrich_registry_again (ndjson : str) (db : registry_db) (schema : json)
  (out backup : str) (db1 : registry_db) :
  Forall round_trips (file_lines ndjson) ->
  run ndjson db schema = Some (out, backup, db1) ->
  backup = ndjson
  /\ exists rows_a rows_c,
       alias_index db1 = alias_index db ++ rows_a
       /\ column_index db1 = column_index db ++ rows_c
       /\ run out db1 schema
          = Some (out, out,
                  mk_db (alias_index db ++ rows_a ++ rows_a)
                        (column_index db ++ rows_c ++ rows_c)).
Proof.
  intros Hc. rewrite enrich_registry_effect.
  destruct (effects schema (file_lines ndjson)) as [[[t ra] rc]|] eqn:E;
    [|discriminate].
  intros [= <- <- <-]. split; [reflexivity|]. exists ra, rc.
  split; [reflexivity|]. split; [reflexivity|].
  destruct (lines_effect_again schema _ Hc _ _ _ E) as (docs & Et & Hd & E').
  rewrite enrich_registry_effect.
  assert (El : file_lines t = map (fun d => json_dumps d ++ [LF]) docs).
  { rewrite Et. rewrite <- (map_map json_dumps (fun x => x ++ [LF])).
    rewrite file_lines_of_texts; [reflexivity|].
    apply Forall_map. eapply Forall_impl; [|exact Hd]. now intros d [_ H]. }
  rewrite El, E'. cbn [alias_index column_index]. now rewrite <- !app_assoc.
Qed.

End EnrichAgain.

Lemma enrich_registry_again_sample :
  let doc :=
    JObj [(lit "table", JStr (lit "policies"));
          (lit "top_columns", JList [JStr (lit "pol_PolicyID")]);
          (lit "aliases", JList [JStr (lit "policies")]);
          (lit "sample_queries", JList [])] in
  let ndjson := JsonText.dumps doc ++ [LF] in
  exists out db1 rows_a rows_c,
    enrich_registry set_elements JsonText.dumps JsonText.loads ndjson empty_db
      (JObj [])
    = Some (out, ndjson, db1)
    /\ enrich_registry set_elements JsonText.dumps JsonText.loads out db1
         (JObj [])
       = Some (out, out,
               mk_db (alias_index empty_db ++ rows_a ++ rows_a)
                     (column_index empty_db ++ rows_c ++ rows_c)).
Proof.
  cbv zeta.
  assert (Hc : Forall (enriched_line_round_trips set_elements JsonText.dumps
                         JsonText.loads)
                 (file_lines
                    (JsonText.dumps
                       (JObj [(lit "table", JStr (lit "policies"));
                              (lit "top_columns", JList [JStr (lit "pol_PolicyID")]);
                              (lit "aliases", JList [JStr (lit "policies")]);
                              (lit "sample_queries", JList [])]) ++ [LF]))).
  { match goal with |- Forall _ ?l => set (lines := l) end.
    vm_compute in lines. subst lines.
    constructor; [vm_compute; split; reflexivity | constructor]. }
  destruct (enrich_registry set_elements JsonText.dumps JsonText.loads
              (JsonText.dumps
                 (JObj [(lit "table", JStr (lit "policies"));
                        (lit "top_columns", JList [JStr (lit "pol_PolicyID")]);
                        (lit "aliases", JList [JStr (lit "policies")]);
                        (lit "sample_queries", JList [])]) ++ [LF])
              empty_db (JObj []))
    as [[[out backup] db1]|] eqn:E; [|vm_compute in E; discriminate E].
  destruct (enrich_registry_again set_elements JsonText.dumps JsonText.loads
              set_elements_distinct _ _ _ _ _ _ Hc E)
    as (Eb & rows_a & rows_c & _ & _ & E2).
  subst backup. exists out, db1, rows_a, rows_c. split; [reflexivity | exact E2].
Defined.

(** ** Registry enrichment after the build *)

Section EnrichAfterBuild.

Variable sha1_hexdigest : str -> str.
Variable set_iter : list str -> list str.
Variable json_dumps : json -> str.
Variable json_loads : str -> outcome json.

Local Abbreviation build := (build_registry sha1_hexdigest set_iter json_dumps).
Local Abbreviation doc_of := (item_doc sha1_hexdigest set_iter).
Local Abbreviation line_of := (item_line sha1_hexdigest set_iter json_dumps).
Local Abbreviation run := (enrich_registry set_iter json_dumps json_loads).

Variable schema : dict (list str).

Hypothesis schema_keys : NoDup (dict_keys schema).
Hypothesis codec :
  Forall (fun item => codec_round_trips json_dumps json_loads (doc_of item)) schema.

Lemma enrich_doc_item (item : str * list str) :
  enrich_doc set_iter (doc_of item)
  = Some (enriched_doc sha1_hexdigest set_iter item, fst item,
          enriched_aliases set_iter item,
          JList (map JStr (pick_top_columns (snd item) 4))).
Proof.
  destruct item as [table cols]. unfold item_doc, registry_doc, enrich_doc.
  cbn [fst snd].
  change (dict_get ?d (lit "table")) with (Some (JStr table)).
  cbv beta iota zeta.
  change (dict_get _ (lit "top_columns"))
    with (Some (JList (map JStr (pick_top_columns cols 4)))).
  change (dict_get _ (lit "sample_queries")) with (Some (JList [])).
  cbn [json_truthy nonempty negb andb iter_strs].
  rewrite strs_of_map.
  change (dict_get _ (lit "aliases"))
    with (Some (JList (map JStr (table_aliases set_iter table)))).
  cbn [iter_strs]. rewrite strs_of_map. reflexivity.
Qed.

Lemma schema_json_get (t : str) (cols : list str) :
  In (t, cols) schema ->
  dict_get (map (fun kv => (fst kv, JList (map JStr (snd kv)))) schema) t
  = Some (JList (map JStr cols)).
Proof.
  intros H. apply In_dict_get.
  - unfold dict_keys. rewrite map_map. exact schema_keys.
  - apply in_map_iff. now exists (t, cols).
Qed.

Lemma line_effect_item (item : str * list str) :
  In item schema ->
  codec_round_trips json_dumps json_loads (doc_of item) ->
  line_effect set_iter json_dumps json_loads (schema_json schema) (line_of item)
  = Some (json_dumps (enriched_doc sha1_hexdigest set_iter item) ++ [LF],
          map (fun a => (a, fst item)) (enriched_aliases set_iter item),
          flat_map (fun c => map (fun tok => (tok, fst item, c))
                                 (split_col_tokens c)) (snd item)).
Proof.
  intros Hin [Hl _]. unfold line_effect, item_line. rewrite Hl, enrich_doc_item.
  unfold schema_json. destruct item as [t cols]. cbn [fst snd].
  rewrite (schema_json_get t cols Hin). cbn [iter_strs]. now rewrite strs_of_map.
Qed.

(** The third step of the pipeline on the output of the second: on
    the registry that [build_registry] wrote for a schema, with the schema
    as [schema.json], [enrich_registry] does not raise; it writes, for every
    table in the order of the schema, the document of the table with the
    three sample queries of [make_templates] and the sorted aliases, and it
    appends one row of [alias_index] per alias and one row of
    [column_index] per token of every column. *)
Theorem enrich_after_build (db0 db : registry_db) :
  exists out db',
    run (fst (build schema db0)) db (schema_json schema)
    = Some (out, fst (build schema db0), db')
    /\ out = concat (map (fun item =>
                            json_dumps (enriched_doc sha1_hexdigest set_iter item)
                            ++ [LF]) schema)
    /\ alias_index db'
       = alias_index db
         ++ flat_map (fun item => map (fun a => (a, fst item))
                                      (enriched_aliases set_iter item)) schema
    /\ column_index db'
       = column_index db
         ++ flat_map (fun item =>
                        flat_map (fun c => map (fun tok => (tok, fst item, c))
                                               (split_col_tokens c)) (snd item))
              schema.
Proof.
  rewrite enrich_registry_effect.
  assert (El : file_lines (fst (build schema db0)) = map line_of schema).
  { unfold file_lines. rewrite build_registry_file.
    rewrite universal_newlines_id
      by exact (registry_text_no_cr _ _ _ _ schema codec).
    exact (registry_text_lines _ _ _ _ schema codec). }
  rewrite El.
  assert (E : forall items,
             incl items schema ->
             lines_effect set_iter json_dumps json_loads (schema_json schema)
               (map line_of items)
             = Some (concat (map (fun item =>
                                    json_dumps (enriched_doc sha1_hexdigest
                                                  set_iter item) ++ [LF]) items),
                     flat_map (fun item => map (fun a => (a, fst item))
                                               (enriched_aliases set_iter item))
                       items,
                     flat_map (fun item =>
                                 flat_map (fun c =>
                                             map (fun tok => (tok, fst item, c))
                                                 (split_col_tokens c)) (snd item))
                       items)).
  { induction items as [|item items IH]; intros Hi; [reflexivity|].
    cbn [map lines_effect concat flat_map].
    pose proof codec as Hc. rewrite Forall_forall in Hc.
    rewrite (line_effect_item item (Hi _ (or_introl eq_refl))
               (Hc _ (Hi _ (or_introl eq_refl)))).
    rewrite IH by (intros x Hx; apply Hi; now right). reflexivity. }
  rewrite (E schema (incl_refl _)). eexists. eexists.
  split; [reflexivity|]. repeat split.
Qed.

End EnrichAfterBuild.

Lemma enrich_after_build_sample :
  exists out db',
    enrich_registry set_elements JsonText.dumps JsonText.loads
      (fst (build_registry constant_digest set_elements JsonText.dumps
              sample_schema empty_db))
      (snd (build_registry constant_digest set_elements JsonText.dumps
              sample_schema empty_db))
      (schema_json sample_schema)
    = Some (out,
            fst (build_registry constant_digest set_elements JsonText.dumps
                   sample_schema empty_db),
            db')
    /\ out = concat (map (fun item =>
                            JsonText.dumps
                              (enriched_doc constant_digest set_elements item)
                            ++ [LF]) sample_schema).
Proof.
  destruct (enrich_after_build constant_digest set_elements JsonText.dumps
              JsonText.loads sample_schema)
    with (db0 := empty_db)
         (db := snd (build_registry constant_digest set_elements JsonText.dumps
                       sample_schema empty_db))
    as (out & db' & H1 & H2 & _).
  - repeat constructor; simpl; intuition discriminate.
  - repeat constructor; vm_compute; reflexivity.
  - exists out, db'. exact (conj H1 H2).
Defined.

(** ** The tokens of a sample query *)

Lemma blank_or_alnum (c : ascii) :
  let d := if in_range 48 57 (lower_char c) || in_range 97 122 (lower_char c)
           then lower_char c else " "%char in
  py_isspace d = false -> is_lower_alnum d = true.
Proof. ascii_cases c; vm_compute; congruence. Qed.

(** Under the contract that a set yields each of its elements once,
    [tokenize_text] returns every maximal run of digits and lower-case ASCII
    letters of the lower-cased text once: each token is non-empty and holds
    nothing but such characters. *)
Theorem tokenize_text_tokens (set_iter : list str -> list str) (s : str) :
  distinct_order set_iter ->
  NoDup (tokenize_text set_iter s)
  /\ forall t, In t (tokenize_text set_iter s) ->
               t <> [] /\ forallb is_lower_alnum t = true.
Proof.
  intros Hset. unfold tokenize_text. destruct (Hset
    (filter (fun t => nonempty t)
       (py_split (map (fun c => if in_range 48 57 c || in_range 97 122 c
                                then c else " "%char) (py_lower s)))))
    as [Hn He].
  split; [exact Hn|]. intros t Ht. apply (proj1 (He t)) in Ht.
  apply filter_In in Ht as [Ht Hne]. split; [now apply nonempty_true|].
  apply forallb_forall. intros c Hc.
  assert (Hs : py_isspace c = false).
  { pose proof (split_ws_from_no_space _ [] t eq_refl Ht) as H.
    rewrite forallb_forall in H. apply negb_true_iff. now apply H. }
  pose proof (piece_of_In _ _ c (split_ws_from_piece _ [] t Ht) Hc) as Hin.
  cbn [app] in Hin. unfold py_lower in Hin. rewrite map_map in Hin.
  apply in_map_iff in Hin as (c0 & <- & _).
  now apply blank_or_alnum.
Qed.

Lemma tokenize_text_tokens_sample :
  NoDup (tokenize_text set_elements (lit "List policies, list CLAIMS-2024!")).
Proof.
  exact (proj1 (tokenize_text_tokens set_elements
                  (lit "List policies, list CLAIMS-2024!") set_elements_distinct)).
Defined.
